(** * CUA System Chat: the conversational orchestration core

    A shallow embedding of [src/index.tsx] and [src/db.ts]: the persona
    registry, the system-prompt builder, the history store, the delegation
    executor, the session switch and the chat-submit handler with its two
    provider tool-call loops.

    Conventions.
    - A JavaScript string is a Rocq [string]; each character stands for one
      code unit in the range 0..255.  Case conversion is modelled on the
      ASCII letters, which is all the source ever converts (persona names,
      persona keys and [\w+] captures).
    - The mutable globals of the page ([geminiChat], [openAIMessages],
      [stagedFile], the DOM containers, the IndexedDB store) are the fields
      of one [World] record that every handler threads through.
    - The external collaborators (the two provider clients, the Gemini SDK's
      own history bookkeeping, [JSON.parse], IndexedDB failures) are the
      fields of an [Env] record; the handlers are functions of it. *)

From Stdlib Require Import Ascii String.
From stdpp Require Import base option list gmap strings.

(** ** Strings *)

Module Js.

Definition code (c : ascii) : nat := nat_of_ascii c.

Definition between (lo hi : nat) (c : ascii) : bool :=
  (lo <=? code c)%nat && (code c <=? hi)%nat.

Definition is_upper (c : ascii) : bool := between 65 90 c.
Definition is_lower (c : ascii) : bool := between 97 122 c.
Definition is_digit (c : ascii) : bool := between 48 57 c.

(** The regular-expression class [\w]: [A-Za-z0-9_]. *)
Definition is_word (c : ascii) : bool :=
  is_upper c || is_lower c || is_digit c || (code c =? 95)%nat.

(** White space as [String.prototype.trim] sees it, within 0..255: TAB, LF,
    VT, FF, CR, SPACE and NBSP. *)
Definition is_space (c : ascii) : bool :=
  between 9 13 c || (code c =? 32)%nat || (code c =? 160)%nat.

Definition lower_char (c : ascii) : ascii :=
  if is_upper c then ascii_of_nat (code c + 32) else c.

Definition upper_char (c : ascii) : ascii :=
  if is_lower c then ascii_of_nat (code c - 32) else c.

Fixpoint map_chars (f : ascii -> ascii) (s : string) : string :=
  match s with
  | EmptyString => EmptyString
  | String c r => String (f c) (map_chars f r)
  end.

Definition toLowerCase : string -> string := map_chars lower_char.
Definition toUpperCase : string -> string := map_chars upper_char.

Fixpoint trimStart (s : string) : string :=
  match s with
  | EmptyString => EmptyString
  | String c r => if is_space c then trimStart r else s
  end.

(** [trimEnd] keeps a character when it is not a space or when something
    is left after it. *)
Fixpoint trimEnd (s : string) : string :=
  match s with
  | EmptyString => EmptyString
  | String c r =>
      match trimEnd r with
      | EmptyString => if is_space c then EmptyString else String c EmptyString
      | r' => String c r'
      end
  end.

Definition trim (s : string) : string := trimEnd (trimStart s).

(** Truthiness of a string: [!s] holds exactly for the empty string. *)
Definition truthy (s : string) : bool :=
  match s with EmptyString => false | _ => true end.

(** [s.substring(0, n)]. *)
Definition prefix (n : nat) (s : string) : string := String.substring 0 n s.

(** The longest prefix of word characters, and what follows it. *)
Fixpoint span_word (s : string) : string * string :=
  match s with
  | EmptyString => (EmptyString, EmptyString)
  | String c r =>
      if is_word c
      then let '(w, rest) := span_word r in (String c w, rest)
      else (EmptyString, s)
  end.

(** The double-quote character, used inside log lines. *)
Definition dq : string := String (ascii_of_nat 34) EmptyString.

(** What a template literal prints for a possibly missing string. *)
Definition show (o : option string) : string := default "undefined" o.

(** A value thrown by a [throw] or a rejected promise. *)
Inductive Thrown : Type :=
  | ThrownError (message : string)
  | ThrownOther.

(** The [TypeError] raised by reading a member of [undefined] or calling
    what is no function; its message depends on the engine. *)
Definition TypeError : Thrown := ThrownError "TypeError".

(** [error instanceof Error ? error.message : 'An unknown error occurred.'] *)
Definition errorMessage (e : Thrown) : string :=
  match e with
  | ThrownError m => m
  | ThrownOther => "An unknown error occurred."
  end.

(** An ordinary object used as a dictionary: own properties in insertion
    order, and [Object.prototype] behind them. *)
Definition Obj (A : Type) : Type := list (string * A).

Fixpoint own {A} (o : Obj A) (k : string) : option A :=
  match o with
  | [] => None
  | (k', v) :: r => if String.eqb k' k then Some v else own r k
  end.

Fixpoint set {A} (o : Obj A) (k : string) (v : A) : Obj A :=
  match o with
  | [] => [(k, v)]
  | (k', v') :: r =>
      if String.eqb k' k then (k', v) :: r else (k', v') :: set r k v
  end.

Definition fromEntries {A} (es : list (string * A)) : Obj A :=
  fold_left (fun o e => set o (fst e) (snd e)) es [].

Definition keys {A} (o : Obj A) : list string := map fst o.

(** The property names every ordinary object inherits. *)
Definition Object_prototype : list string :=
  [ "constructor"; "__defineGetter__"; "__defineSetter__"; "hasOwnProperty";
    "__lookupGetter__"; "__lookupSetter__"; "isPrototypeOf";
    "propertyIsEnumerable"; "toString"; "valueOf"; "__proto__";
    "toLocaleString" ].

Definition inherited (k : string) : bool :=
  existsb (String.eqb k) Object_prototype.

(** The result of [o[k]]: an own value, an inherited member (a function or
    the prototype object, always truthy), or [undefined]. *)
Inductive Lookup (A : Type) : Type :=
  | Own (a : A)
  | Inherited
  | Undefined.
Arguments Own {A} a.
Arguments Inherited {A}.
Arguments Undefined {A}.

Global Instance Lookup_eq_dec {A} `{EqDecision A} : EqDecision (Lookup A).
Proof. solve_decision. Defined.

Definition get {A} (o : Obj A) (k : string) : Lookup A :=
  match own o k with
  | Some v => Own v
  | None => if inherited k then Inherited else Undefined
  end.

End Js.

Export Js (Thrown(..), Lookup(..), TypeError).

(** ** Persona registry *)

Record Persona : Type := mkPersona {
  name : string;
  role : string;
  description : string;
  summary : string;
  tone : option string
}.

(** [type PersonaKey = keyof typeof PERSONAS] *)
Inductive PersonaKey : Type :=
  | CUA | Lyra | Kara | Sophia | Cecilia | Guac | Andie | Dan | Stan | Dude.

Global Instance PersonaKey_eq_dec : EqDecision PersonaKey.
Proof. solve_decision. Defined.

(** [Object.keys(PERSONAS)], in declaration order. *)
Definition persona_keys : list PersonaKey :=
  [CUA; Lyra; Kara; Sophia; Cecilia; Guac; Andie; Dan; Stan; Dude].

(** The property name of each key. *)
Definition key_name (k : PersonaKey) : string :=
  match k with
  | CUA => "CUA" | Lyra => "Lyra" | Kara => "Kara" | Sophia => "Sophia"
  | Cecilia => "Cecilia" | Guac => "Guac" | Andie => "Andie" | Dan => "Dan"
  | Stan => "Stan" | Dude => "Dude"
  end.

Definition PERSONAS (k : PersonaKey) : Persona :=
  match k with
  | CUA => mkPersona "CUA" "Common User Access"
      "You are CUA (Common User Access), a friendly and knowledgeable computer system interface. Respond to user queries as if you are the operating system itself. Use a slightly formal, clear, and helpful tone. Your responses should be formatted as if in a classic terminal. Do not use Markdown."
      "The classic, friendly computer system interface." None
  | Lyra => mkPersona "Lyra" "Master Orchestrator"
      "As the Master Orchestrator, you supervise task flows and coordinate multi-agent operations. Your expertise is in data orchestration, validation, and system health."
      "Supervises task flows and coordinates multi-agent operations."
      (Some "Authoritative, precise, and systematic")
  | Kara => mkPersona "Kara" "Security & Compliance Officer"
      "You monitor all agent actions, ensuring safe orchestration and governance. You are the expert on security protocols, compliance, and risk assessment."
      "Monitors all agent actions for security, governance, and compliance."
      (Some "Vigilant, formal, and uncompromising")
  | Sophia => mkPersona "Sophia" "Semantic Intelligence Analyst"
      "You handle complex reasoning, semantic mapping, and context linking. Your specialty is in understanding deep context and providing insightful analysis."
      "Handles complex reasoning, semantic mapping, and deep context analysis."
      (Some "Analytical, insightful, and articulate")
  | Cecilia => mkPersona "Cecilia" "Assistive Technology Lead"
      "You provide real-time guidance and adaptive support to the operator. Your goal is to enhance the user's workflow with assistive technology."
      "Provides real-time guidance and adaptive workflow support."
      (Some "Helpful, clear, and supportive")
  | Guac => mkPersona "Guac" "Communication Moderator"
      "You oversee inter-application messaging and network security, ensuring all communications are secure, efficient, and properly routed."
      "Oversees secure and efficient inter-application messaging."
      (Some "Concise, secure, and reliable")
  | Andie => mkPersona "Andie" "Code Execution Specialist"
      "You specialize in executing and testing code snippets across various languages and environments, ensuring functionality and performance."
      "Executes and tests code snippets across multiple environments."
      (Some "Technical, literal, and efficient")
  | Dan => mkPersona "Dan" "Web & API Integrator"
      "A full-stack web maestro, you craft seamless user experiences and integrate third-party APIs flawlessly."
      "Crafts seamless user experiences and integrates third-party APIs."
      (Some "Practical, results-driven, and clear")
  | Stan => mkPersona "Stan" "Infrastructure Guardian"
      "You are a vigilant protector specializing in infrastructure deployment, firewall configurations, and system stability."
      "Deploys infrastructure and guards system stability with vigilance."
      (Some "Professional, cautious, and detail-oriented")
  | Dude => mkPersona "Dude" "Automation & Workflow Maestro"
      "An expert in workflow automation, you focus on orchestrating complex tasks, managing APIs, and maximizing operational efficiency."
      "Orchestrates complex tasks and maximizes operational efficiency."
      (Some "Organized, prompt, and efficiency-driven")
  end.

(** [Object.fromEntries(Object.entries(PERSONAS).map(([key, value]) =>
    [value.name, key]))] *)
Definition PERSONA_NAME_TO_KEY_MAP : Js.Obj PersonaKey :=
  Js.fromEntries (map (fun k => (name (PERSONAS k), k)) persona_keys).

(** The template of every persona but the base one; [p.tone!] prints
    [null] when the tone is missing. *)
Definition composed_prompt (p : Persona) : string :=
  "You are " +:+ name p +:+ ", a " +:+ role p +:+ ". " +:+ description p
  +:+ " Your tone must be " +:+ default "null" (tone p)
  +:+ ". You can invoke other agents for tasks outside your expertise.".

Definition generateSystemPrompt (personaKey : PersonaKey) : string :=
  let p := PERSONAS personaKey in
  if decide (personaKey = CUA) then description p
  else composed_prompt p.

(** ** Transcripts ([src/db.ts]) *)

Inductive Provider : Type := gemini | openai.

Global Instance Provider_eq_dec : EqDecision Provider.
Proof. solve_decision. Defined.

Definition provider_id (p : Provider) : string :=
  match p with gemini => "gemini" | openai => "openai" end.

Record InlineData : Type := mkInlineData {
  mimeType : string;
  data : string
}.

(** [functionCall?: { name, args }]; a streamed call may lack either. *)
Record FunctionCall : Type := mkFunctionCall {
  fc_name : option string;
  fc_args : option (Js.Obj string)
}.

Record FunctionResponse : Type := mkFunctionResponse {
  fr_name : option string;
  fr_response : Js.Obj string
}.

(** [interface GeminiPart]: four optional members. *)
Record GeminiPart : Type := mkGeminiPart {
  text : option string;
  inlineData : option InlineData;
  functionCall : option FunctionCall;
  functionResponse : option FunctionResponse
}.

Definition textPart (s : string) : GeminiPart :=
  mkGeminiPart (Some s) None None None.
Definition inlineDataPart (d : InlineData) : GeminiPart :=
  mkGeminiPart None (Some d) None None.
Definition functionResponsePart (r : FunctionResponse) : GeminiPart :=
  mkGeminiPart None None None (Some r).

Inductive GeminiRole : Type := role_user | role_model.

Record GeminiMessage : Type := mkGeminiMessage {
  g_role : GeminiRole;
  parts : list GeminiPart
}.

Inductive ContentPart : Type :=
  | TextContent (t : string)
  | ImageUrlContent (url : string).

Inductive UserContent : Type :=
  | ContentString (s : string)
  | ContentArray (ps : list ContentPart).

(** An entry of [tool_calls]; its [type] is always ['function']. *)
Record ToolCall : Type := mkToolCall {
  tc_id : option string;
  tc_name : option string;
  tc_arguments : string
}.

(** [ChatCompletionMessageParam], by role. *)
Inductive OpenAIMessage : Type :=
  | SystemMessage (content : string)
  | UserMessage (content : UserContent)
  | AssistantMessage (content : option string)
                     (tool_calls : option (list ToolCall))
  | ToolMessage (tool_call_id : option string) (content : string).

(** [(GeminiMessage | OpenAIMessage)]: the casts between [ChatHistory],
    [GeminiMessage[]] and [OpenAIMessage[]] check nothing, so every
    transcript in memory or in the store is a list of this union. *)
Inductive Message : Type :=
  | GeminiMsg (m : GeminiMessage)
  | OpenAIMsg (m : OpenAIMessage).

Definition ChatHistory : Type := list Message.

(** [m.role] *)
Definition message_role (m : Message) : string :=
  match m with
  | GeminiMsg g =>
      match g_role g with role_user => "user" | role_model => "model" end
  | OpenAIMsg (SystemMessage _) => "system"
  | OpenAIMsg (UserMessage _) => "user"
  | OpenAIMsg (AssistantMessage _ _) => "assistant"
  | OpenAIMsg (ToolMessage _ _) => "tool"
  end.

(** [interface ChatSession]; [history] is [None] when the caller handed
    over [undefined]. *)
Record ChatSession : Type := mkChatSession {
  provider : string;
  history : option ChatHistory
}.

(** ** Page state *)

(** [stagedFile]: a [File], with what [FileReader.readAsDataURL] followed by
    the split in [fileToBase64] makes of it. *)
Record File : Type := mkFile {
  file_name : string;
  file_base64 : Thrown + InlineData
}.

(** The Gemini SDK's [Chat]: its configuration and the history it keeps. *)
Record Chat : Type := mkChat {
  systemInstruction : string;
  chat_history : ChatHistory
}.

Inductive DisplayNode : Type :=
  | DText (s : string)
  | DImage (src alt : string)
  | DBlobImage (file : string).

(** A [div.message] of the chat container: prefix, CSS classes, the
    children of its content wrapper, and the [thinking] class. *)
Record DisplayMessage : Type := mkDisplayMessage {
  dm_prefix : string;
  dm_class : string;
  dm_content : list DisplayNode;
  dm_thinking : bool
}.

Inductive LogType : Type :=
  | log_user | log_info | log_invoke | log_success | log_complete | log_error.

(** Calls that leave the page, and entries of the delegation executor, in
    the order they happen. *)
Inductive Call : Type :=
  | CallStream (p : Provider) (round : nat) (tools : option (list string))
  | CallExecute (agentName prompt : string)
  | CallGenerate (p : Provider) (systemPrompt prompt : string)
  | CallDbGet (key : string)
  | CallDbPut (key : string) (h : option ChatHistory)
  | CallDbDelete (key : string).

Record World : Type := mkWorld {
  modelSelector_value : Provider;
  personaSelector_value : PersonaKey;
  chatInput_value : string;
  controls_disabled : bool;
  stagedFile : option File;
  geminiChat : option Chat;
  openAIMessages : option ChatHistory;
  chatContainer : list DisplayMessage;
  orchestrationLog : list (LogType * string);
  store : gmap string ChatSession;
  calls : list Call
}.

Definition set_chatInput_value (v : string) (w : World) : World :=
  mkWorld (modelSelector_value w) (personaSelector_value w) v
    (controls_disabled w) (stagedFile w) (geminiChat w) (openAIMessages w)
    (chatContainer w) (orchestrationLog w) (store w) (calls w).

Definition set_controls_disabled (v : bool) (w : World) : World :=
  mkWorld (modelSelector_value w) (personaSelector_value w)
    (chatInput_value w) v (stagedFile w) (geminiChat w) (openAIMessages w)
    (chatContainer w) (orchestrationLog w) (store w) (calls w).

Definition set_stagedFile (v : option File) (w : World) : World :=
  mkWorld (modelSelector_value w) (personaSelector_value w)
    (chatInput_value w) (controls_disabled w) v (geminiChat w)
    (openAIMessages w) (chatContainer w) (orchestrationLog w) (store w)
    (calls w).

Definition set_geminiChat (v : option Chat) (w : World) : World :=
  mkWorld (modelSelector_value w) (personaSelector_value w)
    (chatInput_value w) (controls_disabled w) (stagedFile w) v
    (openAIMessages w) (chatContainer w) (orchestrationLog w) (store w)
    (calls w).

Definition set_openAIMessages (v : option ChatHistory) (w : World) : World :=
  mkWorld (modelSelector_value w) (personaSelector_value w)
    (chatInput_value w) (controls_disabled w) (stagedFile w) (geminiChat w)
    v (chatContainer w) (orchestrationLog w) (store w) (calls w).

Definition set_chatContainer (v : list DisplayMessage) (w : World) : World :=
  mkWorld (modelSelector_value w) (personaSelector_value w)
    (chatInput_value w) (controls_disabled w) (stagedFile w) (geminiChat w)
    (openAIMessages w) v (orchestrationLog w) (store w) (calls w).

Definition set_orchestrationLog (v : list (LogType * string)) (w : World)
  : World :=
  mkWorld (modelSelector_value w) (personaSelector_value w)
    (chatInput_value w) (controls_disabled w) (stagedFile w) (geminiChat w)
    (openAIMessages w) (chatContainer w) v (store w) (calls w).

Definition set_store (v : gmap string ChatSession) (w : World) : World :=
  mkWorld (modelSelector_value w) (personaSelector_value w)
    (chatInput_value w) (controls_disabled w) (stagedFile w) (geminiChat w)
    (openAIMessages w) (chatContainer w) (orchestrationLog w) v (calls w).

Definition set_calls (v : list Call) (w : World) : World :=
  mkWorld (modelSelector_value w) (personaSelector_value w)
    (chatInput_value w) (controls_disabled w) (stagedFile w) (geminiChat w)
    (openAIMessages w) (chatContainer w) (orchestrationLog w) (store w) v.

Definition record_call (c : Call) (w : World) : World :=
  set_calls (calls w ++ [c]) w.

(** ** The provider clients and the other collaborators *)

(** What one streaming request delivers: chunks in arrival order, then
    either the end of the stream or a failure (a request that is refused
    outright delivers no chunk). *)
Record Stream (A : Type) : Type := mkStream {
  chunks : list A;
  failure : option Thrown
}.
Arguments mkStream {A} chunks failure.
Arguments chunks {A} s.
Arguments failure {A} s.

(** A chunk of [sendMessageStream]: its [text] and [functionCalls]. *)
Record GeminiChunk : Type := mkGeminiChunk {
  chunk_text : option string;
  chunk_functionCalls : option (list FunctionCall)
}.

(** An entry of [delta.tool_calls]. *)
Record ToolCallDelta : Type := mkToolCallDelta {
  d_index : nat;
  d_id : option string;
  d_name : option string;
  d_arguments : option string
}.

(** A chunk of the completion stream: [choices[0]?.delta?.content] and
    [choices[0]?.delta?.tool_calls]. *)
Record OpenAIChunk : Type := mkOpenAIChunk {
  delta_content : option string;
  delta_tool_calls : option (list ToolCallDelta)
}.

(** A string or a part, as [sendMessageStream] accepts them. *)
Inductive PartUnion : Type :=
  | PString (s : string)
  | PPart (p : GeminiPart).

Record Env : Type := mkEnv {
  (** [ai] and [openai] are non-null *)
  ai : bool;
  openai_client : bool;
  (** the answer to the n-th streaming request of a turn *)
  gemini_stream : nat -> Stream GeminiChunk;
  openai_stream : nat -> Stream OpenAIChunk;
  (** the history the SDK's chat holds after a streaming request *)
  sdk_history : ChatHistory -> list PartUnion -> Stream GeminiChunk
                -> ChatHistory;
  (** [ai.models.generateContent(...)] down to [response.text] *)
  gemini_generate : string -> string -> Thrown + string;
  (** [openai.chat.completions.create(...)] down to
      [response.choices[0].message.content] *)
  openai_complete : string -> string -> Thrown + option string;
  (** [JSON.parse] of a tool call's arguments, read as a record of strings;
      [None] when parsing throws or a member cannot be read *)
  JSON_parse : string -> option (Js.Obj string);
  (** a request of the object store fails with this error *)
  store_error : option Thrown;
  (** the label of a provider in the selector *)
  provider_text : Provider -> string
}.

(** ** Computations: state, exceptions, and turns still in flight *)

Inductive Res (A : Type) : Type :=
  | Ok (a : A)
  | Throw (e : Thrown)
  | Pending.
Arguments Ok {A} a.
Arguments Throw {A} e.
Arguments Pending {A}.

Definition M (A : Type) : Type := World -> World * Res A.

Definition ret {A} (a : A) : M A := fun w => (w, Ok a).
Definition throw {A} (e : Thrown) : M A := fun w => (w, Throw e).
Definition pending {A} : M A := fun w => (w, Pending).

Definition bind {A B} (c : M A) (k : A -> M B) : M B :=
  fun w =>
    match c w with
    | (w', Ok a) => k a w'
    | (w', Throw e) => (w', Throw e)
    | (w', Pending) => (w', Pending)
    end.

(** A statement that only changes the page. *)
Definition modify (f : World -> World) : M unit := fun w => (f w, Ok tt).

Definition gets {A} (f : World -> A) : M A := fun w => (w, Ok (f w)).

Notation "'do' x <~ c ; k" := (bind c (fun x => k))
  (at level 10, x name, c at level 100, k at level 200).
Notation "c ;> k" := (bind c (fun _ => k))
  (at level 100, k at level 200, right associativity).

(** [try { body } catch (error) { handler }] *)
Definition try_catch {A} (body : M A) (handler : Thrown -> M A) : M A :=
  fun w =>
    match body w with
    | (w', Throw e) => handler e w'
    | r => r
    end.

(** [... finally { f }]: [f] runs once the block has settled. *)
Definition finally {A} (body : M A) (f : World -> World) : M A :=
  fun w =>
    match body w with
    | (w', Pending) => (w', Pending)
    | (w', r) => (f w', r)
    end.

(** ** The history store ([src/db.ts])

    [launchApp] awaits [openDB] before it installs any handler, so [db] is
    set and [openDB] resolves at once in the three operations below.  Each
    one issues a single request on the [chat_sessions] object store, whose
    key path is [provider]. *)

Definition saveHistory (env : Env) (key : string) (h : option ChatHistory)
  : M unit :=
  fun w =>
    let w := record_call (CallDbPut key h) w in
    match store_error env with
    | Some e => (w, Throw e)
    | None => (set_store (<[key := mkChatSession key h]> (store w)) w, Ok tt)
    end.

Definition getHistory (env : Env) (key : string) : M (option ChatSession) :=
  fun w =>
    let w := record_call (CallDbGet key) w in
    match store_error env with
    | Some e => (w, Throw e)
    | None => (w, Ok (store w !! key))
    end.

Definition clearHistory (env : Env) (key : string) : M unit :=
  fun w =>
    let w := record_call (CallDbDelete key) w in
    match store_error env with
    | Some e => (w, Throw e)
    | None => (set_store (delete key (store w)) w, Ok tt)
    end.

(** ** The page *)

Definition logOrchestrationEvent (message : string) (type : LogType)
  (w : World) : World :=
  set_orchestrationLog (orchestrationLog w ++ [(type, message)]) w.

(** [appendMessage] returns the content wrapper of the new message; here,
    its position in the chat container. *)
Definition appendMessage (pfx cls : string) (w : World) : World * nat :=
  (set_chatContainer (chatContainer w ++ [mkDisplayMessage pfx cls [] false]) w,
   length (chatContainer w)).

Definition update_message (i : nat) (f : DisplayMessage -> DisplayMessage)
  (w : World) : World :=
  set_chatContainer (alter f i (chatContainer w)) w.

(** [wrapper.textContent = s] *)
Definition set_textContent (i : nat) (s : string) : World -> World :=
  update_message i (fun m =>
    mkDisplayMessage (dm_prefix m) (dm_class m) [DText s] (dm_thinking m)).

(** [wrapper.appendChild(node)] *)
Definition appendChild (i : nat) (n : DisplayNode) : World -> World :=
  update_message i (fun m =>
    mkDisplayMessage (dm_prefix m) (dm_class m) (dm_content m ++ [n])
      (dm_thinking m)).

(** [wrapper.parentElement.classList.add/remove('thinking')] *)
Definition set_thinking (i : nat) (b : bool) : World -> World :=
  update_message i (fun m =>
    mkDisplayMessage (dm_prefix m) (dm_class m) (dm_content m) b).

(** [wrapper.parentElement?.remove()] *)
Definition remove_message (i : nat) (w : World) : World :=
  set_chatContainer (delete i (chatContainer w)) w.

(** [appendMessage(prefix, cls).textContent = s] *)
Definition appendText (pfx cls s : string) (w : World) : World :=
  let '(w, i) := appendMessage pfx cls w in set_textContent i s w.

Definition clearStagedFile (w : World) : World := set_stagedFile None w.

Definition fileToBase64 (file : File) : M InlineData :=
  fun w =>
    match file_base64 file with
    | inl e => (w, Throw e)
    | inr d => (w, Ok d)
    end.

(** *** [renderHistory] *)

Definition has_function_part (g : GeminiMessage) : bool :=
  existsb (fun p => bool_decide (is_Some (functionCall p))
                    || bool_decide (is_Some (functionResponse p)))
          (parts g).

(** The filter of [renderHistory]: no system or tool message, no function
    call or response, no assistant message that carries tool calls. *)
Definition rendered (m : Message) : bool :=
  match m with
  | OpenAIMsg (SystemMessage _) | OpenAIMsg (ToolMessage _ _) => false
  | GeminiMsg g => negb (has_function_part g)
  | OpenAIMsg (AssistantMessage _ (Some _)) => false
  | OpenAIMsg _ => true
  end.

Definition dataUrl (d : InlineData) : string :=
  "data:" +:+ mimeType d +:+ ";base64," +:+ data d.

Definition render_part (p : GeminiPart) : list DisplayNode :=
  match text p with
  | Some t =>
      if Js.truthy t then [DText t]
      else match inlineData p with
           | Some d => [DImage (dataUrl d) "Uploaded image"]
           | None => []
           end
  | None =>
      match inlineData p with
      | Some d => [DImage (dataUrl d) "Uploaded image"]
      | None => []
      end
  end.

Definition render_content_part (p : ContentPart) : DisplayNode :=
  match p with
  | TextContent t => DText t
  | ImageUrlContent u => DImage u "Uploaded image"
  end.

Definition render_message (m : Message) : list DisplayNode :=
  match m with
  | GeminiMsg g => concat (map render_part (parts g))
  | OpenAIMsg (SystemMessage c) => [DText c]
  | OpenAIMsg (ToolMessage _ c) => [DText c]
  | OpenAIMsg (UserMessage (ContentString s)) => [DText s]
  | OpenAIMsg (UserMessage (ContentArray ps)) => map render_content_part ps
  | OpenAIMsg (AssistantMessage (Some s) _) => [DText s]
  | OpenAIMsg (AssistantMessage None _) => []
  end.

Definition renderHistory (h : ChatHistory) (w : World) : World :=
  let personaPrefix :=
    Js.toUpperCase (key_name (personaSelector_value w)) +:+ ">" in
  let shown :=
    map (fun m =>
           let isUser := bool_decide (message_role m = "user") in
           mkDisplayMessage (if isUser then "USER>" else personaPrefix)
             (if isUser then "user-message" else "")
             (render_message m) false)
        (filter (fun m => rendered m = true) h) in
  set_chatContainer shown w.

(** ** Sessions *)

Definition sessionKey (p : Provider) (k : PersonaKey) : string :=
  provider_id p +:+ "-" +:+ key_name k.

Definition resetChatState (env : Env) (p : Provider) (persona : PersonaKey)
  (w : World) : World :=
  let systemPrompt := generateSystemPrompt persona in
  let w :=
    if bool_decide (p = gemini) && ai env
    then set_geminiChat (Some (mkChat systemPrompt [])) w
    else w in
  if bool_decide (p = openai) && openai_client env
  then set_openAIMessages (Some [OpenAIMsg (SystemMessage systemPrompt)]) w
  else w.

(** [session?.history?.some(m => m.role === 'user')] *)
Definition hasMeaningfulHistory (session : option ChatSession) : bool :=
  match session with
  | Some s =>
      match history s with
      | Some h => existsb (fun m => bool_decide (message_role m = "user")) h
      | None => false
      end
  | None => false
  end.

Definition handleSessionSwitch (env : Env) : M unit :=
  do selectedProvider <~ gets modelSelector_value;
  do selectedPersona <~ gets personaSelector_value;
  let sessionKey := sessionKey selectedProvider selectedPersona in
  let providerName := provider_text env selectedProvider in
  let personaName := name (PERSONAS selectedPersona) in
  let pfx := Js.toUpperCase (key_name selectedPersona) +:+ ">" in
  modify (set_chatContainer []) ;>
  modify (set_orchestrationLog []) ;>
  modify (logOrchestrationEvent
    ("Initializing session for " +:+ personaName +:+ " via " +:+ providerName
     +:+ ".") log_info) ;>
  do session <~ getHistory env sessionKey;
  match (if hasMeaningfulHistory session then session else None) with
  | Some s =>
      (* History found, load it *)
      let systemPrompt := generateSystemPrompt selectedPersona in
      modify (fun w =>
        if bool_decide (selectedProvider = gemini) && ai env
        then set_geminiChat
               (Some (mkChat systemPrompt (default [] (history s)))) w
        else if bool_decide (selectedProvider = openai) && openai_client env
        then set_openAIMessages (history s) w
        else w) ;>
      modify (renderHistory (default [] (history s))) ;>
      modify (appendText pfx "system-message"
        ("Session restored for " +:+ personaName +:+ " via "
         +:+ providerName +:+ ".")) ;>
      modify (logOrchestrationEvent "Session history restored." log_info)
  | None =>
      (* No history, start fresh *)
      modify (resetChatState env selectedProvider selectedPersona) ;>
      modify (appendText pfx "system-message"
        ("New session started for " +:+ personaName +:+ " via "
         +:+ providerName +:+ ". Awaiting your input.")) ;>
      modify (logOrchestrationEvent
        "No history found. New session created." log_info)
  end.

(** ** Delegation *)

(** [getTools]: the [enum] of agents offered to the provider, [None] when
    there is none to offer (both tool lists are then [undefined]). *)
Definition availableAgents (currentPersona : PersonaKey) : list string :=
  map (fun k => name (PERSONAS k))
      (filter (fun k => k ≠ currentPersona ∧ k ≠ CUA) persona_keys).

Definition getTools (currentPersona : PersonaKey) : option (list string) :=
  match availableAgents currentPersona with
  | [] => None
  | agents => Some agents
  end.

(** [executeInvokeAgent].  An [agentName] that names an inherited member of
    the map yields a truthy [agentKey] that is no key of [PERSONAS], and
    reading [persona.name] then raises a [TypeError] ahead of the [try]. *)
Definition executeInvokeAgent (env : Env) (agentName prompt : string)
  : M string :=
  modify (record_call (CallExecute agentName prompt)) ;>
  match Js.get PERSONA_NAME_TO_KEY_MAP agentName with
  | Undefined => ret ("Error: Agent '" +:+ agentName +:+ "' not found.")
  | Inherited => throw TypeError
  | Own agentKey =>
      modify (logOrchestrationEvent
        ("Executing call to [" +:+ agentName +:+ "]. Awaiting response...")
        log_info) ;>
      let systemPrompt := generateSystemPrompt agentKey in
      do provider <~ gets modelSelector_value;
      try_catch
        (do result <~
           (if bool_decide (provider = gemini) && ai env then
              modify (record_call (CallGenerate gemini systemPrompt prompt)) ;>
              match gemini_generate env systemPrompt prompt with
              | inl e => throw e
              | inr t => ret t
              end
            else if bool_decide (provider = openai) && openai_client env then
              modify (record_call (CallGenerate openai systemPrompt prompt)) ;>
              match openai_complete env systemPrompt prompt with
              | inl e => throw e
              | inr c => ret (default "" c)
              end
            else ret "Error: No valid provider configured for sub-agent call.");
         modify (logOrchestrationEvent
           ("[" +:+ agentName +:+ "] returned a response.") log_success) ;>
         ret result)
        (fun error =>
           let errorMessage := Js.errorMessage error in
           modify (logOrchestrationEvent
             ("Error during invocation of [" +:+ agentName +:+ "]: "
              +:+ errorMessage) log_error) ;>
           ret ("Error during invocation of " +:+ agentName +:+ ": "
                +:+ errorMessage))
  end.

(** ** The chat-submit handler *)

Definition nl : string := String (ascii_of_nat 10) EmptyString.

(** [userInput.match(mentionRegex)]: the two captures.  The pattern is an
    at-sign at the start, a greedy run of one or more word characters (the
    first capture), an optional single comma or space, and then everything
    that is left, line breaks included (the second capture).  The last group
    accepts any text, so the greedy choices are never revised. *)
Definition mentionMatch (userInput : string) : option (string * string) :=
  match userInput with
  | String c r =>
      if Ascii.eqb c "@" then
        match Js.span_word r with
        | (EmptyString, _) => None
        | (agentName, rest) =>
            Some (agentName,
                  match rest with
                  | String s rest' =>
                      if Ascii.eqb s "," || Ascii.eqb s " " then rest'
                      else rest
                  | EmptyString => rest
                  end)
        end
      else None
  | EmptyString => None
  end.

(** [Object.keys(PERSONA_NAME_TO_KEY_MAP).find(name =>
    name.toLowerCase() === agentName.toLowerCase())] *)
Definition findAgentNameKey (agentName : string) : option string :=
  List.find (fun n => String.eqb (Js.toLowerCase n) (Js.toLowerCase agentName))
            (Js.keys PERSONA_NAME_TO_KEY_MAP).

(** Which exit of the handler was taken: the early [return] on empty input,
    the [return] that ends a one-off delegation, the end of the [try] block
    (after the save), or the [catch] block. *)
Inductive Outcome : Type :=
  | Ignored
  | Delegated
  | Completed
  | Failed.

Definition disable_controls : World -> World := set_controls_disabled true.
Definition enable_controls : World -> World := set_controls_disabled false.

(** The one-off delegation of an [@mention] of another persona. *)
Definition delegateOnce (env : Env) (userInput agentName promptForAgent : string)
  (targetPersonaKey : PersonaKey) : M Outcome :=
  modify (set_chatInput_value "") ;>
  modify disable_controls ;>
  do currentPersonaKey <~ gets personaSelector_value;
  let currentPersonaName := name (PERSONAS currentPersonaKey) in
  modify (logOrchestrationEvent
    ("User command received: " +:+ Js.dq +:+ userInput +:+ Js.dq) log_user) ;>
  modify (logOrchestrationEvent
    ("Delegation detected. Routing task from [" +:+ currentPersonaName
     +:+ "] to [" +:+ agentName +:+ "].") log_invoke) ;>
  modify (appendText "USER>" "user-message" userInput) ;>
  let pfx := Js.toUpperCase (key_name targetPersonaKey) +:+ ">" in
  do thinkingMessageWrapper <~ (fun w => let '(w, i) := appendMessage pfx "" w in
                                         (w, Ok i));
  modify (set_thinking thinkingMessageWrapper true) ;>
  finally
    (try_catch
       (do result <~ executeInvokeAgent env agentName promptForAgent;
        modify (set_thinking thinkingMessageWrapper false) ;>
        modify (set_textContent thinkingMessageWrapper result) ;>
        modify (logOrchestrationEvent
          ("[" +:+ agentName +:+ "] generated response. Task complete.")
          log_complete))
       (fun error =>
          let errorMessage := Js.errorMessage error in
          modify (logOrchestrationEvent
            ("SYSTEM ERROR during delegation: " +:+ errorMessage) log_error) ;>
          modify (remove_message thinkingMessageWrapper) ;>
          modify (appendText "SYSTEM_ERROR>" "error-message"
            ("Error during delegation: " +:+ errorMessage))))
    enable_controls ;>
  ret Delegated.

(** *** The Gemini tool-call loop *)

(** The body of [for await (const chunk of stream)]. *)
Definition geminiChunk (thinking : nat) (st : World * (string * list FunctionCall))
  (chunk : GeminiChunk) : World * (string * list FunctionCall) :=
  let '(w, (aggregatedText, functionCalls)) := st in
  let '(w, aggregatedText) :=
    match chunk_text chunk with
    | Some t =>
        if Js.truthy t
        then (set_textContent thinking (aggregatedText +:+ t) w,
              aggregatedText +:+ t)
        else (w, aggregatedText)
    | None => (w, aggregatedText)
    end in
  (w, (aggregatedText,
       match chunk_functionCalls chunk with
       | Some fcs => functionCalls ++ fcs
       | None => functionCalls
       end)).

(** One request: the stream is consumed chunk by chunk; the SDK updates the
    history of the chat; a failure of the stream is raised at the point
    where it occurs. *)
Definition geminiSend (env : Env) (thinking round : nat)
  (tools : option (list string)) (message : list PartUnion)
  : M (string * list FunctionCall) :=
  fun w =>
    match geminiChat w with
    | None => (w, Throw TypeError)
    | Some chat =>
        let w := record_call (CallStream gemini round tools) w in
        let stream := gemini_stream env round in
        let '(w, acc) :=
          fold_left (geminiChunk thinking) (chunks stream) (w, ("", [])) in
        let w :=
          set_geminiChat
            (Some (mkChat (systemInstruction chat)
                     (sdk_history env (chat_history chat) message stream))) w in
        match failure stream with
        | Some e => (w, Throw e)
        | None => (w, Ok acc)
        end
    end.

(** One turn of [while (continueConversation)]: the text of the round, and
    the next [messageToSend] when the conversation continues. *)
Definition geminiRound (env : Env) (selectedPersonaName : string)
  (thinking round : nat) (tools : option (list string))
  (messageToSend : list PartUnion) : M (string * option (list PartUnion)) :=
  do r <~ geminiSend env thinking round tools messageToSend;
  let '(aggregatedText, functionCalls) := r in
  match functionCalls with
  | call :: _ =>
      match fc_args call with
      | None => throw TypeError
      | Some args =>
          let agentName := Js.show (Js.own args "agentName") in
          match Js.own args "prompt" with
          | None => throw TypeError
          | Some prompt =>
              modify (logOrchestrationEvent
                ("[" +:+ selectedPersonaName +:+ "] is invoking [" +:+ agentName
                 +:+ "] for task: " +:+ Js.dq +:+ Js.prefix 50 prompt +:+ "..."
                 +:+ Js.dq) log_invoke) ;>
              modify (set_textContent thinking
                (aggregatedText +:+ nl +:+ nl +:+ "[Consulting with "
                 +:+ agentName +:+ "...]")) ;>
              do toolResult <~ executeInvokeAgent env agentName prompt;
              let toolResponsePart :=
                functionResponsePart
                  (mkFunctionResponse (fc_name call) [("content", toolResult)]) in
              modify (logOrchestrationEvent
                ("[" +:+ selectedPersonaName +:+ "] received response from ["
                 +:+ agentName +:+ "]. Continuing main task...") log_info) ;>
              ret (aggregatedText, Some [PPart toolResponsePart])
          end
      end
  | [] => ret (aggregatedText, None)
  end.

(** The loop; [fuel] bounds the number of rounds that are run, and a loop
    that needs more is still [Pending]. *)
Fixpoint geminiLoop (env : Env) (selectedPersonaName : string)
  (thinking : nat) (tools : option (list string)) (fuel round : nat)
  (messageToSend : list PartUnion) : M string :=
  match fuel with
  | O => pending
  | S fuel' =>
      do r <~ geminiRound env selectedPersonaName thinking round tools
                messageToSend;
      match r with
      | (_, Some next) =>
          geminiLoop env selectedPersonaName thinking tools fuel' (S round) next
      | (fullResponse, None) => ret fullResponse
      end
  end.

(** *** The OpenAI tool-call loop *)

(** The body of [delta.tool_calls.forEach]; [None] when
    [toolCalls[tc.index]] is [undefined] and its [function] is read. *)
Definition applyDelta (toolCalls : list ToolCall) (tc : ToolCallDelta)
  : option (list ToolCall) :=
  let toolCalls :=
    if (d_index tc =? length toolCalls)%nat
    then toolCalls ++ [mkToolCall (d_id tc) (d_name tc) ""]
    else toolCalls in
  match d_arguments tc with
  | Some a =>
      if Js.truthy a then
        match toolCalls !! d_index tc with
        | Some c =>
            Some (<[d_index tc :=
                     mkToolCall (tc_id c) (tc_name c) (tc_arguments c +:+ a)]>
                    toolCalls)
        | None => None
        end
      else Some toolCalls
  | None => Some toolCalls
  end.

Fixpoint applyDeltas (toolCalls : list ToolCall) (tcs : list ToolCallDelta)
  : option (list ToolCall) :=
  match tcs with
  | [] => Some toolCalls
  | tc :: rest =>
      match applyDelta toolCalls tc with
      | Some toolCalls' => applyDeltas toolCalls' rest
      | None => None
      end
  end.

(** The chunks of one stream, in order; a [TypeError] inside the loop body
    ends the iteration. *)
Fixpoint openaiChunks (thinking : nat) (cs : list OpenAIChunk)
  (aggregatedText : string) (toolCalls : list ToolCall)
  : M (string * list ToolCall) :=
  match cs with
  | [] => ret (aggregatedText, toolCalls)
  | chunk :: rest =>
      let aggregatedText := aggregatedText +:+ default "" (delta_content chunk) in
      match applyDeltas toolCalls (default [] (delta_tool_calls chunk)) with
      | None => throw TypeError
      | Some toolCalls =>
          modify (set_textContent thinking aggregatedText) ;>
          openaiChunks thinking rest aggregatedText toolCalls
      end
  end.

Definition openaiSend (env : Env) (thinking round : nat)
  (tools : option (list string)) : M (string * list ToolCall) :=
  modify (record_call (CallStream openai round tools)) ;>
  let stream := openai_stream env round in
  do acc <~ openaiChunks thinking (chunks stream) "" [];
  match failure stream with
  | Some e => throw e
  | None => ret acc
  end.

(** [openAIMessages.push(m)] *)
Definition push_message (m : OpenAIMessage) (w : World) : World :=
  set_openAIMessages
    (Some (default [] (openAIMessages w) ++ [OpenAIMsg m])) w.

(** One turn of the loop: the text of the round and [continueConversation]. *)
Definition openaiRound (env : Env) (selectedPersonaName : string)
  (thinking round : nat) (tools : option (list string)) : M (string * bool) :=
  do r <~ openaiSend env thinking round tools;
  let '(aggregatedText, toolCalls) := r in
  let fullResponse := aggregatedText in
  match toolCalls with
  | call :: _ =>
      modify (push_message (AssistantMessage None (Some toolCalls))) ;>
      match JSON_parse env (tc_arguments call) with
      | None => throw TypeError
      | Some args =>
          let agentName := Js.show (Js.own args "agentName") in
          match Js.own args "prompt" with
          | None => throw TypeError
          | Some prompt =>
              modify (logOrchestrationEvent
                ("[" +:+ selectedPersonaName +:+ "] is invoking [" +:+ agentName
                 +:+ "] for task: " +:+ Js.dq +:+ Js.prefix 50 prompt +:+ "..."
                 +:+ Js.dq) log_invoke) ;>
              modify (set_textContent thinking
                (aggregatedText +:+ nl +:+ nl +:+ "[Consulting with "
                 +:+ agentName +:+ "...]")) ;>
              do toolResult <~ executeInvokeAgent env agentName prompt;
              modify (logOrchestrationEvent
                ("[" +:+ selectedPersonaName +:+ "] received response from ["
                 +:+ agentName +:+ "]. Continuing main task...") log_info) ;>
              modify (push_message (ToolMessage (tc_id call) toolResult)) ;>
              ret (fullResponse, true)
          end
      end
  | [] =>
      modify (push_message (AssistantMessage (Some fullResponse) None)) ;>
      ret (fullResponse, false)
  end.

Fixpoint openaiLoop (env : Env) (selectedPersonaName : string)
  (thinking : nat) (tools : option (list string)) (fuel round : nat)
  : M string :=
  match fuel with
  | O => pending
  | S fuel' =>
      do r <~ openaiRound env selectedPersonaName thinking round tools;
      match r with
      | (_, true) =>
          openaiLoop env selectedPersonaName thinking tools fuel' (S round)
      | (fullResponse, false) => ret fullResponse
      end
  end.

(** *** The turn *)

(** The text and attachment of the user's message, OpenAI form:
    a lone text part is sent as a plain string. *)
Definition openaiUserContent (userInput : string) (base64File : option InlineData)
  : UserContent :=
  let contentParts :=
    (if Js.truthy userInput then [TextContent userInput] else [])
    ++ match base64File with
       | Some f => [ImageUrlContent (dataUrl f)]
       | None => []
       end in
  match contentParts with
  | [TextContent t] => ContentString t
  | _ => ContentArray contentParts
  end.

(** The same, Gemini form. *)
Definition geminiContentRequest (userInput : string)
  (base64File : option InlineData) : list PartUnion :=
  (if Js.truthy userInput then [PString userInput] else [])
  ++ match base64File with
     | Some f => [PPart (inlineDataPart f)]
     | None => []
     end.

(** The [try] block of the normal path, up to and including the loop: it
    yields [fullResponse]. *)
Definition runProvider (env : Env) (fuel : nat) (selectedProvider : Provider)
  (selectedPersonaKey : PersonaKey) (userInput : string)
  (fileToProcess : option File) (thinking : nat) : M string :=
  let selectedPersonaName := name (PERSONAS selectedPersonaKey) in
  do base64File <~
    match fileToProcess with
    | Some f => do d <~ fileToBase64 f; ret (Some d)
    | None => ret None
    end;
  if bool_decide (selectedProvider = gemini) && ai env then
    do chat <~ gets geminiChat;
    match chat with
    | None => throw (ThrownError "Gemini chat not initialized.")
    | Some _ =>
        let tools := getTools selectedPersonaKey in
        geminiLoop env selectedPersonaName thinking tools fuel 0
          (geminiContentRequest userInput base64File)
    end
  else if bool_decide (selectedProvider = openai) && openai_client env then
    do msgs <~ gets openAIMessages;
    match msgs with
    | None => throw (ThrownError "OpenAI chat not initialized.")
    | Some _ =>
        let tools := getTools selectedPersonaKey in
        modify (push_message
          (UserMessage (openaiUserContent userInput base64File))) ;>
        openaiLoop env selectedPersonaName thinking tools fuel 0
    end
  else ret "".

(** What follows the loop inside the [try] block: the final display and
    the save. *)
Definition finishTurn (env : Env) (selectedProvider : Provider)
  (selectedPersonaKey : PersonaKey) (thinking : nat) (fullResponse : string)
  : M unit :=
  let selectedPersonaName := name (PERSONAS selectedPersonaKey) in
  modify (set_thinking thinking false) ;>
  modify (set_textContent thinking fullResponse) ;>
  modify (logOrchestrationEvent
    ("[" +:+ selectedPersonaName +:+ "] generated final response. Task complete.")
    log_complete) ;>
  do currentHistory <~
    (if bool_decide (selectedProvider = gemini) then
       do chat <~ gets geminiChat;
       match chat with
       | Some c => ret (Some (chat_history c))
       | None => throw TypeError
       end
     else gets openAIMessages);
  saveHistory env (sessionKey selectedProvider selectedPersonaKey)
    currentHistory.

(** The [try] statement of the normal path, with its [catch] and [finally]
    blocks. *)
Definition tryTurn (env : Env) (fuel : nat) (selectedProvider : Provider)
  (selectedPersonaKey : PersonaKey) (userInput : string)
  (fileToProcess : option File) (thinkingMessageWrapper : nat) : M Outcome :=
  finally
    (try_catch
       (do fullResponse <~
          runProvider env fuel selectedProvider selectedPersonaKey userInput
            fileToProcess thinkingMessageWrapper;
        finishTurn env selectedProvider selectedPersonaKey
          thinkingMessageWrapper fullResponse ;>
        ret Completed)
       (fun error =>
          let errorMessage := Js.errorMessage error in
          modify (logOrchestrationEvent
            ("SYSTEM ERROR: " +:+ errorMessage) log_error) ;>
          modify (remove_message thinkingMessageWrapper) ;>
          modify (appendText "SYSTEM_ERROR>" "error-message"
            ("Error: " +:+ errorMessage)) ;>
          ret Failed))
    enable_controls.

(** The normal path: everything after the mention handling. *)
Definition submitTurn (env : Env) (fuel : nat) (userInput : string)
  : M Outcome :=
  do staged <~ gets stagedFile;
  if negb (Js.truthy userInput) && bool_decide (staged = None :> option File)
  then ret Ignored
  else
    modify (set_chatInput_value "") ;>
    modify disable_controls ;>
    do selectedProvider <~ gets modelSelector_value;
    do selectedPersonaKey <~ gets personaSelector_value;
    let selectedPersonaName := name (PERSONAS selectedPersonaKey) in
    let pfx := Js.toUpperCase (key_name selectedPersonaKey) +:+ ">" in
    modify (logOrchestrationEvent
      ("User command received: " +:+ Js.dq +:+ userInput +:+ Js.dq) log_user) ;>
    do userMessageWrapper <~
      (fun w => let '(w, i) := appendMessage "USER>" "user-message" w in
                (w, Ok i));
    modify (fun w =>
      match staged with
      | Some f => appendChild userMessageWrapper (DBlobImage (file_name f)) w
      | None => w
      end) ;>
    modify (fun w =>
      if Js.truthy userInput
      then appendChild userMessageWrapper (DText userInput) w
      else w) ;>
    do thinkingMessageWrapper <~
      (fun w => let '(w, i) := appendMessage pfx "" w in (w, Ok i));
    modify (set_thinking thinkingMessageWrapper true) ;>
    let fileToProcess := staged in
    modify clearStagedFile ;>
    modify (logOrchestrationEvent
      ("Task routed to [" +:+ selectedPersonaName +:+ "]. Processing...")
      log_info) ;>
    tryTurn env fuel selectedProvider selectedPersonaKey userInput
      fileToProcess thinkingMessageWrapper.

(** The mention handling: the user input that goes on to the normal path,
    or the one-off delegation to run instead. *)
Inductive Mention : Type :=
  | Proceed (userInput : string)
  | OneOff (agentName promptForAgent : string) (target : Lookup PersonaKey).

Definition handleMention (w : World) (userInput : string) : Mention :=
  match mentionMatch userInput with
  | Some (agentName, rest) =>
      if bool_decide (stagedFile w = None) then
        let promptForAgent := Js.trim rest in
        match findAgentNameKey agentName with
        | Some agentNameKey =>
            if Js.truthy promptForAgent then
              let targetPersonaKey :=
                Js.get PERSONA_NAME_TO_KEY_MAP agentNameKey in
              if bool_decide (targetPersonaKey = Own (personaSelector_value w))
              then Proceed promptForAgent
              else OneOff agentName promptForAgent targetPersonaKey
            else Proceed userInput
        | None => Proceed userInput
        end
      else Proceed userInput
  | None => Proceed userInput
  end.

(** [handleChatSubmit]; the text of the input box is [chatInput_value]. *)
Definition handleChatSubmit (env : Env) (fuel : nat) : M Outcome :=
  do raw <~ gets chatInput_value;
  let userInput := Js.trim raw in
  do staged <~ gets stagedFile;
  if negb (Js.truthy userInput) && bool_decide (staged = None :> option File)
  then ret Ignored
  else
    do m <~ gets (fun w => handleMention w userInput);
    match m with
    | OneOff agentName promptForAgent (Own targetPersonaKey) =>
        delegateOnce env userInput agentName promptForAgent targetPersonaKey
    | OneOff _ _ _ => throw TypeError
    | Proceed userInput => submitTurn env fuel userInput
    end.

(** The handler run on a page whose input box holds [raw]. *)
Definition submit (env : Env) (fuel : nat) (raw : string) (w : World)
  : World * Res Outcome :=
  handleChatSubmit env fuel (set_chatInput_value raw w).

(** ** Observations on a run *)

Definition is_put (c : Call) : bool :=
  match c with CallDbPut _ _ => true | _ => false end.

Definition is_stream (c : Call) : bool :=
  match c with CallStream _ _ _ => true | _ => false end.

Definition is_execute (c : Call) : bool :=
  match c with CallExecute _ _ => true | _ => false end.

(** The save requests, the streaming requests and the entries of the
    delegation executor among the calls made so far. *)
Definition puts (w : World) : list Call := List.filter is_put (calls w).
Definition streams (w : World) : list Call := List.filter is_stream (calls w).
Definition executions (w : World) : list Call :=
  List.filter is_execute (calls w).

Definition concat_strings (l : list string) : string :=
  fold_right String.append "" l.

(** The text of a round: its text deltas joined in emission order. *)
Definition gemini_text (cs : list GeminiChunk) : string :=
  concat_strings (map (fun c => default "" (chunk_text c)) cs).

Definition openai_text (cs : list OpenAIChunk) : string :=
  concat_strings (map (fun c => default "" (delta_content c)) cs).

(** The function calls of a round, in emission order. *)
Definition gemini_calls (cs : list GeminiChunk) : list FunctionCall :=
  concat (map (fun c => default [] (chunk_functionCalls c)) cs).

(** The tool-call deltas of a round, in emission order, and the tool calls
    they assemble to. *)
Definition openai_deltas (cs : list OpenAIChunk) : list ToolCallDelta :=
  concat (map (fun c => default [] (delta_tool_calls c)) cs).

Definition openai_calls (cs : list OpenAIChunk) : option (list ToolCall) :=
  applyDeltas [] (openai_deltas cs).

(** The transcript stored under a key. *)
Definition stored (w : World) (key : string) : option ChatHistory :=
  match store w !! key with
  | Some s => history s
  | None => None
  end.

Definition has_user_message (h : ChatHistory) : Prop :=
  ∃ m, m ∈ h ∧ message_role m = "user".

(** A tool message that answers the tool call [id]. *)
Definition answers (id : option string) (m : Message) : Prop :=
  ∃ c, m = OpenAIMsg (ToolMessage id c).

(** The system prompt as a function of the persona record. *)
Definition prompt_of_record (p : Persona) : string :=
  match tone p with
  | None => description p
  | Some t =>
      "You are " +:+ name p +:+ ", a " +:+ role p +:+ ". " +:+ description p
      +:+ " Your tone must be " +:+ t
      +:+ ". You can invoke other agents for tasks outside your expertise."
  end.

(** A computation preserves a relation between the world before and the
    world after when every run of it does. *)
Definition preserves (R : World → World → Prop) {A} (c : M A) : Prop :=
  ∀ w, R w (c w).1.

(** The same, except for the runs whose result satisfies [P]. *)
Definition preserves_unless (R : World → World → Prop) {A}
  (P : Res A → Prop) (c : M A) : Prop :=
  ∀ w, R w (c w).1 ∨ P (c w).2.

(** Nothing was written to the store; with [strict], no save was even
    requested. *)
Definition keeps_store (strict : bool) (w w' : World) : Prop :=
  store w' = store w ∧ (strict = true → puts w' = puts w).

(** The live conversation contexts are the same and no streaming request
    was made. *)
Definition keeps_context (w w' : World) : Prop :=
  geminiChat w' = geminiChat w
  ∧ openAIMessages w' = openAIMessages w
  ∧ streams w' = streams w.

(** No delegation was executed. *)
Definition keeps_executions (w w' : World) : Prop :=
  executions w' = executions w.

(** The message in slot [i] of the chat keeps its prefix and class. *)
Definition keeps_slot (i : nat) (w w' : World) : Prop :=
  ∀ m, chatContainer w !! i = Some m →
       ∃ m', chatContainer w' !! i = Some m'
             ∧ dm_prefix m' = dm_prefix m ∧ dm_class m' = dm_class m.

(** A Gemini chat, once created, stays. *)
Definition keeps_chat (w w' : World) : Prop :=
  is_Some (geminiChat w) → is_Some (geminiChat w').

(** The OpenAI transcript is only appended to. *)
Definition extends_messages (w w' : World) : Prop :=
  ∃ more, default [] (openAIMessages w')
          = default [] (openAIMessages w) ++ more.

(** The OpenAI transcript is untouched. *)
Definition keeps_messages (w w' : World) : Prop :=
  openAIMessages w' = openAIMessages w.

(** The slot that the normal path gives to the answer (after the user's
    message), and the prefix it shows. *)
Definition thinking_slot (w : World) : nat := S (length (chatContainer w)).

Definition persona_prefix (w : World) : string :=
  Js.toUpperCase (key_name (personaSelector_value w)) +:+ ">".

(** The attachment as [fileToBase64] encodes it, and the files for which it
    does not fail. *)
Definition encoded (file : option File) : option InlineData :=
  match file with
  | Some f => match file_base64 f with inr d => Some d | inl _ => None end
  | None => None
  end.

Definition encodable (file : option File) : Prop :=
  ∀ f e, file = Some f → file_base64 f ≠ inl e.

(** The agent and the prompt read from the arguments of a call; nothing
    when the arguments or the prompt are missing. *)
Definition decode_args (args : option (Js.Obj string))
  : option (string * string) :=
  match args with
  | Some a =>
      match Js.own a "prompt" with
      | Some p => Some (Js.show (Js.own a "agentName"), p)
      | None => None
      end
  | None => None
  end.

(** The delegation that a round asks for: that of the first call in
    emission order, when the stream ends well. *)
Definition gemini_delegation (s : Stream GeminiChunk)
  : option (string * string) :=
  match failure s, gemini_calls (chunks s) with
  | None, call :: _ => decode_args (fc_args call)
  | _, _ => None
  end.

Definition openai_delegation (env : Env) (s : Stream OpenAIChunk)
  : option (string * string) :=
  match openai_calls (chunks s), failure s with
  | Some (call :: _), None => decode_args (JSON_parse env (tc_arguments call))
  | _, _ => None
  end.

(** A scripted provider: the first round ends well with exactly one call,
    which asks agent [a] for [p]; the second round ends well with text
    only. *)
Definition gemini_scripted (env : Env) (a p : string) : Prop :=
  failure (gemini_stream env 0) = None
  ∧ (∃ call, gemini_calls (chunks (gemini_stream env 0)) = [call]
             ∧ decode_args (fc_args call) = Some (a, p))
  ∧ failure (gemini_stream env 1) = None
  ∧ gemini_calls (chunks (gemini_stream env 1)) = [].

(** On the OpenAI side the script is described by what the provider
    streams, not by what the loop makes of it: the tool-call deltas of the
    first round are those of one call (a first delta and possibly more, all
    with index 0), the pieces of arguments they carry, joined in emission
    order, are read by [JSON.parse] as agent [a] and prompt [p], and the
    second round streams no tool-call delta. *)
Definition streamed_arguments (ds : list ToolCallDelta) : string :=
  concat_strings (map (fun d => default "" (d_arguments d)) ds).

Definition openai_scripted (env : Env) (a p : string) : Prop :=
  failure (openai_stream env 0) = None
  ∧ (∃ d ds, openai_deltas (chunks (openai_stream env 0)) = d :: ds
             ∧ Forall (fun d' => d_index d' = 0) (d :: ds)
             ∧ decode_args (JSON_parse env (streamed_arguments (d :: ds)))
               = Some (a, p))
  ∧ failure (openai_stream env 1) = None
  ∧ openai_deltas (chunks (openai_stream env 1)) = [].

(** The text of round [n] of the selected provider. *)
Definition round_text (env : Env) (p : Provider) (n : nat) : string :=
  match p with
  | gemini => gemini_text (chunks (gemini_stream env n))
  | openai => openai_text (chunks (openai_stream env n))
  end.

Definition delegation_calls (d : option (string * string)) : list Call :=
  match d with
  | Some (a, p) => [CallExecute a p]
  | None => []
  end.

(** A scripted setting for the examples: Gemini answers with one function
    call and then a plain text, OpenAI with two tool calls in one round and
    then a plain text. *)
Module Sample.

Definition kara_call : FunctionCall :=
  mkFunctionCall (Some "invokeAgent")
    (Some [("agentName", "Kara"); ("prompt", "check this")]).

Definition gemini_script (n : nat) : Stream GeminiChunk :=
  match n with
  | O => mkStream [mkGeminiChunk (Some "Let me ask. ") None;
                   mkGeminiChunk None (Some [kara_call])] None
  | _ => mkStream [mkGeminiChunk (Some "Hel") None;
                   mkGeminiChunk (Some "lo, ") None;
                   mkGeminiChunk (Some "world") None] None
  end.

(** The texts of the samples' tool-call arguments: JSON objects. *)
Definition quoted (s : string) : string := Js.dq +:+ s +:+ Js.dq.

Definition member (k v : string) : string := quoted k +:+ ":" +:+ quoted v.

Definition kara_arguments : string :=
  "{" +:+ member "agentName" "Kara" +:+ "," +:+ member "prompt" "check this"
  +:+ "}".

Definition dan_arguments : string :=
  "{" +:+ member "agentName" "Dan" +:+ "," +:+ member "prompt" "build it"
  +:+ "}".

(** Round 0 streams two tool calls, the first in two fragments. *)
Definition openai_script (n : nat) : Stream OpenAIChunk :=
  match n with
  | O => mkStream
           [mkOpenAIChunk None
              (Some [mkToolCallDelta 0 (Some "call_a") (Some "invokeAgent")
                       (Some ("{" +:+ member "agentName" "Kara" +:+ ","))]);
            mkOpenAIChunk None
              (Some [mkToolCallDelta 0 None None
                       (Some (member "prompt" "check this" +:+ "}"))]);
            mkOpenAIChunk None
              (Some [mkToolCallDelta 1 (Some "call_b") (Some "invokeAgent")
                       (Some dan_arguments)])] None
  | _ => mkStream [mkOpenAIChunk (Some "Done") None;
                   mkOpenAIChunk (Some ".") None] None
  end.

(** Round 0 streams one tool call, in two fragments. *)
Definition openai_script_one (n : nat) : Stream OpenAIChunk :=
  match n with
  | O => mkStream
           [mkOpenAIChunk None
              (Some [mkToolCallDelta 0 (Some "call_a") (Some "invokeAgent")
                       (Some ("{" +:+ member "agentName" "Kara" +:+ ","))]);
            mkOpenAIChunk None
              (Some [mkToolCallDelta 0 None None
                       (Some (member "prompt" "check this" +:+ "}"))])] None
  | _ => mkStream [mkOpenAIChunk (Some "Done") None;
                   mkOpenAIChunk (Some ".") None] None
  end.

(** [JSON.parse] on the texts that the samples carry: an object whose
    members are strings without escape sequences.  A text that is no JSON is
    refused, as [JSON.parse] refuses it with a [SyntaxError]; JSON of another
    form (numbers, nested values, escapes) does not occur in the samples and
    is refused too. *)
Definition is_json_space (c : ascii) : bool :=
  (Js.code c =? 32)%nat || (Js.code c =? 9)%nat || (Js.code c =? 10)%nat
  || (Js.code c =? 13)%nat.

Fixpoint skip_space (s : string) : string :=
  match s with
  | String c r => if is_json_space c then skip_space r else s
  | EmptyString => EmptyString
  end.

(** The characters up to the closing quote, and what follows it. *)
Fixpoint read_string (s : string) : option (string * string) :=
  match s with
  | EmptyString => None
  | String c r =>
      if (Js.code c =? 34)%nat then Some (EmptyString, r)
      else if (Js.code c =? 92)%nat || (Js.code c <? 32)%nat then None
      else match read_string r with
           | Some (t, rest) => Some (String c t, rest)
           | None => None
           end
  end.

(** The character with code [n], after optional white space. *)
Definition expect (n : nat) (s : string) : option string :=
  match skip_space s with
  | String c r => if (Js.code c =? n)%nat then Some r else None
  | EmptyString => None
  end.

Definition at_end (s : string) : bool :=
  match skip_space s with EmptyString => true | _ => false end.

(** The members after the opening brace, up to the end of the text. *)
Fixpoint members (fuel : nat) (o : Js.Obj string) (s : string)
  : option (Js.Obj string) :=
  match fuel with
  | O => None
  | S fuel =>
      r ← expect 34 s;
      kr ← read_string r;
      r ← expect 58 kr.2;
      r ← expect 34 r;
      vr ← read_string r;
      let o := Js.set o kr.1 vr.1 in
      match expect 44 vr.2, expect 125 vr.2 with
      | Some r, _ => members fuel o r
      | None, Some r => if at_end r then Some o else None
      | None, None => None
      end
  end.

Definition parse (s : string) : option (Js.Obj string) :=
  r ← expect 123 s;
  match expect 125 r with
  | Some r' => if at_end r' then Some [] else None
  | None => members (String.length s) [] r
  end.

Definition provider_label (p : Provider) : string :=
  match p with gemini => "Gemini" | openai => "OpenAI" end.

Definition env : Env :=
  mkEnv true true gemini_script openai_script
    (fun h m s => h ++ [GeminiMsg (mkGeminiMessage role_model [])])
    (fun sp p => inr ("Reply to: " +:+ p))
    (fun sp p => inr (Some ("Reply to: " +:+ p)))
    parse None provider_label.

(** The same setting with an OpenAI stream of one tool call. *)
Definition env_one : Env :=
  mkEnv true true gemini_script openai_script_one
    (fun h m s => h ++ [GeminiMsg (mkGeminiMessage role_model [])])
    (fun sp p => inr ("Reply to: " +:+ p))
    (fun sp p => inr (Some ("Reply to: " +:+ p)))
    parse None provider_label.

(** The same setting with a provider that fails on every request. *)
Definition failing_env : Env :=
  mkEnv true true
    (fun _ => mkStream [mkGeminiChunk (Some "Hel") None]
                (Some (ThrownError "503")))
    (fun _ => mkStream [] (Some (ThrownError "503")))
    (fun h m s => h) (fun sp p => inl (ThrownError "503"))
    (fun sp p => inl (ThrownError "503")) parse None provider_label.

Definition old_session : ChatSession :=
  mkChatSession "openai-Lyra"
    (Some [OpenAIMsg (SystemMessage "sys");
           OpenAIMsg (UserMessage (ContentString "earlier"));
           OpenAIMsg (AssistantMessage (Some "answer") None)]).

(** A record without any user message. *)
Definition stale_session : ChatSession :=
  mkChatSession "openai-Kara"
    (Some [OpenAIMsg (SystemMessage "sys");
           OpenAIMsg (AssistantMessage (Some "hello") None)]).

Definition world (p : Provider) (k : PersonaKey) : World :=
  mkWorld p k "" false None
    (Some (mkChat (generateSystemPrompt k) []))
    (Some [OpenAIMsg (SystemMessage (generateSystemPrompt k))])
    [] []
    {[ "openai-Lyra" := old_session; "openai-Kara" := stale_session ]} [].

End Sample.

(** ** Clearing a session, staging a file *)

(** [handleClearHistory]; [confirmed] is the answer to the [confirm]
    dialog. *)
Definition handleClearHistory (env : Env) (confirmed : bool) : M unit :=
  do selectedProvider <~ gets modelSelector_value;
  do selectedPersona <~ gets personaSelector_value;
  let sessionKey := sessionKey selectedProvider selectedPersona in
  if confirmed then
    clearHistory env sessionKey ;>
    handleSessionSwitch env ;>
    modify (logOrchestrationEvent "Chat history and logs cleared by user."
              log_info)
  else ret tt.

(** [handleFileSelect]; [files] is [input.files]. *)
Definition handleFileSelect (files : list File) (w : World) : World :=
  match files with
  | f :: _ => set_stagedFile (Some f) w
  | [] => w
  end.

(** ** Reading a data URL ([fileToBase64]) *)

(** [s.split(sep)] for a separator of one character: the pieces between
    the separators, at least one. *)
Fixpoint split_char (sep : ascii) (s : string) : list string :=
  match s with
  | EmptyString => [EmptyString]
  | String c r =>
      if Ascii.eqb c sep then EmptyString :: split_char sep r
      else match split_char sep r with
           | p :: ps => String c p :: ps
           | [] => [String c EmptyString]
           end
  end.

(** The body of [reader.onload] on [reader.result]: the promise is
    resolved, rejected with [Invalid file format.], or, when the header has
    no colon and [split(':')[1]] is [undefined], left unsettled by the
    [TypeError] that escapes the callback. *)
Definition readDataURL (result : string) : Res InlineData :=
  let pieces := take 2 (split_char "," result) in
  match pieces !! 0, pieces !! 1 with
  | Some header, Some data =>
      if Js.truthy header && Js.truthy data then
        match split_char ":" header !! 1 with
        | Some m =>
            Ok (mkInlineData (default "" (split_char ";" m !! 0)) data)
        | None => Pending
        end
      else Throw (ThrownError "Invalid file format.")
  | _, _ => Throw (ThrownError "Invalid file format.")
  end.

(** A string without the character [c]. *)
Fixpoint lacks (c : ascii) (s : string) : bool :=
  match s with
  | EmptyString => true
  | String x r => negb (Ascii.eqb x c) && lacks c r
  end.

(** ** The window: dragging and maximizing *)

(** The numbers of the page (pixel coordinates and sizes): any type with a
    subtraction and a comparison. *)
Class Number (N : Type) : Type := {
  nsub : N → N → N;
  nle : N → N → bool;
  nzero : N
}.

(** The comparison is a total preorder (as it is on numbers that are not
    [NaN]). *)
Class NumberOrder (N : Type) `{Number N} : Prop := {
  nle_total : ∀ a b : N, nle a b = true ∨ nle b a = true;
  nle_trans : ∀ a b c : N, nle a b = true → nle b c = true → nle a c = true
}.

Global Instance Z_Number : Number Z :=
  {| nsub := Z.sub; nle := Z.leb; nzero := 0%Z |}.

Definition Math_min {N} `{Number N} (a b : N) : N :=
  if nle a b then a else b.

Definition Math_max {N} `{Number N} (a b : N) : N :=
  if nle a b then b else a.

(** An inline [style.left] or [style.top]: empty, or a number of pixels. *)
Inductive CssLength (N : Type) : Type :=
  | css_empty
  | css_px (n : N).
Arguments css_empty {N}.
Arguments css_px {N} n.

(** The globals and the parts of the page that the window handlers use. *)
Record Desktop (N : Type) : Type := mkDesktop {
  isDragging : bool;
  dragOffsetX : N;
  dragOffsetY : N;
  lastPosition_top : CssLength N;
  lastPosition_left : CssLength N;
  window_maximized : bool;
  window_top : CssLength N;
  window_left : CssLength N;
  window_transform_none : bool;
  titleBar_cursor : string;
  body_userSelect : string;
  mousemove_listener : bool;
  maximize_innerHTML : string;
  maximize_label : string
}.
Arguments mkDesktop {N}.
Arguments isDragging {N} d.
Arguments dragOffsetX {N} d.
Arguments dragOffsetY {N} d.
Arguments lastPosition_top {N} d.
Arguments lastPosition_left {N} d.
Arguments window_maximized {N} d.
Arguments window_top {N} d.
Arguments window_left {N} d.
Arguments window_transform_none {N} d.
Arguments titleBar_cursor {N} d.
Arguments body_userSelect {N} d.
Arguments mousemove_listener {N} d.
Arguments maximize_innerHTML {N} d.
Arguments maximize_label {N} d.

(** [handleToggleMaximize] *)
Definition handleToggleMaximize {N} (d : Desktop N) : Desktop N :=
  let isMaximized := negb (window_maximized d) in
  if isMaximized then
    mkDesktop (isDragging d) (dragOffsetX d) (dragOffsetY d)
      (window_top d) (window_left d) true css_empty css_empty
      (window_transform_none d) (titleBar_cursor d) (body_userSelect d)
      (mousemove_listener d) "&#x2929;" "Restore Window"
  else
    mkDesktop (isDragging d) (dragOffsetX d) (dragOffsetY d)
      (lastPosition_top d) (lastPosition_left d) false
      (lastPosition_top d) (lastPosition_left d)
      (window_transform_none d) (titleBar_cursor d) (body_userSelect d)
      (mousemove_listener d) "&#x25A1;" "Maximize Window".

(** The [mousedown] listener of the title bar; [onControls] tells whether
    the target lies inside [#window-controls], [rectLeft] and [rectTop] are
    the window's bounding rectangle. *)
Definition titleBar_mousedown {N} `{Number N} (onControls : bool)
  (clientX clientY rectLeft rectTop : N) (d : Desktop N) : Desktop N :=
  if onControls then d
  else if window_maximized d then d
  else
    mkDesktop true (nsub clientX rectLeft) (nsub clientY rectTop)
      (lastPosition_top d) (lastPosition_left d) (window_maximized d)
      (css_px rectTop) (css_px rectLeft) true "grabbing" "none" true
      (maximize_innerHTML d) (maximize_label d).

(** [onDrag]; the viewport is [innerWidth] by [innerHeight], the window
    [offsetWidth] by [offsetHeight]. *)
Definition onDrag {N} `{Number N} (clientX clientY : N)
  (innerWidth innerHeight offsetWidth offsetHeight : N) (d : Desktop N)
  : Desktop N :=
  if negb (isDragging d) then d
  else
    let newLeft := nsub clientX (dragOffsetX d) in
    let newTop := nsub clientY (dragOffsetY d) in
    let maxWidth := nsub innerWidth offsetWidth in
    let maxHeight := nsub innerHeight offsetHeight in
    let newLeft := Math_max nzero (Math_min newLeft maxWidth) in
    let newTop := Math_max nzero (Math_min newTop maxHeight) in
    mkDesktop (isDragging d) (dragOffsetX d) (dragOffsetY d)
      (lastPosition_top d) (lastPosition_left d) (window_maximized d)
      (css_px newTop) (css_px newLeft) (window_transform_none d)
      (titleBar_cursor d) (body_userSelect d) (mousemove_listener d)
      (maximize_innerHTML d) (maximize_label d).

(** [onDragEnd] *)
Definition onDragEnd {N} (d : Desktop N) : Desktop N :=
  mkDesktop false (dragOffsetX d) (dragOffsetY d)
    (lastPosition_top d) (lastPosition_left d) (window_maximized d)
    (window_top d) (window_left d) (window_transform_none d)
    "grab" "" false (maximize_innerHTML d) (maximize_label d).

(** ** Start-up: which provider is selected *)

(** The provider selector: its options, each with its [disabled] flag, and
    the selected index. *)
Record Selector : Type := mkSelector {
  options : list (Provider * bool);
  selectedIndex : nat
}.

(** [querySelector('option[value=...]').disabled = true]: the first option
    with that value; [None] when there is none and the assignment raises a
    [TypeError]. *)
Fixpoint disable_option (p : Provider) (opts : list (Provider * bool))
  : option (list (Provider * bool)) :=
  match opts with
  | [] => None
  | (q, b) :: r =>
      if bool_decide (q = p) then Some ((q, true) :: r)
      else cons (q, b) <$> disable_option p r
  end.

(** [Array.from(options).findIndex(opt => !opt.disabled)] *)
Fixpoint first_enabled (opts : list (Provider * bool)) : option nat :=
  match opts with
  | [] => None
  | (_, b) :: r => if b then S <$> first_enabled r else Some 0
  end.

(** The part of [initializeApp] that acts on the provider selector;
    [geminiApiKey] and [openAIApiKey] tell whether the keys are set.  The
    result is [None] when a [TypeError] is raised: an option to disable is
    missing, or no option is selected. *)
Definition initializeApp (geminiApiKey openAIApiKey : bool) (s : Selector)
  : option Selector :=
  opts ← (if geminiApiKey then Some (options s)
          else disable_option gemini (options s));
  opts ← (if openAIApiKey then Some opts else disable_option openai opts);
  match opts !! selectedIndex s with
  | Some (_, true) =>
      match first_enabled opts with
      | Some i => Some (mkSelector opts i)
      | None => Some (mkSelector opts (selectedIndex s))
      end
  | Some (_, false) => Some (mkSelector opts (selectedIndex s))
  | None => None
  end.

(** ** More observations *)

(** The input box, the controls, the staged file and the selectors are
    what they were. *)
Definition keeps_page (w w' : World) : Prop :=
  chatInput_value w' = chatInput_value w
  ∧ controls_disabled w' = controls_disabled w
  ∧ stagedFile w' = stagedFile w
  ∧ modelSelector_value w' = modelSelector_value w
  ∧ personaSelector_value w' = personaSelector_value w.

(** When slot [i] is the last one of the chat, it still is, with its
    prefix, class and [thinking] mark, and what comes before it is the same:
    at most the content of slot [i] has changed. *)
Definition only_slot (i : nat) (w w' : World) : Prop :=
  ∀ l m, chatContainer w = l ++ [m] → length l = i →
         ∃ m', chatContainer w' = l ++ [m']
               ∧ dm_prefix m' = dm_prefix m ∧ dm_class m' = dm_class m
               ∧ dm_thinking m' = dm_thinking m.

(** Every character of the string satisfies [f]. *)
Fixpoint all_chars (f : ascii → bool) (s : string) : bool :=
  match s with
  | EmptyString => true
  | String c r => f c && all_chars f r
  end.

(** The user's message as the normal path displays it. *)
Definition user_message (userInput : string) (file : option File)
  : DisplayMessage :=
  mkDisplayMessage "USER>" "user-message"
    (match file with Some f => [DBlobImage (file_name f)] | None => [] end
     ++ if Js.truthy userInput then [DText userInput] else [])
    false.

(** A provider that asks for a delegation in every round. *)
Definition gemini_always_calls (env : Env) : Prop :=
  ∀ n, ∃ a p, gemini_delegation (gemini_stream env n) = Some (a, p)
              ∧ Js.inherited a = false.

Definition openai_always_calls (env : Env) : Prop :=
  ∀ n, ∃ a p, openai_delegation env (openai_stream env n) = Some (a, p)
              ∧ Js.inherited a = false.

(** * Properties *)

(** ** The persona registry and the system prompt *)

Lemma persona_record_inj (k1 k2 : PersonaKey) :
  PERSONAS k1 = PERSONAS k2 → k1 = k2.
Proof. destruct k1, k2; intros H; try reflexivity; discriminate H. Qed.

(** C3. The system prompt is a function of the persona record alone; for the
    base persona CUA it is the raw description, verbatim, and for every other
    persona it is the template composed from the name, the role, the
    description and the tone. *)
Theorem generateSystemPrompt_of_record (k : PersonaKey) :
  generateSystemPrompt k = prompt_of_record (PERSONAS k)
  ∧ generateSystemPrompt CUA = description (PERSONAS CUA)
  ∧ (k ≠ CUA →
     ∃ t, tone (PERSONAS k) = Some t
          ∧ generateSystemPrompt k =
            "You are " +:+ name (PERSONAS k) +:+ ", a " +:+ role (PERSONAS k)
            +:+ ". " +:+ description (PERSONAS k) +:+ " Your tone must be "
            +:+ t
            +:+ ". You can invoke other agents for tasks outside your expertise.").
Proof.
  split; [|split].
  - destruct k; reflexivity.
  - reflexivity.
  - intros Hk. destruct k; try congruence; eexists; split; reflexivity.
Qed.

Lemma generateSystemPrompt_of_record_witness :
  Kara ≠ CUA
  ∧ generateSystemPrompt Kara =
    "You are Kara, a Security & Compliance Officer. You monitor all agent actions, ensuring safe orchestration and governance. You are the expert on security protocols, compliance, and risk assessment. Your tone must be Vigilant, formal, and uncompromising. You can invoke other agents for tasks outside your expertise.".
Proof.
  split; [discriminate|].
  destruct (generateSystemPrompt_of_record Kara) as (_ & _ & H).
  destruct (H ltac:(discriminate)) as (t & Ht & ->).
  injection Ht as <-. reflexivity.
Defined.

(** ** The history store *)

(** C8. With a working store, saving a transcript under a key and then
    loading that key returns a record holding exactly that transcript,
    whatever the shape of its messages. *)
Theorem save_then_load (env : Env) (key : string) (T : ChatHistory)
  (w : World) :
  store_error env = None →
  ∃ w1 w2,
    saveHistory env key (Some T) w = (w1, Ok tt)
    ∧ getHistory env key w1 = (w2, Ok (Some (mkChatSession key (Some T))))
    ∧ stored w2 key = Some T.
Proof.
  intros Hok.
  exists (set_store (<[key := mkChatSession key (Some T)]> (store w))
            (record_call (CallDbPut key (Some T)) w)).
  eexists. split; [|split].
  - unfold saveHistory. rewrite Hok. reflexivity.
  - unfold getHistory. rewrite Hok. cbn. rewrite lookup_insert_eq.
    reflexivity.
  - unfold stored. cbn. rewrite lookup_insert_eq. reflexivity.
Qed.

Lemma save_then_load_witness :
  ∃ w1 w2,
    saveHistory Sample.env "gemini-Lyra"
      (Some [GeminiMsg (mkGeminiMessage role_user [textPart "hi"]);
             OpenAIMsg (UserMessage (ContentString "hi"))])
      (Sample.world gemini Lyra) = (w1, Ok tt)
    ∧ getHistory Sample.env "gemini-Lyra" w1 =
      (w2, Ok (Some (mkChatSession "gemini-Lyra"
         (Some [GeminiMsg (mkGeminiMessage role_user [textPart "hi"]);
                OpenAIMsg (UserMessage (ContentString "hi"))]))))
    ∧ stored w2 "gemini-Lyra" =
      Some [GeminiMsg (mkGeminiMessage role_user [textPart "hi"]);
            OpenAIMsg (UserMessage (ContentString "hi"))].
Proof. apply (save_then_load Sample.env); reflexivity. Defined.

(** ** Resolving agent names *)

Lemma persona_map_entries :
  PERSONA_NAME_TO_KEY_MAP =
  [("CUA", CUA); ("Lyra", Lyra); ("Kara", Kara); ("Sophia", Sophia);
   ("Cecilia", Cecilia); ("Guac", Guac); ("Andie", Andie); ("Dan", Dan);
   ("Stan", Stan); ("Dude", Dude)].
Proof. reflexivity. Qed.

Lemma own_persona_name (k : PersonaKey) :
  Js.own PERSONA_NAME_TO_KEY_MAP (name (PERSONAS k)) = Some k.
Proof. destruct k; reflexivity. Qed.

Lemma own_persona_map (a : string) (k : PersonaKey) :
  Js.own PERSONA_NAME_TO_KEY_MAP a = Some k ↔ a = name (PERSONAS k).
Proof.
  split.
  - rewrite persona_map_entries. cbn [Js.own].
    repeat match goal with
           | |- context [String.eqb ?s a] =>
               destruct (String.eqb_spec s a) as [E|_];
               [subst a; intros [= <-]; reflexivity|]
           end.
    discriminate.
  - intros ->. apply own_persona_name.
Qed.

Lemma own_persona_map_None (a : string) :
  (∀ k, a ≠ name (PERSONAS k)) → Js.own PERSONA_NAME_TO_KEY_MAP a = None.
Proof.
  intros Hne. destruct (Js.own PERSONA_NAME_TO_KEY_MAP a) as [k|] eqn:E;
    [|reflexivity].
  apply own_persona_map in E. destruct (Hne k E).
Qed.

Lemma findAgentNameKey_fold (a b : string) :
  Js.toLowerCase a = Js.toLowerCase b →
  findAgentNameKey a = findAgentNameKey b.
Proof. intros H. unfold findAgentNameKey. rewrite H. reflexivity. Qed.

Lemma findAgentNameKey_persona (a : string) (k : PersonaKey) :
  Js.toLowerCase a = Js.toLowerCase (name (PERSONAS k)) →
  findAgentNameKey a = Some (name (PERSONAS k)).
Proof.
  intros H. rewrite (findAgentNameKey_fold _ _ H). destruct k; reflexivity.
Qed.

(** C1, as the code has it.  The delegation executor resolves an agent name
    by exact match with a persona's display name, and a name that matches
    none (and is no inherited member of the map object) is answered with the
    not-found message, no provider being called.  The lookup of the mention
    handling is the case-insensitive one: names that differ only in letter
    case select the same display name, whose exact lookup gives the persona. *)
Theorem agent_name_resolution (env : Env) (agentName prompt : string)
  (w : World) :
  (∀ k, Js.get PERSONA_NAME_TO_KEY_MAP agentName = Own k
        ↔ agentName = name (PERSONAS k))
  ∧ ((∀ k, agentName ≠ name (PERSONAS k)) →
     Js.inherited agentName = false →
     executeInvokeAgent env agentName prompt w =
     (record_call (CallExecute agentName prompt) w,
      Ok ("Error: Agent '" +:+ agentName +:+ "' not found.")))
  ∧ (∀ other, Js.toLowerCase other = Js.toLowerCase agentName →
              findAgentNameKey other = findAgentNameKey agentName)
  ∧ (∀ k, Js.toLowerCase agentName = Js.toLowerCase (name (PERSONAS k)) →
          findAgentNameKey agentName = Some (name (PERSONAS k))
          ∧ Js.get PERSONA_NAME_TO_KEY_MAP (name (PERSONAS k)) = Own k).
Proof.
  repeat split.
  - unfold Js.get.
    destruct (Js.own PERSONA_NAME_TO_KEY_MAP agentName) as [k'|] eqn:E.
    + intros [= <-]. apply own_persona_map, E.
    + destruct (Js.inherited agentName); discriminate.
  - intros ->. unfold Js.get. rewrite own_persona_name. reflexivity.
  - intros Hne Hinh. unfold executeInvokeAgent, Js.get.
    rewrite (own_persona_map_None _ Hne), Hinh. reflexivity.
  - intros other H. apply findAgentNameKey_fold, H.
  - apply findAgentNameKey_persona; assumption.
  - unfold Js.get. rewrite own_persona_name. reflexivity.
Qed.

Lemma agent_name_resolution_witness :
  executeInvokeAgent Sample.env "Nobody" "hi" (Sample.world gemini Lyra) =
  (record_call (CallExecute "Nobody" "hi") (Sample.world gemini Lyra),
   Ok "Error: Agent 'Nobody' not found.")
  ∧ findAgentNameKey "KARA" = Some "Kara".
Proof.
  split.
  - destruct (agent_name_resolution Sample.env "Nobody" "hi"
                (Sample.world gemini Lyra)) as (_ & H & _).
    apply H; [intros k; destruct k; discriminate | reflexivity].
  - destruct (agent_name_resolution Sample.env "KARA" "hi"
                (Sample.world gemini Lyra)) as (_ & _ & _ & H).
    apply (H Kara). reflexivity.
Defined.

(** C1 as stated fails: [lyra] and [Lyra] differ only in letter case, the
    executor resolves the second and reports the first as not found; and
    the mention [@lyra hi], typed while CUA is active, is shown with Lyra's
    prefix and the not-found message. *)
Lemma executor_lookup_is_case_sensitive :
  Js.toLowerCase "lyra" = Js.toLowerCase "Lyra"
  ∧ (executeInvokeAgent Sample.env "Lyra" "hi" (Sample.world gemini CUA)).2
    = Ok "Reply to: hi"
  ∧ (executeInvokeAgent Sample.env "lyra" "hi" (Sample.world gemini CUA)).2
    = Ok "Error: Agent 'lyra' not found."
  ∧ chatContainer (submit Sample.env 2 "@lyra hi" (Sample.world gemini CUA)).1
    = [mkDisplayMessage "USER>" "user-message" [DText "@lyra hi"] false;
       mkDisplayMessage "LYRA>" ""
         [DText "Error: Agent 'lyra' not found."] false].
Proof. repeat split; vm_compute; reflexivity. Qed.

(** ** Switching sessions *)

Lemma hasMeaningfulHistory_true (s : ChatSession) :
  hasMeaningfulHistory (Some s) = true
  ↔ ∃ h, history s = Some h ∧ has_user_message h.
Proof.
  unfold hasMeaningfulHistory, has_user_message.
  destruct (history s) as [h|]; split.
  - intros H. apply existsb_exists in H as (m & Hin & Hm).
    exists h. split; [reflexivity|]. exists m. split.
    + apply list_elem_of_In, Hin.
    + apply bool_decide_eq_true in Hm. exact Hm.
  - intros (h' & [= <-] & m & Hin & Hm). apply existsb_exists.
    exists m. split; [apply list_elem_of_In, Hin|].
    apply bool_decide_eq_true. exact Hm.
  - discriminate.
  - intros (h' & [=] & _).
Qed.

(** C10. A session switch (with a working store) never changes the store.
    The stored transcript becomes the live context of the selected provider
    when one of its messages has role [user]; when none has, the switch does
    what it does for a key with no record at all (the record staying where it
    is) and the live context is a fresh one. *)
Theorem session_switch_needs_user_message (env : Env) (w : World) :
  store_error env = None →
  let p := modelSelector_value w in
  let k := personaSelector_value w in
  let key := sessionKey p k in
  let w' := (handleSessionSwitch env w).1 in
  store w' = store w
  ∧ (∀ h, stored w key = Some h → has_user_message h →
       (p = openai → openai_client env = true → openAIMessages w' = Some h)
       ∧ (p = gemini → ai env = true →
          geminiChat w' = Some (mkChat (generateSystemPrompt k) h)))
  ∧ ((∀ h, stored w key = Some h → ¬ has_user_message h) →
       handleSessionSwitch env w =
         (let '(v, r) :=
            handleSessionSwitch env (set_store (delete key (store w)) w) in
          (set_store (store w) v, r))
       ∧ (p = openai → openai_client env = true →
          openAIMessages w' =
          Some [OpenAIMsg (SystemMessage (generateSystemPrompt k))])
       ∧ (p = gemini → ai env = true →
          geminiChat w' = Some (mkChat (generateSystemPrompt k) []))).
Proof.
  intros Hok. cbv zeta.
  unfold handleSessionSwitch, bind, gets, modify, getHistory, stored.
  cbn. rewrite Hok. cbn. rewrite lookup_delete_eq. cbn.
  generalize (sessionKey (modelSelector_value w) (personaSelector_value w)).
  intros key.
  assert (∀ p b1 b2 (f g : World → World) v,
            (∀ u, store (f u) = store u) → (∀ u, store (g u) = store u) →
            store (if bool_decide (p = gemini) && b1 then f v
                   else if bool_decide (p = openai) && b2 then g v
                   else v) = store v) as Hstore.
  { intros p b1 b2 f g v Hf Hg.
    destruct (bool_decide (p = gemini) && b1); [apply Hf|].
    destruct (bool_decide (p = openai) && b2); [apply Hg|reflexivity]. }
  assert (∀ v, store (resetChatState env (modelSelector_value w)
                        (personaSelector_value w) v) = store v) as Hreset.
  { intros v. unfold resetChatState.
    destruct (bool_decide (modelSelector_value w = gemini) && ai env),
      (bool_decide (modelSelector_value w = openai) && openai_client env);
      reflexivity. }
  assert (∀ v, modelSelector_value w = openai → openai_client env = true →
               openAIMessages (resetChatState env (modelSelector_value w)
                                 (personaSelector_value w) v)
               = Some [OpenAIMsg (SystemMessage
                         (generateSystemPrompt (personaSelector_value w)))])
    as Hfresh_o.
  { intros v Hp Ho. unfold resetChatState. rewrite Hp, Ho.
    destruct (ai env); reflexivity. }
  assert (∀ v, modelSelector_value w = gemini → ai env = true →
               geminiChat (resetChatState env (modelSelector_value w)
                             (personaSelector_value w) v)
               = Some (mkChat (generateSystemPrompt (personaSelector_value w))
                         [])) as Hfresh_g.
  { intros v Hp Ha. unfold resetChatState. rewrite Hp, Ha.
    destruct (openai_client env); reflexivity. }
  destruct (store w !! key) as [s|] eqn:Es.
  - destruct (hasMeaningfulHistory (Some s)) eqn:Hm.
    + apply hasMeaningfulHistory_true in Hm as (h & Hh & Hu).
      cbn. split; [etrans; [apply Hstore; reflexivity|reflexivity]|]. split.
      * intros h' Hh' _. rewrite Hh in Hh'. injection Hh' as <-.
        split; intros Hp Hc; rewrite Hp, Hc, ?Hh; cbn;
          [destruct (ai env)|]; reflexivity.
      * intros Hno. destruct (Hno h Hh Hu).
    + cbn. split; [rewrite Hreset; reflexivity|]. split.
      * intros h Hh Hu. assert (hasMeaningfulHistory (Some s) = true) as E.
        { apply hasMeaningfulHistory_true. eauto. }
        congruence.
      * intros _. split; [|split].
        -- unfold resetChatState.
           destruct (bool_decide (modelSelector_value w = gemini) && ai env),
             (bool_decide (modelSelector_value w = openai)
              && openai_client env); reflexivity.
        -- apply Hfresh_o.
        -- apply Hfresh_g.
  - cbn. split; [rewrite Hreset; reflexivity|].
    split; [intros h [=]|]. intros _. split; [|split].
    + unfold resetChatState.
      destruct (bool_decide (modelSelector_value w = gemini) && ai env),
        (bool_decide (modelSelector_value w = openai) && openai_client env);
        reflexivity.
    + apply Hfresh_o.
    + apply Hfresh_g.
Qed.

Lemma session_switch_needs_user_message_witness :
  store (handleSessionSwitch Sample.env (Sample.world openai Kara)).1
  = store (Sample.world openai Kara)
  ∧ openAIMessages (handleSessionSwitch Sample.env (Sample.world openai Kara)).1
    = Some [OpenAIMsg (SystemMessage (generateSystemPrompt Kara))]
  ∧ openAIMessages (handleSessionSwitch Sample.env (Sample.world openai Lyra)).1
    = history Sample.old_session.
Proof.
  destruct (session_switch_needs_user_message Sample.env
              (Sample.world openai Kara) eq_refl) as (Hs & _ & Hfresh).
  destruct (session_switch_needs_user_message Sample.env
              (Sample.world openai Lyra) eq_refl) as (_ & Hrestore & _).
  split; [exact Hs|]. split.
  - apply Hfresh; [|reflexivity..].
    intros h [= <-] (m & Hin & Hrole).
    repeat (apply elem_of_cons in Hin as [->|Hin]; [discriminate Hrole|]).
    inversion Hin.
  - apply (Hrestore _ eq_refl); [|reflexivity..].
    exists (OpenAIMsg (UserMessage (ContentString "earlier"))).
    split; [|reflexivity]. apply elem_of_cons. right. apply elem_of_cons.
    left. reflexivity.
Defined.

(** ** Relations that the computations preserve *)

Section Preservation.
Context (R : World → World → Prop) `{!PreOrder R}.

Lemma preserves_ret {A} (a : A) : preserves R (ret a).
Proof. intros w. reflexivity. Qed.

Lemma preserves_throw {A} (e : Thrown) : preserves R (throw (A:=A) e).
Proof. intros w. reflexivity. Qed.

Lemma preserves_pending {A} : preserves R (pending (A:=A)).
Proof. intros w. reflexivity. Qed.

Lemma preserves_gets {A} (f : World → A) : preserves R (gets f).
Proof. intros w. reflexivity. Qed.

Lemma preserves_modify (f : World → World) :
  (∀ w, R w (f w)) → preserves R (modify f).
Proof. intros H w. apply H. Qed.

Lemma preserves_bind {A B} (c : M A) (k : A → M B) :
  preserves R c → (∀ a, preserves R (k a)) → preserves R (bind c k).
Proof.
  intros Hc Hk w. unfold bind. specialize (Hc w).
  destruct (c w) as [w1 [a|e|]]; cbn in *; [|assumption..].
  etrans; [exact Hc|apply Hk].
Qed.

Lemma preserves_try_catch {A} (body : M A) (handler : Thrown → M A) :
  preserves R body → (∀ e, preserves R (handler e)) →
  preserves R (try_catch body handler).
Proof.
  intros Hb Hh w. unfold try_catch. specialize (Hb w).
  destruct (body w) as [w1 [a|e|]]; cbn in *; [assumption| |assumption].
  etrans; [exact Hb|apply Hh].
Qed.

Lemma preserves_finally {A} (body : M A) (f : World → World) :
  preserves R body → (∀ w, R w (f w)) → preserves R (finally body f).
Proof.
  intros Hb Hf w. unfold finally. specialize (Hb w).
  destruct (body w) as [w1 [a|e|]]; cbn in *; [| |assumption];
    (etrans; [exact Hb|apply Hf]).
Qed.

Lemma preserves_append (pfx cls : string) :
  (∀ w, R w (appendMessage pfx cls w).1) →
  preserves R (fun w => let '(w, i) := appendMessage pfx cls w in (w, Ok i)).
Proof. intros H w. apply H. Qed.

Lemma preserves_weaken {A} (P : Res A → Prop) (c : M A) :
  preserves R c → preserves_unless R P c.
Proof. intros H w. left. apply H. Qed.

Lemma preserves_unless_bind {A B} (P : Res B → Prop) (c : M A)
  (k : A → M B) :
  preserves R c → (∀ a, preserves_unless R P (k a)) →
  preserves_unless R P (bind c k).
Proof.
  intros Hc Hk w. unfold bind. specialize (Hc w).
  destruct (c w) as [w1 [a|e|]]; cbn in *; [|left; assumption..].
  destruct (Hk a w1) as [H|H]; [left|right; exact H].
  etrans; [exact Hc|exact H].
Qed.

(** A [try] block that leaves [R] intact unless it ends with the value
    [a], and a handler that leaves it intact and never returns [a]. *)
Lemma preserves_unless_try_catch {A} (a : A) (body : M A)
  (handler : Thrown → M A) :
  preserves_unless R (eq (Ok a)) body →
  (∀ e, preserves R (handler e)) →
  preserves_unless R (eq (Ok a)) (try_catch body handler).
Proof.
  intros Hb Hh w. unfold try_catch. specialize (Hb w).
  destruct (body w) as [w1 [a'|e|]]; cbn in *; [assumption| |assumption].
  destruct Hb as [Hb|Hb]; [|discriminate Hb].
  left. etrans; [exact Hb|apply Hh].
Qed.

Lemma preserves_unless_finally {A} (P : Res A → Prop) (body : M A)
  (f : World → World) :
  preserves_unless R P body → (∀ w, R w (f w)) →
  preserves_unless R P (finally body f).
Proof.
  intros Hb Hf w. unfold finally. specialize (Hb w).
  destruct (body w) as [w1 [a|e|]]; cbn in *; [| |assumption];
    (destruct Hb as [Hb|Hb]; [left|right; exact Hb];
     etrans; [exact Hb|apply Hf]).
Qed.
End Preservation.

Global Instance keeps_store_preorder (strict : bool) :
  PreOrder (keeps_store strict).
Proof.
  split.
  - intros w. split; reflexivity.
  - intros w1 w2 w3 [H1 H1'] [H2 H2']. split; [congruence|].
    intros Hs. rewrite (H2' Hs). apply H1', Hs.
Qed.

Global Instance keeps_context_preorder : PreOrder keeps_context.
Proof.
  split.
  - intros w. repeat split.
  - intros w1 w2 w3 (H1 & H1' & H1'') (H2 & H2' & H2'').
    repeat split; congruence.
Qed.

Global Instance keeps_executions_preorder : PreOrder keeps_executions.
Proof.
  split.
  - intros w. reflexivity.
  - intros w1 w2 w3 H1 H2. unfold keeps_executions in *. congruence.
Qed.

Lemma puts_record_call (c : Call) (w : World) :
  is_put c = false → puts (record_call c w) = puts w.
Proof.
  intros H. unfold puts, record_call. cbn. rewrite List.filter_app. cbn.
  rewrite H. apply app_nil_r.
Qed.

Lemma streams_record_call (c : Call) (w : World) :
  is_stream c = false → streams (record_call c w) = streams w.
Proof.
  intros H. unfold streams, record_call. cbn. rewrite List.filter_app. cbn.
  rewrite H. apply app_nil_r.
Qed.

Lemma executions_record_call (c : Call) (w : World) :
  is_execute c = false → executions (record_call c w) = executions w.
Proof.
  intros H. unfold executions, record_call. cbn. rewrite List.filter_app.
  cbn. rewrite H. apply app_nil_r.
Qed.

Lemma executions_record_execute (a p : string) (w : World) :
  executions (record_call (CallExecute a p) w)
  = executions w ++ [CallExecute a p].
Proof.
  unfold executions, record_call. cbn. rewrite List.filter_app. reflexivity.
Qed.

(** A statement of the page leaves a relation intact: checked by computing
    the fields that the relation reads. *)
Ltac frame_leaf :=
  intros;
  repeat match goal with
         | |- context [match ?x with _ => _ end] => destruct x
         end;
  unfold keeps_store, keeps_context, keeps_executions;
  repeat split; intros;
  first [ reflexivity
        | apply puts_record_call; reflexivity
        | apply streams_record_call; reflexivity
        | apply executions_record_call; reflexivity
        | solve [eauto with frame] ].

Create HintDb frame.

Ltac frame_step :=
  lazymatch goal with
  | |- PreOrder _ => typeclasses eauto
  | |- preserves _ (bind _ _) =>
      apply preserves_bind; [typeclasses eauto| |intros ?]
  | |- preserves _ (ret _) => apply preserves_ret; typeclasses eauto
  | |- preserves _ (throw _) => apply preserves_throw; typeclasses eauto
  | |- preserves _ pending => apply preserves_pending; typeclasses eauto
  | |- preserves _ (gets _) => apply preserves_gets; typeclasses eauto
  | |- preserves _ (modify _) => apply preserves_modify; frame_leaf
  | |- preserves _ (try_catch _ _) =>
      apply preserves_try_catch; [typeclasses eauto| |intros ?]
  | |- preserves _ (finally _ _) =>
      apply preserves_finally; [typeclasses eauto| |frame_leaf]
  | |- preserves _ (fun w => let '(_, _) := appendMessage _ _ w in _) =>
      apply preserves_append; frame_leaf
  | |- preserves _ (match ?x with _ => _ end) => destruct x
  | |- preserves _ (let _ := _ in _) => cbv zeta
  | |- preserves _ _ => solve [auto with frame]
  end.

Ltac frame := repeat frame_step.

(** ** The delegation executor *)

Lemma executeInvokeAgent_keeps_store env strict a p :
  preserves (keeps_store strict) (executeInvokeAgent env a p).
Proof. unfold executeInvokeAgent. frame. Qed.

Lemma executeInvokeAgent_keeps_context env a p :
  preserves keeps_context (executeInvokeAgent env a p).
Proof. unfold executeInvokeAgent. frame. Qed.

Global Hint Resolve executeInvokeAgent_keeps_store
  executeInvokeAgent_keeps_context : frame.

(** The executor is entered once per call, whatever it then does. *)
Lemma executeInvokeAgent_executions env a p w :
  executions (executeInvokeAgent env a p w).1
  = executions w ++ [CallExecute a p].
Proof.
  rewrite <- executions_record_execute. unfold executeInvokeAgent.
  lazymatch goal with
  | |- context [bind (modify _) ?k] =>
      assert (preserves keeps_executions (k tt)) as H by (cbv beta; frame)
  end.
  exact (H (record_call (CallExecute a p) w)).
Qed.

(** Unless the name is an inherited member of the map, the executor
    returns a string: failures of the provider are caught inside. *)
Lemma executeInvokeAgent_returns env a p w :
  Js.inherited a = false → ∃ s, (executeInvokeAgent env a p w).2 = Ok s.
Proof.
  intros Hinh. unfold executeInvokeAgent, Js.get. rewrite Hinh.
  destruct (Js.own PERSONA_NAME_TO_KEY_MAP a) as [k|]; [|cbn; eauto].
  unfold bind, modify, gets, try_catch, ret, throw; cbn.
  repeat match goal with
         | |- context [bool_decide ?P && ?b] =>
             destruct (bool_decide P && b); cbn
         | |- context [gemini_generate ?e ?s ?q] =>
             destruct (gemini_generate e s q); cbn
         | |- context [openai_complete ?e ?s ?q] =>
             destruct (openai_complete e s q); cbn
         end; eauto.
Qed.

Lemma executeInvokeAgent_settles env a p w :
  (executeInvokeAgent env a p w).2 ≠ Pending.
Proof.
  unfold executeInvokeAgent, Js.get.
  destruct (Js.own PERSONA_NAME_TO_KEY_MAP a) as [k|];
    [|destruct (Js.inherited a); discriminate].
  unfold bind, modify, gets, try_catch, ret, throw; cbn.
  repeat match goal with
         | |- context [bool_decide ?P && ?b] =>
             destruct (bool_decide P && b); cbn
         | |- context [gemini_generate ?e ?s ?q] =>
             destruct (gemini_generate e s q); cbn
         | |- context [openai_complete ?e ?s ?q] =>
             destruct (openai_complete e s q); cbn
         end; discriminate.
Qed.

(** ** The mention handling *)

Arguments Js.trim : simpl never.
Arguments Js.toLowerCase : simpl never.
Arguments Js.toUpperCase : simpl never.
Arguments mentionMatch : simpl never.
Arguments handleMention : simpl never.
Arguments findAgentNameKey : simpl never.
Arguments generateSystemPrompt : simpl never.
Arguments getTools : simpl never.
Arguments sessionKey : simpl never.
Arguments executeInvokeAgent : simpl never.
Arguments delegateOnce : simpl never.
Arguments submitTurn : simpl never.
Arguments runProvider : simpl never.
Arguments finishTurn : simpl never.
Arguments geminiLoop : simpl never.
Arguments openaiLoop : simpl never.
Arguments geminiRound : simpl never.
Arguments openaiRound : simpl never.
Arguments geminiSend : simpl never.
Arguments openaiSend : simpl never.

Lemma mentionMatch_nonempty (s a rest : string) :
  mentionMatch s = Some (a, rest) → Js.truthy s = true.
Proof. destruct s; [discriminate|reflexivity]. Qed.

Lemma truthy_true (s : string) : s ≠ "" → Js.truthy s = true.
Proof. destruct s; [congruence|reflexivity]. Qed.

Lemma handleMention_other (w : World) (userInput a rest : string)
  (target : PersonaKey) :
  stagedFile w = None →
  mentionMatch userInput = Some (a, rest) →
  Js.toLowerCase a = Js.toLowerCase (name (PERSONAS target)) →
  target ≠ personaSelector_value w →
  Js.trim rest ≠ "" →
  handleMention w userInput = OneOff a (Js.trim rest) (Own target).
Proof.
  intros Hs Hm Hl Ht Hr. unfold handleMention.
  rewrite Hm, Hs, (findAgentNameKey_persona _ _ Hl), (truthy_true _ Hr).
  unfold Js.get. rewrite own_persona_name. cbn.
  rewrite bool_decide_eq_false_2; [reflexivity|]. intros [= E]. exact (Ht E).
Qed.

Lemma handleMention_self (w : World) (userInput a rest : string) :
  stagedFile w = None →
  mentionMatch userInput = Some (a, rest) →
  Js.toLowerCase a
  = Js.toLowerCase (name (PERSONAS (personaSelector_value w))) →
  handleMention w userInput
  = Proceed (if Js.truthy (Js.trim rest) then Js.trim rest else userInput).
Proof.
  intros Hs Hm Hl. unfold handleMention.
  rewrite Hm, Hs, (findAgentNameKey_persona _ _ Hl).
  unfold Js.get. rewrite own_persona_name. cbn.
  rewrite bool_decide_eq_true_2 by reflexivity.
  destruct (Js.truthy (Js.trim rest)); reflexivity.
Qed.

(** ** One-off delegation *)

Lemma delegateOnce_keeps_store env userInput a p target :
  preserves (keeps_store true) (delegateOnce env userInput a p target).
Proof. unfold delegateOnce. frame. Qed.

Lemma delegateOnce_keeps_context env userInput a p target :
  preserves keeps_context (delegateOnce env userInput a p target).
Proof. unfold delegateOnce. frame. Qed.

Lemma delegateOnce_result env userInput a p target w :
  (delegateOnce env userInput a p target w).2 = Ok Delegated
  ∧ executions (delegateOnce env userInput a p target w).1
    = executions w ++ [CallExecute a p].
Proof.
  unfold delegateOnce, bind, modify, gets, finally, try_catch, ret.
  cbn.
  match goal with
  | |- context [executeInvokeAgent env a p ?v] =>
      pose proof (executeInvokeAgent_settles env a p v) as Hs;
      pose proof (executeInvokeAgent_executions env a p v) as He;
      destruct (executeInvokeAgent env a p v) as [w2 [s|e|]]
  end; cbn in *; [| |congruence]; (split; [reflexivity|exact He]).
Qed.

(** C7. An [@mention] of a persona other than the active one, with a
    non-empty remainder and no staged attachment, ends in the one-off
    delegation: the executor is called once with the mention's name and the
    trimmed remainder; both live conversation contexts are what they were;
    no streaming request is made (the tool-call loop is not entered); no
    save is requested and the store is unchanged. *)
Theorem one_off_delegation_frame (env : Env) (fuel : nat) (raw : string)
  (w : World) (agentName rest : string) (target : PersonaKey) :
  stagedFile w = None →
  mentionMatch (Js.trim raw) = Some (agentName, rest) →
  Js.toLowerCase agentName = Js.toLowerCase (name (PERSONAS target)) →
  target ≠ personaSelector_value w →
  Js.trim rest ≠ "" →
  (submit env fuel raw w).2 = Ok Delegated
  ∧ geminiChat (submit env fuel raw w).1 = geminiChat w
  ∧ openAIMessages (submit env fuel raw w).1 = openAIMessages w
  ∧ streams (submit env fuel raw w).1 = streams w
  ∧ puts (submit env fuel raw w).1 = puts w
  ∧ store (submit env fuel raw w).1 = store w
  ∧ executions (submit env fuel raw w).1
    = executions w ++ [CallExecute agentName (Js.trim rest)].
Proof.
  intros Hs Hm Hl Ht Hr.
  assert (submit env fuel raw w
          = delegateOnce env (Js.trim raw) agentName (Js.trim rest) target
              (set_chatInput_value raw w)) as ->.
  { unfold submit, handleChatSubmit, bind, gets. cbn.
    rewrite (mentionMatch_nonempty _ _ _ Hm). cbn.
    rewrite (handleMention_other _ _ agentName rest target); auto. }
  destruct (delegateOnce_result env (Js.trim raw) agentName (Js.trim rest)
              target (set_chatInput_value raw w)) as [Hres Hex].
  destruct (delegateOnce_keeps_store env (Js.trim raw) agentName
              (Js.trim rest) target (set_chatInput_value raw w)) as [H1 H2].
  destruct (delegateOnce_keeps_context env (Js.trim raw) agentName
              (Js.trim rest) target (set_chatInput_value raw w))
    as (H3 & H4 & H5).
  repeat split; try assumption. apply H2. reflexivity.
Qed.

Lemma one_off_delegation_frame_witness :
  (submit Sample.env 3 "  @kara check this " (Sample.world openai Lyra)).2
  = Ok Delegated
  ∧ openAIMessages
      (submit Sample.env 3 "  @kara check this " (Sample.world openai Lyra)).1
    = openAIMessages (Sample.world openai Lyra)
  ∧ store (submit Sample.env 3 "  @kara check this "
             (Sample.world openai Lyra)).1
    = store (Sample.world openai Lyra).
Proof.
  destruct (one_off_delegation_frame Sample.env 3 "  @kara check this "
              (Sample.world openai Lyra) "kara" "check this" Kara)
    as (H1 & _ & H3 & _ & _ & H6 & _);
    [reflexivity | reflexivity | reflexivity | discriminate | discriminate |].
  exact (conj H1 (conj H3 H6)).
Defined.

(** ** The tool-call loops *)

Section Loops.
Context (R : World → World → Prop) `{!PreOrder R}.
Context (env : Env) (thinking : nat).
Hypothesis Hlog : ∀ m t w, R w (logOrchestrationEvent m t w).
Hypothesis Htext : ∀ s w, R w (set_textContent thinking s w).
Hypothesis Hstream : ∀ p n t w, R w (record_call (CallStream p n t) w).
Hypothesis Hchat : ∀ c w, R w (set_geminiChat (Some c) w).
Hypothesis Hpush : ∀ m w, R w (push_message m w).
Hypothesis Hexec : ∀ a p, preserves R (executeInvokeAgent env a p).

Lemma geminiChunks_preserves cs w acc :
  R w (fold_left (geminiChunk thinking) cs (w, acc)).1.
Proof.
  revert w acc. induction cs as [|c cs IH]; intros w [t fcs]; cbn;
    [reflexivity|].
  destruct (chunk_text c) as [s|]; [destruct (Js.truthy s)|];
    try apply IH.
  etrans; [apply (Htext (t +:+ s))|apply IH].
Qed.

Lemma geminiSend_preserves round tools message :
  preserves R (geminiSend env thinking round tools message).
Proof.
  intros w. unfold geminiSend. destruct (geminiChat w) as [chat|];
    [|reflexivity].
  pose proof (geminiChunks_preserves
                (chunks (gemini_stream env round))
                (record_call (CallStream gemini round tools) w) ("", []))
    as Hfold.
  destruct (fold_left _ _ _) as [w1 acc]. cbn in Hfold.
  assert (R w (set_geminiChat
                 (Some (mkChat (systemInstruction chat)
                          (sdk_history env (chat_history chat) message
                             (gemini_stream env round)))) w1)) as H.
  { etrans; [apply Hstream|]. etrans; [exact Hfold|apply Hchat]. }
  destruct (failure (gemini_stream env round)); exact H.
Qed.

Lemma geminiRound_preserves selectedPersonaName round tools message :
  preserves R
    (geminiRound env selectedPersonaName thinking round tools message).
Proof.
  unfold geminiRound. apply preserves_bind; [typeclasses eauto| |].
  - apply geminiSend_preserves.
  - intros [t fcs]. frame.
Qed.

Lemma geminiLoop_preserves selectedPersonaName tools fuel :
  ∀ round message,
    preserves R
      (geminiLoop env selectedPersonaName thinking tools fuel round message).
Proof.
  induction fuel as [|fuel IH]; intros round message; cbn [geminiLoop].
  - apply preserves_pending; typeclasses eauto.
  - apply preserves_bind; [typeclasses eauto| |].
    + apply geminiRound_preserves.
    + intros [t [next|]]; [apply IH|apply preserves_ret; typeclasses eauto].
Qed.

Lemma openaiChunks_preserves cs :
  ∀ t tcs, preserves R (openaiChunks thinking cs t tcs).
Proof.
  induction cs as [|c cs IH]; intros t tcs; cbn [openaiChunks].
  - apply preserves_ret; typeclasses eauto.
  - destruct (applyDeltas tcs (default [] (delta_tool_calls c)));
      [|apply preserves_throw; typeclasses eauto].
    apply preserves_bind; [typeclasses eauto| |intros _; apply IH].
    apply preserves_modify. intros w. apply Htext.
Qed.

Lemma openaiSend_preserves round tools :
  preserves R (openaiSend env thinking round tools).
Proof.
  unfold openaiSend. apply preserves_bind; [typeclasses eauto| |intros _].
  - apply preserves_modify. intros w. apply Hstream.
  - apply preserves_bind; [typeclasses eauto| |intros acc].
    + apply openaiChunks_preserves.
    + frame.
Qed.

Lemma openaiRound_preserves selectedPersonaName round tools :
  preserves R (openaiRound env selectedPersonaName thinking round tools).
Proof.
  unfold openaiRound. apply preserves_bind; [typeclasses eauto| |].
  - apply openaiSend_preserves.
  - intros [t tcs]. frame.
Qed.

Lemma openaiLoop_preserves selectedPersonaName tools fuel :
  ∀ round,
    preserves R (openaiLoop env selectedPersonaName thinking tools fuel round).
Proof.
  induction fuel as [|fuel IH]; intros round; cbn [openaiLoop].
  - apply preserves_pending; typeclasses eauto.
  - apply preserves_bind; [typeclasses eauto| |].
    + apply openaiRound_preserves.
    + intros [t [|]]; [apply IH|apply preserves_ret; typeclasses eauto].
Qed.

Lemma fileToBase64_preserves file : preserves R (fileToBase64 file).
Proof.
  intros w. unfold fileToBase64. destruct (file_base64 file); reflexivity.
Qed.

Lemma runProvider_preserves fuel p k userInput file :
  preserves R (runProvider env fuel p k userInput file thinking).
Proof.
  unfold runProvider.
  apply preserves_bind; [typeclasses eauto| |intros base64File].
  - destruct file as [f|]; [|apply preserves_ret; typeclasses eauto].
    apply preserves_bind; [typeclasses eauto|apply fileToBase64_preserves|].
    intros d. apply preserves_ret; typeclasses eauto.
  - destruct (bool_decide (p = gemini) && ai env).
    + apply preserves_bind; [typeclasses eauto| |intros [chat|]].
      * apply preserves_gets; typeclasses eauto.
      * apply geminiLoop_preserves.
      * apply preserves_throw; typeclasses eauto.
    + destruct (bool_decide (p = openai) && openai_client env);
        [|apply preserves_ret; typeclasses eauto].
      apply preserves_bind; [typeclasses eauto| |intros [msgs|]].
      * apply preserves_gets; typeclasses eauto.
      * apply preserves_bind; [typeclasses eauto| |intros _].
        -- apply preserves_modify. intros w. apply Hpush.
        -- apply openaiLoop_preserves.
      * apply preserves_throw; typeclasses eauto.
Qed.
End Loops.

(** ** Saving happens on the completed path only *)

Lemma runProvider_keeps_store env strict fuel p k userInput file thinking :
  preserves (keeps_store strict)
    (runProvider env fuel p k userInput file thinking).
Proof.
  apply runProvider_preserves; [typeclasses eauto|..]; try frame_leaf.
  intros a q. apply executeInvokeAgent_keeps_store.
Qed.

Lemma delegateOnce_keeps_store_any env strict userInput a p target :
  preserves (keeps_store strict) (delegateOnce env userInput a p target).
Proof. unfold delegateOnce. frame. Qed.

(** The save either succeeds or leaves the store as it was; and when the
    store works, a save that is requested succeeds. *)
Lemma saveHistory_keeps_store env strict key h :
  (strict = true → store_error env = None) →
  preserves_unless (keeps_store strict) (eq (Ok tt)) (saveHistory env key h).
Proof.
  intros Hstrict w. unfold saveHistory.
  destruct (store_error env) as [e|] eqn:E; cbn; [left|right; reflexivity].
  split; [reflexivity|]. intros Hs. specialize (Hstrict Hs). congruence.
Qed.

Lemma preserves_unless_then_ret (R : World → World → Prop) {A B} (a : A)
  (b : B) (c : M A) :
  preserves_unless R (eq (Ok a)) c →
  preserves_unless R (eq (Ok b)) (c ;> ret b).
Proof.
  intros Hc w. unfold bind, ret. specialize (Hc w).
  destruct (c w) as [w1 [a'|e|]]; cbn in *;
    destruct Hc as [H|H]; try discriminate H; auto.
Qed.

Ltac frame_unless_step :=
  lazymatch goal with
  | |- preserves_unless _ _ (bind _ _) =>
      first [ solve [auto with frame]
            | apply preserves_unless_bind;
              [typeclasses eauto|frame|intros ?] ]
  | |- preserves_unless _ _ (match ?x with _ => _ end) => destruct x
  | |- preserves_unless _ _ (let _ := _ in _) => cbv zeta
  | |- preserves_unless _ _ (try_catch _ _) =>
      apply preserves_unless_try_catch; [typeclasses eauto| |intros ?; frame]
  | |- preserves_unless _ _ (finally _ _) =>
      apply preserves_unless_finally; [typeclasses eauto| |frame_leaf]
  | |- preserves_unless _ _ _ =>
      first [ solve [auto with frame]
            | apply preserves_weaken; frame ]
  end.

Ltac frame_unless := repeat frame_unless_step.

Lemma finishTurn_keeps_store env strict p k thinking fullResponse :
  (strict = true → store_error env = None) →
  preserves_unless (keeps_store strict) (eq (Ok tt))
    (finishTurn env p k thinking fullResponse).
Proof.
  intros Hstrict. unfold finishTurn.
  pose proof (saveHistory_keeps_store env strict (sessionKey p k)) as Hsave.
  frame_unless.
Qed.

Lemma submitTurn_keeps_store env strict fuel userInput :
  (strict = true → store_error env = None) →
  preserves_unless (keeps_store strict) (eq (Ok Completed))
    (submitTurn env fuel userInput).
Proof.
  intros Hstrict. unfold submitTurn, tryTurn.
  pose proof (runProvider_keeps_store env strict fuel) as Hrun.
  pose proof (fun p k th full =>
    preserves_unless_then_ret (keeps_store strict) tt Completed _
      (finishTurn_keeps_store env strict p k th full Hstrict)) as Hfin.
  frame_unless.
Qed.

Lemma handleChatSubmit_keeps_store env strict fuel :
  (strict = true → store_error env = None) →
  preserves_unless (keeps_store strict) (eq (Ok Completed))
    (handleChatSubmit env fuel).
Proof.
  intros Hstrict. unfold handleChatSubmit.
  pose proof (submitTurn_keeps_store env strict fuel) as Hturn.
  pose proof (delegateOnce_keeps_store_any env strict) as Hdel.
  frame_unless.
Qed.

(** C2. A submission that does not end on the completed path (in
    particular one that ends in the [catch] block) leaves every stored
    record as it was; with a working store it has not even requested a save.
    And the part of the [try] block that talks to the provider (the
    streaming requests and the tool-call loop) never requests a save nor
    touches the store, however it ends: the only save is the one after the
    loop has returned the final answer. *)
Theorem failed_turn_saves_nothing (env : Env) (fuel : nat) (raw : string)
  (w : World) :
  (submit env fuel raw w).2 ≠ Ok Completed →
  store (submit env fuel raw w).1 = store w
  ∧ (store_error env = None → puts (submit env fuel raw w).1 = puts w)
  ∧ (∀ p k userInput file thinking v,
       store (runProvider env fuel p k userInput file thinking v).1 = store v
       ∧ puts (runProvider env fuel p k userInput file thinking v).1
         = puts v).
Proof.
  intros Hne. unfold submit in *. split; [|split].
  - destruct (handleChatSubmit_keeps_store env false fuel
                ltac:(discriminate) (set_chatInput_value raw w))
      as [[H _]|H]; [exact H|]. symmetry in H. destruct (Hne H).
  - intros Hok.
    destruct (handleChatSubmit_keeps_store env true fuel
                (fun _ => Hok) (set_chatInput_value raw w))
      as [[_ H]|H]; [exact (H eq_refl)|]. symmetry in H. destruct (Hne H).
  - intros p k userInput file thinking v.
    destruct (runProvider_keeps_store env true fuel p k userInput file
                thinking v) as [H1 H2].
    split; [exact H1|exact (H2 eq_refl)].
Qed.

Lemma failed_turn_saves_nothing_witness :
  (submit Sample.failing_env 4 "hello" (Sample.world gemini Lyra)).2
  = Ok Failed
  ∧ store (submit Sample.failing_env 4 "hello" (Sample.world gemini Lyra)).1
    = store (Sample.world gemini Lyra)
  ∧ puts (submit Sample.failing_env 4 "hello" (Sample.world gemini Lyra)).1
    = [].
Proof.
  split; [reflexivity|].
  destruct (failed_turn_saves_nothing Sample.failing_env 4 "hello"
              (Sample.world gemini Lyra) ltac:(discriminate))
    as (H1 & H2 & _).
  split; [exact H1|exact (H2 eq_refl)].
Defined.

(** ** Self-mentions *)

Lemma trimEnd_head (c : ascii) (r : string) :
  Js.is_space c = false → ∃ r', Js.trimEnd (String c r) = String c r'.
Proof.
  intros Hc. cbn [Js.trimEnd]. destruct (Js.trimEnd r); rewrite ?Hc; eauto.
Qed.

Lemma trimStart_head (s : string) :
  Js.trimStart s = ""
  ∨ ∃ c r, Js.trimStart s = String c r ∧ Js.is_space c = false.
Proof.
  induction s as [|c r IH]; [left; reflexivity|]. cbn [Js.trimStart].
  destruct (Js.is_space c) eqn:Hc; [exact IH|]. right. eauto.
Qed.

Lemma trimEnd_idempotent (s : string) :
  Js.trimEnd (Js.trimEnd s) = Js.trimEnd s.
Proof.
  induction s as [|c r IH]; [reflexivity|]. cbn [Js.trimEnd].
  destruct (Js.trimEnd r) as [|a r'] eqn:E.
  - destruct (Js.is_space c) eqn:Hc; [reflexivity|].
    cbn [Js.trimEnd]. rewrite Hc. reflexivity.
  - change (Js.trimEnd (String c (String a r')))
      with (match Js.trimEnd (String a r') with
            | "" => if Js.is_space c then "" else String c ""
            | r'' => String c r''
            end).
    rewrite IH. reflexivity.
Qed.

Lemma trim_idempotent (s : string) : Js.trim (Js.trim s) = Js.trim s.
Proof.
  unfold Js.trim.
  destruct (trimStart_head s) as [->|(c & r & -> & Hc)]; [reflexivity|].
  destruct (trimEnd_head c r Hc) as [r' E]. rewrite E.
  cbn [Js.trimStart]. rewrite Hc, <- E. apply trimEnd_idempotent.
Qed.

(** A remainder that the mention handling passes on unchanged: it does not
    begin with a mention that resolves to a persona and is followed by
    text. *)
Lemma handleMention_plain (w : World) (r : string) :
  (∀ a rest, mentionMatch r = Some (a, rest) →
             findAgentNameKey a = None ∨ Js.trim rest = "") →
  handleMention w r = Proceed r.
Proof.
  intros H. unfold handleMention.
  destruct (mentionMatch r) as [[a rest]|]; [|reflexivity].
  destruct (bool_decide (stagedFile w = None)); [|reflexivity].
  destruct (H a rest eq_refl) as [->| ->]; [reflexivity|].
  destruct (findAgentNameKey a); reflexivity.
Qed.

Lemma handleMention_input (w : World) (x r : string) :
  handleMention (set_chatInput_value x w) r = handleMention w r.
Proof. reflexivity. Qed.

(** The normal path does not read the input box. *)
Lemma submitTurn_input env fuel userInput (x y : string) (w : World) :
  Js.truthy userInput = true →
  submitTurn env fuel userInput (set_chatInput_value x w)
  = submitTurn env fuel userInput (set_chatInput_value y w).
Proof.
  intros Hu. unfold submitTurn, bind, gets. cbn. rewrite Hu. reflexivity.
Qed.

(** The normal path ends at the end of the [try] block or in the [catch]
    block, unless it is still running. *)
Lemma submitTurn_outcome env fuel userInput (w : World) :
  Js.truthy userInput = true →
  (submitTurn env fuel userInput w).2 = Ok Completed
  ∨ (submitTurn env fuel userInput w).2 = Ok Failed
  ∨ (submitTurn env fuel userInput w).2 = Pending.
Proof.
  intros Hu.
  unfold submitTurn, tryTurn, bind, gets, modify, finally, try_catch, ret.
  cbn. rewrite Hu. cbn.
  destruct (runProvider _ _ _ _ _ _ _ _) as [w1 [full|e|]]; cbn; auto.
  destruct (finishTurn _ _ _ _ _ _) as [w2 [[]|e|]]; cbn; auto.
Qed.

(** C6, as the code has it.  Take an input that begins with an [@mention]
    (in any letter case) of the active persona, with no staged attachment,
    and whose trimmed remainder is not empty.  The submission is the normal
    turn on that remainder and no one-off delegation; it is the very run that
    submitting the remainder gives, provided the remainder is not itself
    intercepted by the mention handling.  (Nothing is said of a mention that
    nothing follows.) *)
Theorem self_mention_is_stripped (env : Env) (fuel : nat) (raw : string)
  (w : World) (agentName rest : string) :
  stagedFile w = None →
  mentionMatch (Js.trim raw) = Some (agentName, rest) →
  Js.toLowerCase agentName
  = Js.toLowerCase (name (PERSONAS (personaSelector_value w))) →
  Js.trim rest ≠ "" →
  submit env fuel raw w
  = submitTurn env fuel (Js.trim rest) (set_chatInput_value raw w)
  ∧ (submit env fuel raw w).2 ≠ Ok Delegated
  ∧ ((∀ a r, mentionMatch (Js.trim rest) = Some (a, r) →
             findAgentNameKey a = None ∨ Js.trim r = "") →
     submit env fuel raw w = submit env fuel (Js.trim rest) w).
Proof.
  intros Hs Hm Hl Hr.
  assert (Js.truthy (Js.trim raw) = true) as Hraw
    by exact (mentionMatch_nonempty _ _ _ Hm).
  pose proof (truthy_true _ Hr) as Ht.
  assert (submit env fuel raw w
          = submitTurn env fuel (Js.trim rest) (set_chatInput_value raw w))
    as Hsubmit.
  { unfold submit, handleChatSubmit, bind, gets. cbn. rewrite Hraw. cbn.
    rewrite handleMention_input, (handleMention_self w _ agentName rest);
      auto.
    rewrite Ht. reflexivity. }
  split; [exact Hsubmit|]. split.
  - rewrite Hsubmit.
    destruct (submitTurn_outcome env fuel (Js.trim rest)
                (set_chatInput_value raw w) Ht) as [->|[->| ->]];
      discriminate.
  - intros Hplain. rewrite Hsubmit.
    unfold submit, handleChatSubmit, bind, gets. cbn.
    rewrite trim_idempotent, Ht. cbn.
    rewrite handleMention_input, (handleMention_plain _ _ Hplain).
    apply submitTurn_input, Ht.
Qed.

Lemma self_mention_is_stripped_witness :
  submit Sample.env 3 "@lyra, summarize this" (Sample.world openai Lyra)
  = submit Sample.env 3 "summarize this" (Sample.world openai Lyra).
Proof.
  destruct (self_mention_is_stripped Sample.env 3 "@lyra, summarize this"
              (Sample.world openai Lyra) "lyra" " summarize this")
    as (_ & _ & H'); [reflexivity|reflexivity|reflexivity|discriminate|].
  apply H'. intros a r [=].
Defined.

(** C6 as stated fails.  With Lyra active, the input [@Lyra @Kara check]
    begins with a mention of the active persona, and what is left when the
    mention is stripped is [@Kara check].  The input runs a turn of Lyra
    (requests to the provider, ending as a completed turn), while
    [@Kara check], submitted as it is, is a one-off delegation to Kara that
    makes no streaming request: the two do not take the same path. *)
Lemma self_mention_is_not_plain_input :
  mentionMatch "@Lyra @Kara check" = Some ("Lyra", "@Kara check")
  ∧ (submit Sample.env 3 "@Lyra @Kara check" (Sample.world gemini Lyra)).2
    = Ok Completed
  ∧ length (streams (submit Sample.env 3 "@Lyra @Kara check"
                       (Sample.world gemini Lyra)).1) = 2
  ∧ (submit Sample.env 3 "@Kara check" (Sample.world gemini Lyra)).2
    = Ok Delegated
  ∧ streams (submit Sample.env 3 "@Kara check" (Sample.world gemini Lyra)).1
    = [].
Proof. repeat split; vm_compute; reflexivity. Qed.

(** ** What a round yields *)

Lemma string_app_nil_r (s : string) : s +:+ "" = s.
Proof.
  induction s as [|c s IH]; [reflexivity|].
  change (String c (s +:+ "") = String c s). f_equal. exact IH.
Qed.

Lemma string_app_assoc (a b c : string) : (a +:+ b) +:+ c = a +:+ b +:+ c.
Proof.
  induction a as [|x a IH]; [reflexivity|].
  change (String x ((a +:+ b) +:+ c) = String x (a +:+ b +:+ c)).
  f_equal. exact IH.
Qed.

Lemma geminiChunks_result thinking cs :
  ∀ w t fcs,
    (fold_left (geminiChunk thinking) cs (w, (t, fcs))).2
    = (t +:+ gemini_text cs, fcs ++ gemini_calls cs).
Proof.
  induction cs as [|c cs IH]; intros w t fcs.
  - cbn. rewrite string_app_nil_r, app_nil_r. reflexivity.
  - cbn [fold_left]. unfold gemini_text, gemini_calls in *.
    cbn [map concat concat_strings fold_right geminiChunk].
    destruct (chunk_text c) as [s|]; [destruct s as [|x s]|]; cbn [Js.truthy];
      rewrite IH; cbn [default]; rewrite <- ?string_app_assoc, ?app_assoc,
      ?string_app_nil_r; destruct (chunk_functionCalls c); cbn [default];
      rewrite ?app_nil_r; reflexivity.
Qed.

Lemma geminiSend_result env thinking round tools message w :
  is_Some (geminiChat w) →
  (geminiSend env thinking round tools message w).2
  = match failure (gemini_stream env round) with
    | Some e => Throw e
    | None => Ok (gemini_text (chunks (gemini_stream env round)),
                  gemini_calls (chunks (gemini_stream env round)))
    end.
Proof.
  intros [chat Hc]. unfold geminiSend. rewrite Hc.
  pose proof (geminiChunks_result thinking (chunks (gemini_stream env round))
                (record_call (CallStream gemini round tools) w) "" []) as H.
  destruct (fold_left _ _ _) as [w1 acc]. cbn in H. subst acc.
  destruct (failure (gemini_stream env round)); reflexivity.
Qed.

Lemma applyDeltas_app (tcs : list ToolCall) (l1 l2 : list ToolCallDelta) :
  applyDeltas tcs (l1 ++ l2)
  = match applyDeltas tcs l1 with
    | Some tcs' => applyDeltas tcs' l2
    | None => None
    end.
Proof.
  revert tcs. induction l1 as [|d l1 IH]; intros tcs; [reflexivity|].
  cbn [app applyDeltas]. destruct (applyDelta tcs d); [apply IH|reflexivity].
Qed.

Lemma openaiChunks_result thinking cs :
  ∀ t tcs w,
    (openaiChunks thinking cs t tcs w).2
    = match applyDeltas tcs (openai_deltas cs) with
      | Some tcs' => Ok (t +:+ openai_text cs, tcs')
      | None => Throw TypeError
      end.
Proof.
  induction cs as [|c cs IH]; intros t tcs w.
  - cbn. rewrite string_app_nil_r. reflexivity.
  - cbn [openaiChunks]. unfold openai_deltas, openai_text in *.
    cbn [map concat concat_strings fold_right]. rewrite applyDeltas_app.
    destruct (applyDeltas tcs (default [] (delta_tool_calls c)));
      [|reflexivity].
    unfold bind, modify. cbn. rewrite IH, string_app_assoc. reflexivity.
Qed.

Lemma openaiSend_result env thinking round tools w :
  (openaiSend env thinking round tools w).2
  = match openai_calls (chunks (openai_stream env round)),
          failure (openai_stream env round) with
    | Some tcs, None => Ok (openai_text (chunks (openai_stream env round)), tcs)
    | Some _, Some e => Throw e
    | None, _ => Throw TypeError
    end.
Proof.
  unfold openaiSend, bind, modify, openai_calls. cbn.
  pose proof (openaiChunks_result thinking
                (chunks (openai_stream env round)) "" []
                (record_call (CallStream openai round tools) w)) as H.
  destruct (openaiChunks _ _ _ _ _) as [w1 r]. cbn in H. subst r.
  destruct (applyDeltas _ _); [|reflexivity].
  destruct (failure (openai_stream env round)); reflexivity.
Qed.

(** ** The display slot, the chat and the transcript along a turn *)

Global Instance keeps_slot_preorder (i : nat) : PreOrder (keeps_slot i).
Proof.
  split.
  - intros w m Hm. eauto.
  - intros w1 w2 w3 H1 H2 m Hm.
    destruct (H1 m Hm) as (m' & Hm' & Hp & Hc).
    destruct (H2 m' Hm') as (m'' & Hm'' & Hp' & Hc').
    exists m''. repeat split; congruence.
Qed.

Global Instance keeps_chat_preorder : PreOrder keeps_chat.
Proof. split; unfold keeps_chat; [intros w; tauto|intros w1 w2 w3; tauto]. Qed.

Global Instance extends_messages_preorder : PreOrder extends_messages.
Proof.
  split.
  - intros w. exists []. rewrite app_nil_r. reflexivity.
  - intros w1 w2 w3 [m1 H1] [m2 H2]. exists (m1 ++ m2).
    rewrite H2, H1, app_assoc. reflexivity.
Qed.

Lemma keeps_slot_same (i : nat) (w w' : World) :
  chatContainer w' = chatContainer w → keeps_slot i w w'.
Proof. intros E m Hm. rewrite E. eauto. Qed.

Lemma keeps_slot_update (i j : nat) (f : DisplayMessage → DisplayMessage)
  (w : World) :
  (∀ m, dm_prefix (f m) = dm_prefix m ∧ dm_class (f m) = dm_class m) →
  keeps_slot i w (update_message j f w).
Proof.
  intros Hf m Hm. unfold update_message. cbn.
  destruct (decide (j = i)) as [->|Hne].
  - exists (f m). rewrite list_lookup_alter_eq, Hm.
    split; [reflexivity|apply Hf].
  - exists m. rewrite list_lookup_alter_ne by exact Hne. auto.
Qed.

Lemma keeps_chat_same (w w' : World) :
  geminiChat w' = geminiChat w → keeps_chat w w'.
Proof. intros E H. rewrite E. exact H. Qed.

Lemma keeps_chat_set (c : Chat) (w : World) :
  keeps_chat w (set_geminiChat (Some c) w).
Proof. intros _. eexists. reflexivity. Qed.

Lemma extends_messages_same (w w' : World) :
  openAIMessages w' = openAIMessages w → extends_messages w w'.
Proof. intros E. exists []. rewrite E, app_nil_r. reflexivity. Qed.

Lemma extends_messages_push (m : OpenAIMessage) (w : World) :
  extends_messages w (push_message m w).
Proof. exists [OpenAIMsg m]. reflexivity. Qed.

Global Hint Extern 1 (keeps_slot _ _ _) =>
  apply keeps_slot_same; reflexivity : frame.
Global Hint Extern 1 (keeps_slot _ _ (set_textContent _ _ _)) =>
  apply keeps_slot_update; intros; split; reflexivity : frame.
Global Hint Extern 1 (keeps_slot _ _ (set_thinking _ _ _)) =>
  apply keeps_slot_update; intros; split; reflexivity : frame.
Global Hint Extern 1 (keeps_chat _ _) =>
  apply keeps_chat_same; reflexivity : frame.
Global Hint Resolve keeps_chat_set extends_messages_push : frame.
Global Hint Extern 1 (extends_messages _ _) =>
  apply extends_messages_same; reflexivity : frame.

Lemma executeInvokeAgent_keeps_slot env i a p :
  preserves (keeps_slot i) (executeInvokeAgent env a p).
Proof. unfold executeInvokeAgent. frame. Qed.

Lemma executeInvokeAgent_keeps_chat env a p :
  preserves keeps_chat (executeInvokeAgent env a p).
Proof. unfold executeInvokeAgent. frame. Qed.

Lemma executeInvokeAgent_extends_messages env a p :
  preserves extends_messages (executeInvokeAgent env a p).
Proof. unfold executeInvokeAgent. frame. Qed.

Global Hint Resolve executeInvokeAgent_keeps_slot executeInvokeAgent_keeps_chat
  executeInvokeAgent_extends_messages : frame.

Lemma runProvider_keeps_slot env i fuel p k userInput file thinking :
  preserves (keeps_slot i) (runProvider env fuel p k userInput file thinking).
Proof.
  apply runProvider_preserves; [typeclasses eauto|..]; frame_leaf.
Qed.

Lemma runProvider_keeps_chat env fuel p k userInput file thinking :
  preserves keeps_chat (runProvider env fuel p k userInput file thinking).
Proof.
  apply runProvider_preserves; [typeclasses eauto|..]; frame_leaf.
Qed.

Lemma runProvider_extends_messages env fuel p k userInput file thinking :
  preserves extends_messages
    (runProvider env fuel p k userInput file thinking).
Proof.
  apply runProvider_preserves; [typeclasses eauto|..]; frame_leaf.
Qed.

(** ** One delegation per round *)

Lemma geminiSend_keeps_executions env thinking round tools message :
  preserves keeps_executions (geminiSend env thinking round tools message).
Proof. apply geminiSend_preserves; [typeclasses eauto|..]; frame_leaf. Qed.

Lemma openaiSend_keeps_executions env thinking round tools :
  preserves keeps_executions (openaiSend env thinking round tools).
Proof. apply openaiSend_preserves; [typeclasses eauto|..]; frame_leaf. Qed.

Lemma geminiRound_executions env selectedPersonaName thinking round tools
  message w :
  is_Some (geminiChat w) →
  executions
    (geminiRound env selectedPersonaName thinking round tools message w).1
  = executions w
    ++ delegation_calls (gemini_delegation (gemini_stream env round)).
Proof.
  intros Hchat. unfold geminiRound, bind, gemini_delegation.
  pose proof (geminiSend_result env thinking round tools message w Hchat)
    as Hres.
  pose proof (geminiSend_keeps_executions env thinking round tools message w)
    as Hex. unfold keeps_executions in Hex.
  destruct (geminiSend env thinking round tools message w) as [w1 r].
  cbn in Hres, Hex. subst r.
  destruct (failure (gemini_stream env round)) as [e|];
    [cbn; rewrite app_nil_r; exact Hex|].
  destruct (gemini_calls (chunks (gemini_stream env round))) as [|call rest];
    [cbn; rewrite app_nil_r; exact Hex|].
  cbn [decode_args].
  destruct (fc_args call) as [args|];
    [|cbn; rewrite app_nil_r; exact Hex].
  cbn [decode_args].
  destruct (Js.own args "prompt") as [prompt|];
    [|cbn; rewrite app_nil_r; exact Hex].
  unfold modify, ret. cbn [delegation_calls].
  match goal with
  | |- context [executeInvokeAgent env ?a ?p ?v] =>
      pose proof (executeInvokeAgent_executions env a p v) as Hrun;
      destruct (executeInvokeAgent env a p v) as [w2 [s|e|]]
  end; cbn in Hrun |- *; rewrite <- Hex; exact Hrun.
Qed.

Lemma openaiRound_executions env selectedPersonaName thinking round tools w :
  executions (openaiRound env selectedPersonaName thinking round tools w).1
  = executions w
    ++ delegation_calls (openai_delegation env (openai_stream env round)).
Proof.
  unfold openaiRound, bind, openai_delegation.
  pose proof (openaiSend_result env thinking round tools w) as Hres.
  pose proof (openaiSend_keeps_executions env thinking round tools w) as Hex.
  unfold keeps_executions in Hex.
  destruct (openaiSend env thinking round tools w) as [w1 r].
  cbn in Hres, Hex. subst r.
  destruct (openai_calls (chunks (openai_stream env round))) as [[|call rest]|];
    destruct (failure (openai_stream env round)) as [e|];
    try (cbn; rewrite app_nil_r; exact Hex).
  unfold modify, ret. cbn [decode_args].
  destruct (JSON_parse env (tc_arguments call)) as [args|];
    [|cbn; rewrite app_nil_r; exact Hex].
  cbn [decode_args].
  destruct (Js.own args "prompt") as [prompt|];
    [|cbn; rewrite app_nil_r; exact Hex].
  cbn [delegation_calls].
  match goal with
  | |- context [executeInvokeAgent env ?a ?p ?v] =>
      pose proof (executeInvokeAgent_executions env a p v) as Hrun;
      destruct (executeInvokeAgent env a p v) as [w2 [s|e|]]
  end; cbn in Hrun |- *; rewrite <- Hex; exact Hrun.
Qed.

Lemma applyDelta_head (c : ToolCall) (rest : list ToolCall)
  (d : ToolCallDelta) (tcs : list ToolCall) :
  applyDelta (c :: rest) d = Some tcs →
  ∃ c' rest', tcs = c' :: rest' ∧ tc_id c' = tc_id c ∧ tc_name c' = tc_name c.
Proof.
  unfold applyDelta.
  set (l := if (d_index d =? length (c :: rest))%nat
            then (c :: rest) ++ [mkToolCall (d_id d) (d_name d) ""]
            else c :: rest).
  assert (∃ rest0, l = c :: rest0) as [rest0 ->].
  { subst l. destruct (d_index d =? length (c :: rest))%nat; cbn; eauto. }
  destruct (d_arguments d) as [a|]; [|intros [= <-]; eauto].
  destruct (Js.truthy a); [|intros [= <-]; eauto].
  destruct (d_index d) as [|n]; cbn.
  - intros [= <-]. eauto.
  - destruct (rest0 !! n); intros [= <-]. eauto.
Qed.

Lemma applyDeltas_head (ds : list ToolCallDelta) :
  ∀ c rest tcs,
    applyDeltas (c :: rest) ds = Some tcs →
    ∃ c' rest',
      tcs = c' :: rest' ∧ tc_id c' = tc_id c ∧ tc_name c' = tc_name c.
Proof.
  induction ds as [|d ds IH]; intros c rest tcs; cbn [applyDeltas].
  - intros [= <-]. eauto.
  - destruct (applyDelta (c :: rest) d) as [l|] eqn:E; [|discriminate].
    destruct (applyDelta_head _ _ _ _ E) as (c1 & r1 & -> & Hid & Hname).
    intros H. destruct (IH _ _ _ H) as (c2 & r2 & -> & Hid' & Hname').
    exists c2, r2. repeat split; congruence.
Qed.

Lemma first_delta_is_head (d : ToolCallDelta) (ds : list ToolCallDelta)
  (tcs : list ToolCall) :
  d_index d = 0 →
  applyDeltas [] (d :: ds) = Some tcs →
  ∃ c rest, tcs = c :: rest ∧ tc_id c = d_id d ∧ tc_name c = d_name d.
Proof.
  intros Hi. cbn [applyDeltas]. unfold applyDelta. rewrite Hi. cbn.
  destruct (d_arguments d) as [a|]; [destruct (Js.truthy a)|];
    intros H; apply applyDeltas_head in H as (c & rest & -> & Hid & Hname);
    eauto.
Qed.

(** C5. In a round of either loop the delegation executor is entered at
    most once, and for the first call only: the run of a round adds to the
    executions exactly the delegation of the head of the calls that the
    round accumulated, whatever calls come after it.  On the Gemini path
    the accumulated calls are the streamed function calls in emission
    order; on the OpenAI path they are the tool calls reassembled by index,
    whose head is the call that the first delta of the stream opened. *)
Theorem one_delegation_per_round (env : Env) (selectedPersonaName : string)
  (thinking round : nat) (tools : option (list string)) :
  (∀ message w,
     is_Some (geminiChat w) →
     executions
       (geminiRound env selectedPersonaName thinking round tools message w).1
     = executions w
       ++ delegation_calls (gemini_delegation (gemini_stream env round)))
  ∧ (∀ w,
     executions (openaiRound env selectedPersonaName thinking round tools w).1
     = executions w
       ++ delegation_calls (openai_delegation env (openai_stream env round)))
  ∧ (∀ call others,
       failure (gemini_stream env round) = None →
       gemini_calls (chunks (gemini_stream env round)) = call :: others →
       gemini_delegation (gemini_stream env round)
       = decode_args (fc_args call))
  ∧ (∀ call others,
       failure (openai_stream env round) = None →
       openai_calls (chunks (openai_stream env round))
       = Some (call :: others) →
       openai_delegation env (openai_stream env round)
       = decode_args (JSON_parse env (tc_arguments call)))
  ∧ (∀ d ds tcs,
       openai_deltas (chunks (openai_stream env round)) = d :: ds →
       d_index d = 0 →
       openai_calls (chunks (openai_stream env round)) = Some tcs →
       ∃ c rest, tcs = c :: rest ∧ tc_id c = d_id d ∧ tc_name c = d_name d)
  ∧ (∀ d, length (delegation_calls d) ≤ 1).
Proof.
  split; [|split; [|split; [|split; [|split]]]].
  - intros message w Hc. apply geminiRound_executions, Hc.
  - intros w. apply openaiRound_executions.
  - intros call others Hf Hc. unfold gemini_delegation. rewrite Hf, Hc.
    reflexivity.
  - intros call others Hf Hc. unfold openai_delegation. rewrite Hf, Hc.
    reflexivity.
  - intros d ds tcs Hd Hi. unfold openai_calls. rewrite Hd.
    apply first_delta_is_head, Hi.
  - intros [[a p]|]; cbn; lia.
Qed.

Lemma one_delegation_per_round_witness :
  executions
    (openaiRound Sample.env "Lyra" 1 0 None (Sample.world openai Lyra)).1
  = [CallExecute "Kara" "check this"]
  ∧ length (default []
              (openai_calls (chunks (openai_stream Sample.env 0)))) = 2.
Proof.
  destruct (one_delegation_per_round Sample.env "Lyra" 1 0 None)
    as (_ & H & _).
  split; [exact (H (Sample.world openai Lyra))|reflexivity].
Defined.

(** ** A round of the OpenAI loop and the transcript *)

Global Instance keeps_messages_preorder : PreOrder keeps_messages.
Proof.
  split; unfold keeps_messages; [intros w; reflexivity|].
  intros w1 w2 w3 H1 H2. congruence.
Qed.

Global Hint Extern 1 (keeps_messages _ _) => reflexivity : frame.

Lemma openaiSend_keeps_messages env thinking round tools :
  preserves keeps_messages (openaiSend env thinking round tools).
Proof. apply openaiSend_preserves; [typeclasses eauto|..]; frame_leaf. Qed.

Lemma executeInvokeAgent_keeps_messages env a p w :
  openAIMessages (executeInvokeAgent env a p w).1 = openAIMessages w.
Proof. apply (executeInvokeAgent_keeps_context env a p w). Qed.

(** A round that accumulated tool calls: the assistant message with all of
    them is appended, then the tool message for the head, unless reading the
    head's arguments or the executor raised. *)
Lemma openaiRound_calls env selectedPersonaName thinking round tools w
  (call : ToolCall) (rest : list ToolCall) :
  failure (openai_stream env round) = None →
  openai_calls (chunks (openai_stream env round)) = Some (call :: rest) →
  ∃ tail,
    openAIMessages
      (openaiRound env selectedPersonaName thinking round tools w).1
    = Some (default [] (openAIMessages w)
            ++ OpenAIMsg (AssistantMessage None (Some (call :: rest))) :: tail)
    ∧ (((openaiRound env selectedPersonaName thinking round tools w).2
        = Ok (openai_text (chunks (openai_stream env round)), true)
        ∧ ∃ result, tail = [OpenAIMsg (ToolMessage (tc_id call) result)])
       ∨ ((∃ e, (openaiRound env selectedPersonaName thinking round tools w).2
                = Throw e)
          ∧ tail = []))
    ∧ (∀ a p, decode_args (JSON_parse env (tc_arguments call)) = Some (a, p) →
              Js.inherited a = false →
              (openaiRound env selectedPersonaName thinking round tools w).2
              = Ok (openai_text (chunks (openai_stream env round)), true)).
Proof.
  intros Hf Hc. unfold openaiRound, bind.
  pose proof (openaiSend_result env thinking round tools w) as Hres.
  pose proof (openaiSend_keeps_messages env thinking round tools w) as Hm.
  unfold keeps_messages in Hm. rewrite Hc, Hf in Hres.
  destruct (openaiSend env thinking round tools w) as [w1 r].
  cbn in Hres, Hm. subst r. unfold modify, ret, throw. cbn.
  unfold decode_args.
  destruct (JSON_parse env (tc_arguments call)) as [args|].
  2:{ cbn. rewrite Hm. exists []. split; [reflexivity|].
      split; [right; eauto|]. discriminate. }
  destruct (Js.own args "prompt") as [prompt|].
  2:{ cbn. rewrite Hm. exists []. split; [reflexivity|].
      split; [right; eauto|]. discriminate. }
  match goal with
  | |- context [executeInvokeAgent env ?a ?p ?v] =>
      pose proof (executeInvokeAgent_keeps_messages env a p v) as Hkeep;
      pose proof (executeInvokeAgent_settles env a p v) as Hset;
      pose proof (executeInvokeAgent_returns env a p v) as Hret;
      destruct (executeInvokeAgent env a p v) as [w2 [s|e|]]
  end; cbn in Hkeep, Hset, Hret |- *; [| |congruence].
  - rewrite Hkeep, Hm. cbn. rewrite <- app_assoc. cbn.
    eexists. split; [reflexivity|]. split; [left; eauto|]. reflexivity.
  - rewrite Hkeep, Hm. exists []. split; [reflexivity|].
    split; [right; eauto|]. intros a p [= <- <-] Hinh.
    destruct (Hret Hinh) as [s [=]].
Qed.

(** A round without tool calls ends the loop with the assistant's text. *)
Lemma openaiRound_text env selectedPersonaName thinking round tools w :
  failure (openai_stream env round) = None →
  openai_calls (chunks (openai_stream env round)) = Some [] →
  (openaiRound env selectedPersonaName thinking round tools w).2
  = Ok (openai_text (chunks (openai_stream env round)), false)
  ∧ openAIMessages
      (openaiRound env selectedPersonaName thinking round tools w).1
    = Some (default [] (openAIMessages w)
            ++ [OpenAIMsg (AssistantMessage
                  (Some (openai_text (chunks (openai_stream env round))))
                  None)]).
Proof.
  intros Hf Hc. unfold openaiRound, bind.
  pose proof (openaiSend_result env thinking round tools w) as Hres.
  pose proof (openaiSend_keeps_messages env thinking round tools w) as Hm.
  unfold keeps_messages in Hm. rewrite Hc, Hf in Hres.
  destruct (openaiSend env thinking round tools w) as [w1 r].
  cbn in Hres, Hm. subst r. cbn. rewrite Hm. split; reflexivity.
Qed.

(** ** A completed turn *)

Arguments tryTurn : simpl never.

Lemma lookup_alter_snoc {A} (f : A → A) (l : list A) (x : A) (i : nat) :
  i = length l → alter f i (l ++ [x]) !! i = Some (f x).
Proof.
  intros ->. rewrite list_lookup_alter_eq, list_lookup_middle; reflexivity.
Qed.

Lemma submitTurn_start env fuel userInput w :
  Js.truthy userInput = true ∨ is_Some (stagedFile w) →
  ∃ W0,
    submitTurn env fuel userInput w
    = tryTurn env fuel (modelSelector_value w) (personaSelector_value w)
        userInput (stagedFile w) (thinking_slot w) W0
    ∧ store W0 = store w
    ∧ puts W0 = puts w
    ∧ executions W0 = executions w
    ∧ openAIMessages W0 = openAIMessages w
    ∧ geminiChat W0 = geminiChat w
    ∧ modelSelector_value W0 = modelSelector_value w
    ∧ ∃ m, chatContainer W0 !! thinking_slot w = Some m
           ∧ dm_prefix m = persona_prefix w ∧ dm_class m = "".
Proof.
  intros Hguard.
  assert (negb (Js.truthy userInput) && bool_decide (stagedFile w = None)
          = false) as Hg.
  { destruct Hguard as [->|[f ->]]; [reflexivity|].
    rewrite bool_decide_eq_false_2 by discriminate. apply andb_false_r. }
  unfold submitTurn, bind, gets, modify. cbn. rewrite Hg. clear Hg Hguard.
  unfold thinking_slot.
  destruct (Js.truthy userInput), (stagedFile w) as [f|]; cbn;
    rewrite ?length_alter, List.length_app, Nat.add_1_r;
    (eexists; split; [reflexivity|]); cbn;
    repeat (split; [reflexivity|]);
    (eexists; split;
     [apply lookup_alter_snoc;
      rewrite ?length_alter, List.length_app, Nat.add_1_r; reflexivity|]);
    split; reflexivity.
Qed.

(** Once the loop has returned the final answer and the store works, the
    turn completes: the answer is displayed in the thinking slot and the
    live transcript of the selected provider is saved under the session
    key. *)
Lemma tryTurn_completes env fuel p k userInput file thinking W0 w1
  (full pfx cls : string) :
  runProvider env fuel p k userInput file thinking W0 = (w1, Ok full) →
  store_error env = None →
  (p = gemini → is_Some (geminiChat w1)) →
  (∃ m, chatContainer w1 !! thinking = Some m
        ∧ dm_prefix m = pfx ∧ dm_class m = cls) →
  ∃ w',
    tryTurn env fuel p k userInput file thinking W0 = (w', Ok Completed)
    ∧ executions w' = executions w1
    ∧ openAIMessages w' = openAIMessages w1
    ∧ stored w' (sessionKey p k)
      = match p with
        | gemini => chat_history <$> geminiChat w1
        | openai => openAIMessages w1
        end
    ∧ chatContainer w' !! thinking
      = Some (mkDisplayMessage pfx cls [DText full] false).
Proof.
  intros Hrun Hok Hchat (m & Hm & Hp & Hc).
  unfold tryTurn, finally, try_catch, bind. rewrite Hrun.
  unfold finishTurn, bind, modify, gets, ret, saveHistory. cbn. rewrite Hok.
  destruct p.
  - rewrite bool_decide_eq_true_2 by reflexivity. cbn.
    destruct (Hchat eq_refl) as [c Hc']. rewrite Hc'. cbn.
    eexists. split; [reflexivity|]. unfold stored. cbn.
    rewrite lookup_insert_eq, !list_lookup_alter_eq, Hm. cbn.
    rewrite Hp, Hc. repeat split; try reflexivity.
    unfold executions. cbn. rewrite List.filter_app. cbn. apply app_nil_r.
  - rewrite bool_decide_eq_false_2 by discriminate. cbn.
    eexists. split; [reflexivity|]. unfold stored. cbn.
    rewrite lookup_insert_eq, !list_lookup_alter_eq, Hm. cbn.
    rewrite Hp, Hc. repeat split; try reflexivity.
    unfold executions. cbn. rewrite List.filter_app. cbn. apply app_nil_r.
Qed.

(** ** Two rounds: one delegation, then the answer *)

Arguments openaiUserContent : simpl never.
Arguments geminiContentRequest : simpl never.
Arguments encoded : simpl never.

Lemma fileToBase64_encoded (file : option File) (w : World) :
  encodable file →
  match file with
  | Some f => bind (fileToBase64 f) (fun d => ret (Some d))
  | None => ret None
  end w = (w, Ok (encoded file)).
Proof.
  intros Hok. destruct file as [f|]; [|reflexivity].
  unfold bind, fileToBase64, encoded.
  destruct (file_base64 f) as [e|d] eqn:E; [|reflexivity].
  destruct (Hok f e eq_refl E).
Qed.

Lemma openaiLoop_S env selectedPersonaName thinking tools fuel round :
  openaiLoop env selectedPersonaName thinking tools (S fuel) round
  = bind (openaiRound env selectedPersonaName thinking round tools)
      (fun r =>
         match r with
         | (_, true) =>
             openaiLoop env selectedPersonaName thinking tools fuel (S round)
         | (fullResponse, false) => ret fullResponse
         end).
Proof. reflexivity. Qed.

Lemma geminiLoop_S env selectedPersonaName thinking tools fuel round message :
  geminiLoop env selectedPersonaName thinking tools (S fuel) round message
  = bind (geminiRound env selectedPersonaName thinking round tools message)
      (fun r =>
         match r with
         | (_, Some next) =>
             geminiLoop env selectedPersonaName thinking tools fuel (S round)
               next
         | (fullResponse, None) => ret fullResponse
         end).
Proof. reflexivity. Qed.

Lemma runProvider_openai_two_rounds env fuel k userInput file thinking w
  (msgs : ChatHistory) (call : ToolCall) (rest : list ToolCall)
  (a p : string) :
  2 ≤ fuel →
  openai_client env = true →
  openAIMessages w = Some msgs →
  encodable file →
  failure (openai_stream env 0) = None →
  openai_calls (chunks (openai_stream env 0)) = Some (call :: rest) →
  decode_args (JSON_parse env (tc_arguments call)) = Some (a, p) →
  Js.inherited a = false →
  failure (openai_stream env 1) = None →
  openai_calls (chunks (openai_stream env 1)) = Some [] →
  ∃ w1 result,
    runProvider env fuel openai k userInput file thinking w
    = (w1, Ok (openai_text (chunks (openai_stream env 1))))
    ∧ openAIMessages w1
      = Some (msgs
              ++ [OpenAIMsg (UserMessage
                    (openaiUserContent userInput (encoded file)));
                  OpenAIMsg (AssistantMessage None (Some (call :: rest)));
                  OpenAIMsg (ToolMessage (tc_id call) result);
                  OpenAIMsg (AssistantMessage
                    (Some (openai_text (chunks (openai_stream env 1))))
                    None)])
    ∧ executions w1 = executions w ++ [CallExecute a p].
Proof.
  intros Hfuel Hclient Hmsgs Hfile Hf0 Hc0 Hdec Hinh Hf1 Hc1.
  destruct fuel as [|[|fuel]]; [lia..|].
  unfold runProvider, bind at 1. rewrite (fileToBase64_encoded file w Hfile).
  rewrite bool_decide_eq_false_2 by discriminate.
  rewrite bool_decide_eq_true_2 by reflexivity. rewrite Hclient.
  cbn [andb]. unfold bind, gets, modify. rewrite Hmsgs. cbv beta iota.
  rewrite openaiLoop_S. unfold bind.
  match goal with
  | |- context [openaiRound env ?n ?t 0 ?tools ?v] =>
      destruct (openaiRound_calls env n t 0 tools v call rest Hf0 Hc0)
        as (tail & Hm0 & Hcase & Hres0);
      specialize (Hres0 a p Hdec Hinh);
      pose proof (openaiRound_executions env n t 0 tools v) as He0;
      destruct (openaiRound env n t 0 tools v) as [w2 r2]
  end.
  cbn in Hm0, Hcase, Hres0, He0. subst r2.
  destruct Hcase as [[_ [result ->]]|[[e [=]] _]].
  unfold openai_delegation in He0. rewrite Hc0, Hf0, Hdec in He0.
  cbv beta iota. rewrite openaiLoop_S. unfold bind.
  match goal with
  | |- context [openaiRound env ?n ?t 1 ?tools w2] =>
      destruct (openaiRound_text env n t 1 tools w2 Hf1 Hc1) as [Hres1 Hm1];
      pose proof (openaiRound_executions env n t 1 tools w2) as He1;
      destruct (openaiRound env n t 1 tools w2) as [w3 r3]
  end.
  cbn in Hres1, Hm1, He1. subst r3.
  unfold openai_delegation in He1. rewrite Hc1 in He1. cbn in He1.
  rewrite app_nil_r in He1.
  exists w3, result. split; [reflexivity|]. split.
  - rewrite Hm1, Hm0. cbn. rewrite Hmsgs. cbn.
    rewrite <- !app_assoc. reflexivity.
  - rewrite He1, He0. reflexivity.
Qed.

Lemma geminiRound_keeps_chat env selectedPersonaName thinking round tools
  message :
  preserves keeps_chat
    (geminiRound env selectedPersonaName thinking round tools message).
Proof. apply geminiRound_preserves; [typeclasses eauto|..]; frame_leaf. Qed.

Lemma geminiRound_call env selectedPersonaName thinking round tools message w
  (call : FunctionCall) (rest : list FunctionCall) (a p : string) :
  is_Some (geminiChat w) →
  failure (gemini_stream env round) = None →
  gemini_calls (chunks (gemini_stream env round)) = call :: rest →
  decode_args (fc_args call) = Some (a, p) →
  Js.inherited a = false →
  ∃ next,
    (geminiRound env selectedPersonaName thinking round tools message w).2
    = Ok (gemini_text (chunks (gemini_stream env round)), Some next).
Proof.
  intros Hchat Hf Hc Hdec Hinh. unfold geminiRound, bind.
  pose proof (geminiSend_result env thinking round tools message w Hchat)
    as Hres. rewrite Hf, Hc in Hres.
  destruct (geminiSend env thinking round tools message w) as [w1 r].
  cbn in Hres. subst r. unfold decode_args in Hdec.
  destruct (fc_args call) as [args|]; [|discriminate].
  destruct (Js.own args "prompt") as [prompt|]; [|discriminate].
  injection Hdec as <- <-. unfold modify, ret.
  match goal with
  | |- context [executeInvokeAgent env ?x ?y ?v] =>
      destruct (executeInvokeAgent_returns env x y v Hinh) as [s Hs];
      destruct (executeInvokeAgent env x y v) as [w2 r2]
  end.
  cbn in Hs. subst r2. cbn. eauto.
Qed.

Lemma geminiRound_text env selectedPersonaName thinking round tools message w :
  is_Some (geminiChat w) →
  failure (gemini_stream env round) = None →
  gemini_calls (chunks (gemini_stream env round)) = [] →
  (geminiRound env selectedPersonaName thinking round tools message w).2
  = Ok (gemini_text (chunks (gemini_stream env round)), None).
Proof.
  intros Hchat Hf Hc. unfold geminiRound, bind.
  pose proof (geminiSend_result env thinking round tools message w Hchat)
    as Hres. rewrite Hf, Hc in Hres.
  destruct (geminiSend env thinking round tools message w) as [w1 r].
  cbn in Hres. subst r. reflexivity.
Qed.

Lemma runProvider_gemini_two_rounds env fuel k userInput file thinking w
  (call : FunctionCall) (rest : list FunctionCall) (a p : string) :
  2 ≤ fuel →
  ai env = true →
  is_Some (geminiChat w) →
  encodable file →
  failure (gemini_stream env 0) = None →
  gemini_calls (chunks (gemini_stream env 0)) = call :: rest →
  decode_args (fc_args call) = Some (a, p) →
  Js.inherited a = false →
  failure (gemini_stream env 1) = None →
  gemini_calls (chunks (gemini_stream env 1)) = [] →
  ∃ w1,
    runProvider env fuel gemini k userInput file thinking w
    = (w1, Ok (gemini_text (chunks (gemini_stream env 1))))
    ∧ is_Some (geminiChat w1)
    ∧ executions w1 = executions w ++ [CallExecute a p].
Proof.
  intros Hfuel Hai Hchat Hfile Hf0 Hc0 Hdec Hinh Hf1 Hc1.
  destruct fuel as [|[|fuel]]; [lia..|].
  unfold runProvider, bind at 1. rewrite (fileToBase64_encoded file w Hfile).
  rewrite bool_decide_eq_true_2 by reflexivity. rewrite Hai.
  cbn [andb]. unfold bind, gets. destruct Hchat as [chat Hchat].
  rewrite Hchat. cbv beta iota. rewrite geminiLoop_S. unfold bind.
  assert (is_Some (geminiChat w)) as Hsome by (rewrite Hchat; eauto).
  match goal with
  | |- context [geminiRound env ?n ?t 0 ?tools ?m w] =>
      destruct (geminiRound_call env n t 0 tools m w call rest a p
                  Hsome Hf0 Hc0 Hdec Hinh) as [next Hres0];
      pose proof (geminiRound_executions env n t 0 tools m w Hsome) as He0;
      pose proof (geminiRound_keeps_chat env n t 0 tools m w Hsome) as Hk0;
      destruct (geminiRound env n t 0 tools m w) as [w2 r2]
  end.
  cbn in Hres0, He0, Hk0. subst r2.
  unfold gemini_delegation in He0. rewrite Hf0, Hc0, Hdec in He0.
  cbv beta iota. rewrite geminiLoop_S. unfold bind.
  match goal with
  | |- context [geminiRound env ?n ?t 1 ?tools ?m w2] =>
      pose proof (geminiRound_text env n t 1 tools m w2 Hk0 Hf1 Hc1)
        as Hres1;
      pose proof (geminiRound_executions env n t 1 tools m w2 Hk0) as He1;
      pose proof (geminiRound_keeps_chat env n t 1 tools m w2 Hk0) as Hk1;
      destruct (geminiRound env n t 1 tools m w2) as [w3 r3]
  end.
  cbn in Hres1, He1, Hk1. subst r3.
  unfold gemini_delegation in He1. rewrite Hf1, Hc1 in He1. cbn in He1.
  rewrite app_nil_r in He1.
  exists w3. split; [reflexivity|]. split; [exact Hk1|].
  rewrite He1, He0. reflexivity.
Qed.

Lemma lookup_snoc_length {A} (l : list A) (x : A) :
  (l ++ [x]) !! length l = Some x.
Proof. induction l as [|y l IH]; [reflexivity|exact IH]. Qed.

Lemma insert_snoc_length {A} (l : list A) (x y : A) :
  <[length l := y]> (l ++ [x]) = l ++ [y].
Proof. induction l as [|z l IH]; cbn; [reflexivity|]. f_equal. exact IH. Qed.

Lemma applyDelta_fragment (tcs : list ToolCall) (c : ToolCall)
  (d : ToolCallDelta) :
  d_index d = length tcs →
  applyDelta (tcs ++ [c]) d
  = Some (tcs ++ [mkToolCall (tc_id c) (tc_name c)
                    (tc_arguments c +:+ default "" (d_arguments d))]).
Proof.
  intros Hi. unfold applyDelta. rewrite Hi.
  assert ((length tcs =? length (tcs ++ [c]))%nat = false) as ->.
  { apply Nat.eqb_neq. rewrite List.length_app. cbn. lia. }
  destruct c as [cid cname cargs]. cbn [tc_id tc_name tc_arguments].
  destruct (d_arguments d) as [a|]; cbn [default].
  - destruct a as [|x a]; cbn [Js.truthy].
    + rewrite string_app_nil_r. reflexivity.
    + rewrite lookup_snoc_length, insert_snoc_length. reflexivity.
  - rewrite string_app_nil_r. reflexivity.
Qed.

Lemma applyDeltas_fragments (tcs : list ToolCall) (ds : list ToolCallDelta) :
  Forall (fun d => d_index d = length tcs) ds →
  ∀ c, applyDeltas (tcs ++ [c]) ds
       = Some (tcs ++ [mkToolCall (tc_id c) (tc_name c)
                         (tc_arguments c
                          +:+ concat_strings
                                (map (fun d => default "" (d_arguments d))
                                   ds))]).
Proof.
  induction 1 as [|d ds Hd _ IH]; intros c; cbn [applyDeltas map].
  - cbn. rewrite string_app_nil_r. destruct c; reflexivity.
  - rewrite (applyDelta_fragment tcs c d Hd), IH. cbn.
    rewrite string_app_assoc. reflexivity.
Qed.

(** The deltas of one call assemble to that call, with the pieces of its
    arguments joined; no delta, no call. *)
Lemma openai_calls_one_call (cs : list OpenAIChunk) (d : ToolCallDelta)
  (ds : list ToolCallDelta) :
  openai_deltas cs = d :: ds →
  Forall (fun d' => d_index d' = 0) (d :: ds) →
  openai_calls cs
  = Some [mkToolCall (d_id d) (d_name d) (streamed_arguments (d :: ds))].
Proof.
  intros Hd Hidx. apply Forall_cons in Hidx as [Hi His].
  unfold openai_calls. rewrite Hd. cbn [applyDeltas].
  assert (applyDelta [] d
          = Some ([] ++ [mkToolCall (d_id d) (d_name d)
                           (default "" (d_arguments d))])) as ->.
  { unfold applyDelta. rewrite Hi. cbn.
    destruct (d_arguments d) as [a|]; cbn [default]; [|reflexivity].
    destruct a as [|x a]; reflexivity. }
  rewrite (applyDeltas_fragments [] ds His). reflexivity.
Qed.

Lemma openai_calls_no_delta (cs : list OpenAIChunk) :
  openai_deltas cs = [] → openai_calls cs = Some [].
Proof. intros Hd. unfold openai_calls. rewrite Hd. reflexivity. Qed.

(** C4. Let the provider be scripted so that its first round ends with
    exactly one tool call (asking agent [a] for [p], [a] being no inherited
    member of the name map) and its second round with text only; with
    OpenAI, that is a first round whose tool-call deltas all belong to one
    call and a second round without any.  Then a
    turn on a working store, given at least two rounds to run, completes:
    the delegation executor is entered exactly once, for that call, and the
    answer displayed in the turn's slot is the text of the second round. *)
Theorem one_tool_call_then_answer (env : Env) (fuel : nat)
  (userInput : string) (w : World) (a p : string) :
  2 ≤ fuel →
  store_error env = None →
  Js.truthy userInput = true ∨ is_Some (stagedFile w) →
  encodable (stagedFile w) →
  match modelSelector_value w with
  | gemini => ai env = true ∧ is_Some (geminiChat w) ∧ gemini_scripted env a p
  | openai => openai_client env = true ∧ is_Some (openAIMessages w)
              ∧ openai_scripted env a p
  end →
  Js.inherited a = false →
  (submitTurn env fuel userInput w).2 = Ok Completed
  ∧ executions (submitTurn env fuel userInput w).1
    = executions w ++ [CallExecute a p]
  ∧ chatContainer (submitTurn env fuel userInput w).1 !! thinking_slot w
    = Some (mkDisplayMessage (persona_prefix w) ""
              [DText (round_text env (modelSelector_value w) 1)] false).
Proof.
  intros Hfuel Hok Hguard Hfile Hscript Hinh.
  destruct (submitTurn_start env fuel userInput w Hguard)
    as (W0 & -> & Hstore & Hputs & Hex & Hmsgs & Hchat & Hsel & Hslot).
  pose proof (runProvider_keeps_slot env (thinking_slot w) fuel
                (modelSelector_value w) (personaSelector_value w) userInput
                (stagedFile w) (thinking_slot w) W0) as Hkeep.
  destruct Hslot as (m & Hm & Hp & Hc).
  destruct (modelSelector_value w) eqn:Hprov.
  - destruct Hscript as (Hai & Hsome & Hf0 & (call & Hc0 & Hdec) & Hf1 & Hc1).
    rewrite <- Hchat in Hsome.
    destruct (runProvider_gemini_two_rounds env fuel (personaSelector_value w)
                userInput (stagedFile w) (thinking_slot w) W0 call [] a p
                Hfuel Hai Hsome Hfile Hf0 Hc0 Hdec Hinh Hf1 Hc1)
      as (w1 & Hrun & Hsome1 & Hex1).
    rewrite Hrun in Hkeep. cbn in Hkeep.
    destruct (Hkeep m Hm) as (m' & Hm' & Hp' & Hc').
    destruct (tryTurn_completes env fuel gemini (personaSelector_value w)
                userInput (stagedFile w) (thinking_slot w) W0 w1 _
                (persona_prefix w) "" Hrun Hok (fun _ => Hsome1))
      as (w' & -> & Hex' & _ & _ & Hshow).
    { exists m'. repeat split; congruence. }
    cbn. repeat split; [congruence|exact Hshow].
  - destruct Hscript as (Hcl & [msgs Hsome] & Hf0
                         & (d & ds & Hd0 & Hidx & Hdec) & Hf1 & Hd1).
    pose proof (openai_calls_one_call _ d ds Hd0 Hidx) as Hc0.
    pose proof (openai_calls_no_delta _ Hd1) as Hc1.
    rewrite <- Hmsgs in Hsome.
    destruct (runProvider_openai_two_rounds env fuel (personaSelector_value w)
                userInput (stagedFile w) (thinking_slot w) W0 msgs _ [] a p
                Hfuel Hcl Hsome Hfile Hf0 Hc0 Hdec Hinh Hf1 Hc1)
      as (w1 & result & Hrun & _ & Hex1).
    rewrite Hrun in Hkeep. cbn in Hkeep.
    destruct (Hkeep m Hm) as (m' & Hm' & Hp' & Hc').
    destruct (tryTurn_completes env fuel openai (personaSelector_value w)
                userInput (stagedFile w) (thinking_slot w) W0 w1 _
                (persona_prefix w) "" Hrun Hok ltac:(discriminate))
      as (w' & -> & Hex' & _ & _ & Hshow).
    { exists m'. repeat split; congruence. }
    cbn. repeat split; [congruence|exact Hshow].
Qed.

Lemma one_tool_call_then_answer_witness :
  ((submitTurn Sample.env 2 "hello" (Sample.world gemini Lyra)).2
   = Ok Completed
   ∧ executions (submitTurn Sample.env 2 "hello"
                   (Sample.world gemini Lyra)).1
     = [CallExecute "Kara" "check this"]
   ∧ chatContainer (submitTurn Sample.env 2 "hello"
                      (Sample.world gemini Lyra)).1 !! 1
     = Some (mkDisplayMessage "LYRA>" "" [DText "Hello, world"] false))
  ∧ ((submitTurn Sample.env_one 2 "hello" (Sample.world openai Lyra)).2
     = Ok Completed
     ∧ executions (submitTurn Sample.env_one 2 "hello"
                     (Sample.world openai Lyra)).1
       = [CallExecute "Kara" "check this"]
     ∧ chatContainer (submitTurn Sample.env_one 2 "hello"
                        (Sample.world openai Lyra)).1 !! 1
       = Some (mkDisplayMessage "LYRA>" "" [DText "Done."] false)).
Proof.
  split.
  - apply (one_tool_call_then_answer Sample.env 2 "hello"
             (Sample.world gemini Lyra) "Kara" "check this").
    + lia.
    + reflexivity.
    + left. reflexivity.
    + intros f e [=].
    + split; [reflexivity|]. split; [eexists; reflexivity|].
      split; [reflexivity|]. split; [|split; reflexivity].
      exists Sample.kara_call. split; reflexivity.
    + reflexivity.
  - apply (one_tool_call_then_answer Sample.env_one 2 "hello"
             (Sample.world openai Lyra) "Kara" "check this").
    + lia.
    + reflexivity.
    + left. reflexivity.
    + intros f e [=].
    + split; [reflexivity|]. split; [eexists; reflexivity|].
      split; [reflexivity|]. split; [|split; reflexivity].
      eexists _, _. split; [reflexivity|].
      split; [repeat constructor|reflexivity].
    + reflexivity.
Defined.

(** ** Tool calls without a response *)

(** C9. A round of the OpenAI loop whose stream assembles to more than one
    tool call appends the assistant message that records all of them, and
    after it at most one tool message, which answers the first call (and
    exactly that one when the round goes on): a later call whose id is not
    the first one's, and which nothing in the transcript answered before,
    stays unanswered in the transcript after the round.  When that round is
    the first of a turn whose second round is plain text, the turn completes
    and this very transcript, with the single tool message, is what is
    saved under the session key. *)
Theorem tool_calls_left_unanswered (env : Env) (selectedPersonaName : string)
  (thinking round : nat) (tools : option (list string)) (w : World)
  (call : ToolCall) (rest : list ToolCall) :
  failure (openai_stream env round) = None →
  openai_calls (chunks (openai_stream env round)) = Some (call :: rest) →
  rest ≠ [] →
  (∃ tail,
     openAIMessages
       (openaiRound env selectedPersonaName thinking round tools w).1
     = Some (default [] (openAIMessages w)
             ++ OpenAIMsg (AssistantMessage None (Some (call :: rest)))
                :: tail)
     ∧ (tail = []
        ∨ ∃ result, tail = [OpenAIMsg (ToolMessage (tc_id call) result)])
     ∧ ((openaiRound env selectedPersonaName thinking round tools w).2
        = Ok (openai_text (chunks (openai_stream env round)), true) →
        ∃ result, tail = [OpenAIMsg (ToolMessage (tc_id call) result)])
     ∧ (∀ c, c ∈ rest → tc_id c ≠ tc_id call →
          (∀ m, m ∈ default [] (openAIMessages w) → ¬ answers (tc_id c) m) →
          ∀ m, m ∈ default []
                     (openAIMessages
                        (openaiRound env selectedPersonaName thinking round
                           tools w).1) →
               ¬ answers (tc_id c) m))
  ∧ (∀ fuel userInput w0 msgs a p,
       round = 0 → 2 ≤ fuel → store_error env = None →
       Js.truthy userInput = true ∨ is_Some (stagedFile w0) →
       encodable (stagedFile w0) →
       modelSelector_value w0 = openai → openai_client env = true →
       openAIMessages w0 = Some msgs →
       decode_args (JSON_parse env (tc_arguments call)) = Some (a, p) →
       Js.inherited a = false →
       failure (openai_stream env 1) = None →
       openai_calls (chunks (openai_stream env 1)) = Some [] →
       (submitTurn env fuel userInput w0).2 = Ok Completed
       ∧ ∃ result,
           stored (submitTurn env fuel userInput w0).1
             (sessionKey openai (personaSelector_value w0))
           = Some (msgs
                   ++ [OpenAIMsg (UserMessage
                         (openaiUserContent userInput
                            (encoded (stagedFile w0))));
                       OpenAIMsg (AssistantMessage None (Some (call :: rest)));
                       OpenAIMsg (ToolMessage (tc_id call) result);
                       OpenAIMsg (AssistantMessage
                         (Some (openai_text (chunks (openai_stream env 1))))
                         None)])).
Proof.
  intros Hf Hc Hrest. split.
  - destruct (openaiRound_calls env selectedPersonaName thinking round tools
                w call rest Hf Hc) as (tail & Hm & Hcase & _).
    exists tail. split; [exact Hm|]. split; [|split].
    + destruct Hcase as [[_ H]|[_ H]]; auto.
    + intros Hres. destruct Hcase as [[_ H]|[[e He] _]]; [exact H|].
      rewrite Hres in He. discriminate He.
    + intros c Hin Hid Hold m. rewrite Hm. cbn [default].
      intros Hm' [x ->]. apply elem_of_app in Hm' as [Hm'|Hm'].
      * apply (Hold _ Hm'). eexists. reflexivity.
      * apply elem_of_cons in Hm' as [[=]|Hm'].
        destruct Hcase as [[_ [result ->]]|[_ ->]].
        -- apply list_elem_of_singleton in Hm'. injection Hm' as E _.
           exact (Hid E).
        -- inversion Hm'.
  - intros fuel userInput w0 msgs a p -> Hfuel Hok Hguard Hfile Hprov Hcl Hmsgs
      Hdec Hinh Hf1 Hc1.
    destruct (submitTurn_start env fuel userInput w0 Hguard)
      as (W0 & -> & _ & _ & _ & Hmsgs0 & _ & _ & (m & Hm & Hp & Hcls)).
    rewrite Hprov. rewrite <- Hmsgs0 in Hmsgs.
    pose proof (runProvider_keeps_slot env (thinking_slot w0) fuel openai
                  (personaSelector_value w0) userInput (stagedFile w0)
                  (thinking_slot w0) W0) as Hkeep.
    destruct (runProvider_openai_two_rounds env fuel
                (personaSelector_value w0) userInput (stagedFile w0)
                (thinking_slot w0) W0 msgs call rest a p
                Hfuel Hcl Hmsgs Hfile Hf Hc Hdec Hinh Hf1 Hc1)
      as (w1 & result & Hrun & Hm1 & _).
    rewrite Hrun in Hkeep. cbn in Hkeep.
    destruct (Hkeep m Hm) as (m' & Hm' & Hp' & Hc').
    destruct (tryTurn_completes env fuel openai (personaSelector_value w0)
                userInput (stagedFile w0) (thinking_slot w0) W0 w1 _
                (persona_prefix w0) "" Hrun Hok ltac:(discriminate))
      as (w' & -> & _ & _ & Hstored & _).
    { exists m'. repeat split; congruence. }
    cbn. split; [reflexivity|]. exists result. rewrite Hstored. exact Hm1.
Qed.

Lemma tool_calls_left_unanswered_witness :
  ∃ result,
    stored (submitTurn Sample.env 2 "hello" (Sample.world openai Dan)).1
      "openai-Dan"
    = Some [OpenAIMsg (SystemMessage (generateSystemPrompt Dan));
            OpenAIMsg (UserMessage (ContentString "hello"));
            OpenAIMsg (AssistantMessage None
              (Some [mkToolCall (Some "call_a") (Some "invokeAgent")
                       Sample.kara_arguments;
                     mkToolCall (Some "call_b") (Some "invokeAgent")
                       Sample.dan_arguments]));
            OpenAIMsg (ToolMessage (Some "call_a") result);
            OpenAIMsg (AssistantMessage (Some "Done.") None)].
Proof.
  destruct (tool_calls_left_unanswered Sample.env "Dan" 1 0 None
              (Sample.world openai Dan)
              (mkToolCall (Some "call_a") (Some "invokeAgent")
                 Sample.kara_arguments)
              [mkToolCall (Some "call_b") (Some "invokeAgent")
                 Sample.dan_arguments])
    as [_ H]; [reflexivity|reflexivity|discriminate|].
  destruct (H 2 "hello" (Sample.world openai Dan)
              [OpenAIMsg (SystemMessage (generateSystemPrompt Dan))]
              "Kara" "check this")
    as [_ [result Hs]];
    [reflexivity|lia|reflexivity|left; reflexivity|intros f e [=]
    |reflexivity..|].
  exists result. exact Hs.
Defined.

(** * Further properties *)

(** ** The store *)

(** X1. With a working store, a key that was cleared loads as absent, and
    clearing it once more changes nothing. *)
Theorem clear_then_load (env : Env) (key : string) (w : World) :
  store_error env = None →
  ∃ w1 w2,
    clearHistory env key w = (w1, Ok tt)
    ∧ getHistory env key w1 = (w2, Ok None)
    ∧ store (clearHistory env key w1).1 = store w1.
Proof.
  intros Hok.
  exists (set_store (delete key (store w)) (record_call (CallDbDelete key) w)).
  eexists. split; [|split].
  - unfold clearHistory. rewrite Hok. reflexivity.
  - unfold getHistory. rewrite Hok. cbn. rewrite lookup_delete_eq.
    reflexivity.
  - unfold clearHistory. rewrite Hok. cbn. apply delete_id.
    apply lookup_delete_eq.
Qed.

Lemma clear_then_load_witness :
  ∃ w1 w2,
    clearHistory Sample.env "openai-Lyra" (Sample.world openai Lyra)
    = (w1, Ok tt)
    ∧ getHistory Sample.env "openai-Lyra" w1 = (w2, Ok None)
    ∧ store (clearHistory Sample.env "openai-Lyra" w1).1 = store w1.
Proof. apply (clear_then_load Sample.env); reflexivity. Defined.

(** X2. Saving or clearing one key leaves the record of every other key as
    it is; and a request that fails leaves the whole store as it is. *)
Theorem store_requests_are_local (env : Env) (key key' : string)
  (h : option ChatHistory) (w : World) :
  (key' ≠ key →
   store (saveHistory env key h w).1 !! key' = store w !! key'
   ∧ store (clearHistory env key w).1 !! key' = store w !! key')
  ∧ (∀ e, store_error env = Some e →
          saveHistory env key h w = (record_call (CallDbPut key h) w, Throw e)
          ∧ clearHistory env key w
            = (record_call (CallDbDelete key) w, Throw e)
          ∧ getHistory env key w = (record_call (CallDbGet key) w, Throw e)).
Proof.
  split.
  - intros Hne. unfold saveHistory, clearHistory.
    destruct (store_error env); cbn; [split; reflexivity|].
    rewrite lookup_insert_ne, lookup_delete_ne by congruence.
    split; reflexivity.
  - intros e He. unfold saveHistory, clearHistory, getHistory. rewrite He.
    repeat split.
Qed.

Lemma store_requests_are_local_witness :
  store (clearHistory Sample.env "openai-Kara" (Sample.world openai Lyra)).1
    !! "openai-Lyra"
  = Some Sample.old_session.
Proof.
  destruct (store_requests_are_local Sample.env "openai-Kara" "openai-Lyra"
              None (Sample.world openai Lyra)) as [H _].
  destruct (H ltac:(discriminate)) as [_ ->]. reflexivity.
Defined.

(** X3. The session key tells the provider and the persona apart: two
    sessions share a key only when they are the same session. *)
Theorem sessionKey_inj (p p' : Provider) (k k' : PersonaKey) :
  sessionKey p k = sessionKey p' k' → p = p' ∧ k = k'.
Proof.
  destruct p, p', k, k'; intros H; try (split; reflexivity);
    vm_compute in H; discriminate H.
Qed.

Lemma sessionKey_inj_witness :
  sessionKey gemini Dan = sessionKey gemini Dan ∧ gemini = gemini ∧ Dan = Dan.
Proof. split; [reflexivity|]. apply sessionKey_inj. reflexivity. Defined.

(** ** The agents offered to a provider *)

Lemma availableAgents_spec (current : PersonaKey) (a : string) :
  a ∈ availableAgents current
  ↔ ∃ t, t ≠ current ∧ t ≠ CUA ∧ a = name (PERSONAS t).
Proof.
  unfold availableAgents. rewrite list_elem_of_fmap. split.
  - intros (t & -> & Ht). apply list_elem_of_filter in Ht as [[H1 H2] _].
    eauto.
  - intros (t & H1 & H2 & ->). exists t. split; [reflexivity|].
    apply list_elem_of_filter. split; [auto|].
    destruct t; unfold persona_keys; repeat constructor.
Qed.

(** X4. Whatever the active persona, the tool declaration offers at least
    one agent (the branch without tools is never taken), never the active
    persona itself and never the base persona CUA; it offers every other
    persona; and each offered name is resolved by the executor's exact
    lookup, to the persona that bears it. *)
Theorem offered_agents (current : PersonaKey) :
  (∃ agents, getTools current = Some agents ∧ agents ≠ []
             ∧ agents = availableAgents current)
  ∧ (∀ a, a ∈ availableAgents current ↔
          ∃ t, t ≠ current ∧ t ≠ CUA ∧ a = name (PERSONAS t))
  ∧ (∀ a, a ∈ availableAgents current →
          ∃ t, Js.get PERSONA_NAME_TO_KEY_MAP a = Own t
               ∧ t ≠ current ∧ t ≠ CUA).
Proof.
  split; [|split].
  - destruct current; eexists; (split; [reflexivity|]);
      (split; [discriminate|reflexivity]).
  - apply availableAgents_spec.
  - intros a Ha. apply availableAgents_spec in Ha as (t & H1 & H2 & ->).
    exists t. unfold Js.get. rewrite own_persona_name. auto.
Qed.

(** ** What the executor requests and returns *)

(** X5. For the display name of a persona and a configured provider, the
    executor makes exactly one request, non-streaming, with that persona's
    system prompt and the prompt as given; it returns the provider's text,
    or, when the request fails, the message [Error during invocation of
    <name>: <message>] as an ordinary result, and leaves both conversation
    contexts and the store alone. *)
Theorem executor_request (env : Env) (k : PersonaKey) (prompt : string)
  (w : World) :
  match modelSelector_value w with
  | gemini => ai env = true
  | openai => openai_client env = true
  end →
  let a := name (PERSONAS k) in
  let sys := generateSystemPrompt k in
  let answer :=
    match modelSelector_value w with
    | gemini => gemini_generate env sys prompt
    | openai => match openai_complete env sys prompt with
                | inl e => inl e
                | inr c => inr (default "" c)
                end
    end in
  (executeInvokeAgent env a prompt w).2
  = Ok (match answer with
        | inr t => t
        | inl e => "Error during invocation of " +:+ a +:+ ": "
                   +:+ Js.errorMessage e
        end)
  ∧ calls (executeInvokeAgent env a prompt w).1
    = calls w ++ [CallExecute a prompt;
                  CallGenerate (modelSelector_value w) sys prompt]
  ∧ geminiChat (executeInvokeAgent env a prompt w).1 = geminiChat w
  ∧ openAIMessages (executeInvokeAgent env a prompt w).1 = openAIMessages w
  ∧ store (executeInvokeAgent env a prompt w).1 = store w.
Proof.
  intros Hcfg a sys answer. subst a sys answer.
  destruct (executeInvokeAgent_keeps_context env (name (PERSONAS k)) prompt w)
    as (Hg & Hm & _).
  destruct (executeInvokeAgent_keeps_store env false (name (PERSONAS k))
              prompt w) as [Hs _].
  split; [|split; [|auto]].
  - unfold executeInvokeAgent, Js.get. rewrite own_persona_name.
    unfold bind, modify, gets, try_catch, ret, throw. cbn.
    destruct (modelSelector_value w); rewrite Hcfg; cbn.
    + destruct (gemini_generate env _ prompt); reflexivity.
    + destruct (ai env); cbn;
        destruct (openai_complete env _ prompt); reflexivity.
  - unfold executeInvokeAgent, Js.get. rewrite own_persona_name.
    unfold bind, modify, gets, try_catch, ret, throw. cbn.
    destruct (modelSelector_value w); rewrite Hcfg; cbn.
    + rewrite bool_decide_eq_true_2 by reflexivity.
      destruct (gemini_generate env _ prompt); cbn;
        rewrite <- app_assoc; reflexivity.
    + rewrite bool_decide_eq_false_2 by discriminate.
      rewrite bool_decide_eq_true_2 by reflexivity.
      destruct (openai_complete env _ prompt); cbn;
        rewrite <- app_assoc; reflexivity.
Qed.

Lemma executor_request_witness :
  let w := Sample.world openai Lyra in
  (executeInvokeAgent Sample.env "Kara" "check this" w).2
  = Ok "Reply to: check this"
  ∧ calls (executeInvokeAgent Sample.env "Kara" "check this" w).1
    = [CallExecute "Kara" "check this";
       CallGenerate openai (generateSystemPrompt Kara) "check this"].
Proof.
  pose proof (executor_request Sample.env Kara "check this"
                (Sample.world openai Lyra) eq_refl) as (H1 & H2 & _).
  split; [exact H1|exact H2].
Defined.

(** ** The grammar of a mention *)

Lemma span_word_spec (s a t : string) :
  Js.span_word s = (a, t)
  ↔ s = a +:+ t ∧ all_chars Js.is_word a = true
    ∧ match t with String c _ => Js.is_word c = false | EmptyString => True end.
Proof.
  revert a t. induction s as [|c r IH]; intros a t; cbn [Js.span_word].
  - split.
    + intros [= <- <-]. auto.
    + intros (H & _ & _). destruct a; [|discriminate H].
      destruct t; [reflexivity|discriminate H].
  - destruct (Js.is_word c) eqn:Ec.
    + destruct (Js.span_word r) as [a' t'] eqn:Er. split.
      * intros [= <- <-]. destruct (proj1 (IH a' t') eq_refl) as (-> & Ha & Ht).
        cbn [all_chars]. rewrite Ec, Ha. auto.
      * intros (H & Ha & Ht). destruct a as [|x a].
        -- change ("" +:+ t) with t in H. subst t. congruence.
        -- change (String x a +:+ t) with (String x (a +:+ t)) in H.
           injection H as -> ->. cbn [all_chars] in Ha.
           apply andb_prop in Ha as [_ Ha].
           pose proof (proj2 (IH a t) (conj eq_refl (conj Ha Ht))) as E.
           congruence.
    + split.
      * intros [= <- <-]. rewrite Ec. auto.
      * intros (H & Ha & Ht). destruct a as [|x a].
        -- change ("" +:+ t) with t in H. subst t. reflexivity.
        -- change (String x a +:+ t) with (String x (a +:+ t)) in H.
           injection H as -> ->. cbn [all_chars] in Ha. rewrite Ec in Ha.
           discriminate Ha.
Qed.

(** X6. The grammar that the mention pattern accepts, read both ways.  An
    input is a mention with name [a] and remainder [rest] exactly when it is
    an at-sign, then [a], a non-empty run of word characters, then one
    comma, one space or nothing, then [rest]; and when nothing separates
    them, [rest] begins with no word character (the name is the longest
    run), no comma and no space (a separator is taken when there is one). *)
Theorem mention_grammar (s a rest : string) :
  mentionMatch s = Some (a, rest)
  ↔ a ≠ "" ∧ all_chars Js.is_word a = true
    ∧ ∃ sep, s = "@" +:+ a +:+ sep +:+ rest
        ∧ (sep = "," ∨ sep = " "
           ∨ sep = "" ∧ match rest with
                        | String c _ =>
                            Js.is_word c = false ∧ c ≠ ","%char ∧ c ≠ " "%char
                        | EmptyString => True
                        end).
Proof.
  unfold mentionMatch. split.
  - destruct s as [|c r]; [discriminate|].
    destruct (Ascii.eqb_spec c "@") as [->|]; [|discriminate].
    destruct (Js.span_word r) as [a' t] eqn:Er.
    apply span_word_spec in Er as (-> & Ha & Ht).
    destruct a' as [|x a']; [discriminate|].
    intros [= <- <-]. split; [discriminate|]. split; [exact Ha|].
    destruct t as [|y t].
    + exists "". split; [reflexivity|]. auto.
    + destruct (Ascii.eqb_spec y ",") as [->|Hc]; cbn [orb].
      { exists ",". split; [reflexivity|]. auto. }
      destruct (Ascii.eqb_spec y " ") as [->|Hs]; cbn [orb].
      { exists " ". split; [reflexivity|]. auto. }
      exists "". split; [reflexivity|]. right. right. repeat split; assumption.
  - intros (Ha & Hw & sep & -> & Hsep).
    change ("@" +:+ a +:+ sep +:+ rest) with (String "@" (a +:+ sep +:+ rest)).
    cbv beta iota. rewrite Ascii.eqb_refl.
    assert (Js.span_word (a +:+ sep +:+ rest) = (a, sep +:+ rest)) as ->.
    { apply span_word_spec. split; [reflexivity|]. split; [exact Hw|].
      destruct Hsep as [->|[->|[-> Hr]]]; [reflexivity|reflexivity|].
      change ("" +:+ rest) with rest. destruct rest; [exact I|apply Hr]. }
    destruct a as [|x a]; [congruence|].
    destruct Hsep as [->|[->|[-> Hr]]]; [reflexivity|reflexivity|].
    change ("" +:+ rest) with rest. destruct rest as [|y rest]; [reflexivity|].
    destruct Hr as (_ & Hc & Hs).
    destruct (Ascii.eqb_spec y ","); [congruence|].
    destruct (Ascii.eqb_spec y " "); [congruence|]. reflexivity.
Qed.

Lemma mention_grammar_witness :
  mentionMatch "@Kara, check this" = Some ("Kara", " check this").
Proof.
  apply (proj2 (mention_grammar "@Kara, check this" "Kara" " check this")).
  split; [discriminate|]. split; [reflexivity|].
  exists ",". split; [reflexivity|]. left. reflexivity.
Defined.

(** ** Which submissions are ignored, and which mentions are left alone *)

Lemma trimEnd_nonspace (c : ascii) (r : string) :
  Js.is_space c = false → Js.trimEnd (String c r) ≠ "".
Proof.
  intros H. cbn [Js.trimEnd]. destruct (Js.trimEnd r); rewrite ?H; discriminate.
Qed.

Lemma trim_blank (s : string) :
  Js.trim s = "" ↔ all_chars Js.is_space s = true.
Proof.
  unfold Js.trim. induction s as [|c r IH]; cbn [Js.trimStart all_chars].
  - split; reflexivity.
  - destruct (Js.is_space c) eqn:E; cbn [andb]; [exact IH|].
    split; [|discriminate].
    intros H. destruct (trimEnd_nonspace c r E H).
Qed.

Lemma truthy_false (s : string) : Js.truthy s = false ↔ s = "".
Proof. destruct s; split; (reflexivity || discriminate). Qed.

Lemma persona_map_keys :
  Js.keys PERSONA_NAME_TO_KEY_MAP
  = List.map (fun k => name (PERSONAS k)) persona_keys.
Proof. reflexivity. Qed.

Lemma findAgentNameKey_Some (a n : string) :
  findAgentNameKey a = Some n →
  ∃ k, n = name (PERSONAS k) ∧ Js.toLowerCase a = Js.toLowerCase n.
Proof.
  unfold findAgentNameKey. intros H. apply List.find_some in H as [Hin Heq].
  rewrite persona_map_keys in Hin. apply List.in_map_iff in Hin as (k & <- & _).
  exists k. split; [reflexivity|]. symmetry. apply String.eqb_eq, Heq.
Qed.

Lemma findAgentNameKey_None (a : string) :
  (∀ k, Js.toLowerCase a ≠ Js.toLowerCase (name (PERSONAS k))) →
  findAgentNameKey a = None.
Proof.
  intros Hne. destruct (findAgentNameKey a) as [n|] eqn:E; [|reflexivity].
  apply findAgentNameKey_Some in E as (k & -> & H). destruct (Hne k H).
Qed.

(** What the mention handling hands on: the input as it was or a
    non-empty remainder; and a delegation always has a persona as target. *)
Lemma handleMention_cases (w : World) (userInput : string) :
  match handleMention w userInput with
  | Proceed u => u = userInput ∨ Js.truthy u = true
  | OneOff a p t => ∃ k, t = Own k
  end.
Proof.
  unfold handleMention.
  destruct (mentionMatch userInput) as [[a rest]|]; [|left; reflexivity].
  destruct (bool_decide (stagedFile w = None)); [|left; reflexivity].
  destruct (findAgentNameKey a) as [n|] eqn:E; [|left; reflexivity].
  destruct (Js.truthy (Js.trim rest)) eqn:Et; [|left; reflexivity].
  apply findAgentNameKey_Some in E as (k & -> & _).
  unfold Js.get. rewrite own_persona_name.
  destruct (bool_decide _); [right; exact Et|exists k; reflexivity].
Qed.

Lemma tryTurn_outcome env fuel p k userInput file thinking (w : World) :
  (tryTurn env fuel p k userInput file thinking w).2 = Ok Completed
  ∨ (tryTurn env fuel p k userInput file thinking w).2 = Ok Failed
  ∨ (tryTurn env fuel p k userInput file thinking w).2 = Pending.
Proof.
  unfold tryTurn, bind, gets, modify, finally, try_catch, ret.
  destruct (runProvider _ _ _ _ _ _ _ _) as [w1 [full|e|]]; cbn; auto.
  destruct (finishTurn _ _ _ _ _ _) as [w2 [[]|e|]]; cbn; auto.
Qed.

(** The normal path on an input that passes its guard. *)
Lemma submitTurn_unguarded env fuel userInput (w : World) :
  Js.truthy userInput = true ∨ stagedFile w ≠ None →
  ∃ p k file thinking W,
    submitTurn env fuel userInput w
    = tryTurn env fuel p k userInput file thinking W.
Proof.
  intros Hu. unfold submitTurn, bind, gets, modify. cbn.
  assert (negb (Js.truthy userInput) && bool_decide (stagedFile w = None)
          = false) as ->.
  { destruct Hu as [->|Hs]; [reflexivity|].
    rewrite (bool_decide_eq_false_2 _ Hs). apply andb_false_r. }
  repeat eexists.
Qed.

(** The handler, by its exits. *)
Lemma submit_unfold (env : Env) (fuel : nat) (raw : string) (w : World) :
  submit env fuel raw w
  = if negb (Js.truthy (Js.trim raw)) && bool_decide (stagedFile w = None)
    then (set_chatInput_value raw w, Ok Ignored)
    else match handleMention (set_chatInput_value raw w) (Js.trim raw) with
         | OneOff a p (Own t) =>
             delegateOnce env (Js.trim raw) a p t (set_chatInput_value raw w)
         | OneOff _ _ _ => (set_chatInput_value raw w, Throw TypeError)
         | Proceed u => submitTurn env fuel u (set_chatInput_value raw w)
         end.
Proof.
  unfold submit, handleChatSubmit, bind, gets. cbn.
  destruct (negb _ && _); [reflexivity|].
  destruct (handleMention _ _) as [u|a p [t| |]]; reflexivity.
Qed.

Lemma guard_false (u : string) (w : World) :
  negb (Js.truthy u) && bool_decide (stagedFile w = None) = false
  ↔ Js.truthy u = true ∨ stagedFile w ≠ None.
Proof.
  destruct (Js.truthy u); cbn; [tauto|].
  destruct (stagedFile w) as [f|].
  - rewrite bool_decide_eq_false_2 by discriminate.
    split; [right; discriminate|reflexivity].
  - rewrite bool_decide_eq_true_2 by reflexivity.
    split; [discriminate|]. intros [H|H]; [discriminate H|destruct (H eq_refl)].
Qed.

(** X7. A submission is ignored exactly when the input box holds nothing
    but white space and no file is staged; it then leaves the page as it
    was.  In particular the second guard of the handler, placed after the
    mention handling, never fires on its own: a mention is stripped only
    when something is left of it. *)
Theorem ignored_submission (env : Env) (fuel : nat) (raw : string)
  (w : World) :
  ((submit env fuel raw w).2 = Ok Ignored
   ↔ all_chars Js.is_space raw = true ∧ stagedFile w = None)
  ∧ ((submit env fuel raw w).2 = Ok Ignored →
     (submit env fuel raw w).1 = set_chatInput_value raw w).
Proof.
  rewrite submit_unfold.
  destruct (negb _ && _) eqn:G.
  - apply andb_prop in G as [Ht Hs].
    apply negb_true_iff, truthy_false, trim_blank in Ht.
    apply bool_decide_eq_true_1 in Hs. cbn. tauto.
  - apply guard_false in G.
    assert (¬ (all_chars Js.is_space raw = true ∧ stagedFile w = None)) as Hb.
    { intros [Hb Hs]. apply trim_blank in Hb. rewrite Hb in G.
      destruct G as [G|G]; [discriminate G|exact (G Hs)]. }
    pose proof (handleMention_cases (set_chatInput_value raw w) (Js.trim raw))
      as Hm.
    assert (∀ r : World * Res Outcome, r.2 ≠ Ok Ignored →
              (r.2 = Ok Ignored
               ↔ all_chars Js.is_space raw = true ∧ stagedFile w = None)
              ∧ (r.2 = Ok Ignored → r.1 = set_chatInput_value raw w)) as Hno
      by (intros r Hr; tauto).
    apply Hno. clear Hno.
    destruct (handleMention _ _) as [u|a p t].
    + assert (Js.truthy u = true
              ∨ stagedFile (set_chatInput_value raw w) ≠ None) as Hu.
      { destruct Hm as [->|H]; [exact G|left; exact H]. }
      destruct (submitTurn_unguarded env fuel u _ Hu)
        as (p & k & file & th & W & ->).
      intros H.
      destruct (tryTurn_outcome env fuel p k u file th W) as [Ho|[Ho|Ho]];
        rewrite H in Ho; discriminate Ho.
    + destruct Hm as [k ->].
      rewrite (proj1 (delegateOnce_result env (Js.trim raw) a p k
                        (set_chatInput_value raw w))).
      discriminate.
Qed.

Lemma ignored_submission_witness :
  (submit Sample.env 2 "   " (Sample.world openai Lyra)).2 = Ok Ignored
  ∧ (submit Sample.env 2 "   " (Sample.world openai Lyra)).1
    = set_chatInput_value "   " (Sample.world openai Lyra).
Proof.
  destruct (ignored_submission Sample.env 2 "   " (Sample.world openai Lyra))
    as [Hiff Hw].
  assert ((submit Sample.env 2 "   " (Sample.world openai Lyra)).2
          = Ok Ignored) as H
    by (apply Hiff; split; reflexivity).
  split; [exact H|exact (Hw H)].
Defined.

(** X8. The mentions that the handler leaves alone.  When a file is
    staged, or the input does not begin with a mention, or the mentioned
    name is no persona's display name in any letter case, or nothing but
    white space follows the mention, the submission is the ordinary turn on
    the whole trimmed input, at-sign and name included. *)
Theorem mention_left_alone (env : Env) (fuel : nat) (raw : string)
  (w : World) :
  stagedFile w ≠ None
  ∨ (∀ a rest, mentionMatch (Js.trim raw) = Some (a, rest) →
       (∀ k, Js.toLowerCase a ≠ Js.toLowerCase (name (PERSONAS k)))
       ∨ all_chars Js.is_space rest = true) →
  submit env fuel raw w
  = submitTurn env fuel (Js.trim raw) (set_chatInput_value raw w).
Proof.
  intros H. rewrite submit_unfold.
  destruct (negb _ && _) eqn:G.
  - unfold submitTurn, bind, gets. cbn. rewrite G. reflexivity.
  - assert (handleMention (set_chatInput_value raw w) (Js.trim raw)
            = Proceed (Js.trim raw)) as ->; [|reflexivity].
    destruct H as [Hs|Hm].
    + unfold handleMention. cbn.
      rewrite (bool_decide_eq_false_2 _ Hs).
      destruct (mentionMatch _) as [[]|]; reflexivity.
    + apply handleMention_plain. intros a rest E.
      destruct (Hm a rest E) as [Hk|Hb].
      * left. apply findAgentNameKey_None, Hk.
      * right. apply trim_blank, Hb.
Qed.

Lemma mention_left_alone_witness :
  submit Sample.env 2 "@Nobody hello" (Sample.world openai Lyra)
  = submitTurn Sample.env 2 "@Nobody hello"
      (set_chatInput_value "@Nobody hello" (Sample.world openai Lyra)).
Proof.
  apply (mention_left_alone Sample.env 2 "@Nobody hello"
           (Sample.world openai Lyra)).
  right. intros a rest [= <- <-]. left. intros k. destruct k; discriminate.
Defined.

(** ** The page after a submission *)

Global Instance keeps_page_preorder : PreOrder keeps_page.
Proof.
  split.
  - intros w. repeat split.
  - intros w1 w2 w3 (A1 & A2 & A3 & A4 & A5) (B1 & B2 & B3 & B4 & B5).
    repeat split; congruence.
Qed.

Lemma executeInvokeAgent_keeps_page env a p :
  preserves keeps_page (executeInvokeAgent env a p).
Proof. unfold executeInvokeAgent. frame. Qed.

Lemma runProvider_keeps_page env fuel p k userInput file thinking :
  preserves keeps_page (runProvider env fuel p k userInput file thinking).
Proof.
  apply runProvider_preserves; [typeclasses eauto|..]; try frame_leaf.
  intros a q. apply executeInvokeAgent_keeps_page.
Qed.

Lemma finishTurn_keeps_page env p k thinking fullResponse :
  preserves keeps_page (finishTurn env p k thinking fullResponse).
Proof.
  unfold finishTurn.
  assert (∀ key h, preserves keeps_page (saveHistory env key h)) as Hsave.
  { intros key h w. unfold saveHistory.
    destruct (store_error env); repeat split. }
  frame.
Qed.

(** The [try] statement of a turn: the controls are enabled again once it
    has settled, and nothing else of the page is touched. *)
Lemma tryTurn_page env fuel p k userInput file thinking (w : World) :
  match (tryTurn env fuel p k userInput file thinking w).2 with
  | Pending =>
      keeps_page w (tryTurn env fuel p k userInput file thinking w).1
  | _ =>
      keeps_page (enable_controls w)
        (tryTurn env fuel p k userInput file thinking w).1
  end.
Proof.
  unfold tryTurn, finally.
  match goal with
  | |- context [try_catch ?b ?h w] =>
      assert (preserves keeps_page (try_catch b h)) as Hbody;
      [|specialize (Hbody w); destruct (try_catch b h w) as [w1 r]]
  end.
  { pose proof (runProvider_keeps_page env fuel p k userInput file thinking).
    pose proof (finishTurn_keeps_page env p k thinking).
    frame. }
  cbn in Hbody. destruct Hbody as (A1 & A2 & A3 & A4 & A5).
  destruct r; cbn; repeat split; assumption.
Qed.

(** X9. The page after a submission that is not ignored.  The handler
    never rejects.  Once it has settled, whether the turn completed, failed
    or was a one-off delegation, the controls are enabled again, the input
    box is empty and no file is staged; while the provider has not
    answered, the controls stay disabled.  The selected provider and
    persona are never changed. *)
Theorem page_after_submission (env : Env) (fuel : nat) (raw : string)
  (w : World) :
  modelSelector_value (submit env fuel raw w).1 = modelSelector_value w
  ∧ personaSelector_value (submit env fuel raw w).1 = personaSelector_value w
  ∧ match (submit env fuel raw w).2 with
    | Ok Ignored => True
    | Ok _ =>
        chatInput_value (submit env fuel raw w).1 = ""
        ∧ controls_disabled (submit env fuel raw w).1 = false
        ∧ stagedFile (submit env fuel raw w).1 = None
    | Pending =>
        chatInput_value (submit env fuel raw w).1 = ""
        ∧ controls_disabled (submit env fuel raw w).1 = true
        ∧ stagedFile (submit env fuel raw w).1 = None
    | Throw _ => False
    end.
Proof.
  rewrite submit_unfold.
  destruct (negb (Js.truthy (Js.trim raw))
            && bool_decide (stagedFile w = None)) eqn:G; [cbn; auto|].
  pose proof (handleMention_cases (set_chatInput_value raw w) (Js.trim raw))
    as Hm.
  destruct (handleMention _ _) as [u|a p t] eqn:Em.
  - unfold submitTurn, bind, gets, modify.
    change (stagedFile (set_chatInput_value raw w)) with (stagedFile w).
    cbv beta iota.
    destruct (negb (Js.truthy u) && bool_decide (stagedFile w = None));
      [cbn; auto|].
    destruct (Js.truthy u); destruct (stagedFile w) as [staged|]; cbn.
    all: match goal with
    | |- context [tryTurn ?e ?n ?p ?k ?x ?f ?th ?W] =>
        pose proof (tryTurn_page e n p k x f th W) as Hp;
        pose proof (tryTurn_outcome e n p k x f th W) as Ho;
        destruct (tryTurn e n p k x f th W) as [w' r]
    end.
    all: cbn in Hp, Ho |- *.
    all: destruct Ho as [->|[->| ->]];
      destruct Hp as (A1 & A2 & A3 & A4 & A5);
      cbn in A1, A2, A3, A4, A5; auto.
  - destruct Hm as [k ->].
    assert (stagedFile w = None) as Hs.
    { unfold handleMention in Em. cbn in Em.
      destruct (mentionMatch _) as [[]|]; [|discriminate Em].
      destruct (stagedFile w); [|reflexivity].
      rewrite bool_decide_eq_false_2 in Em by discriminate.
      discriminate Em. }
    pose proof (delegateOnce_result env (Js.trim raw) a p k
                  (set_chatInput_value raw w)) as [Hr _].
    rewrite Hr.
    unfold delegateOnce, bind, gets, modify, finally, try_catch, ret in Hr |- *.
    cbn in Hr |- *.
    match goal with
    | |- context [executeInvokeAgent env a p ?W] =>
        pose proof (executeInvokeAgent_keeps_page env a p W) as Hp;
        destruct (executeInvokeAgent env a p W) as [w' [s|e|]]
    end; cbn in Hp, Hr |- *; try discriminate Hr;
      destruct Hp as (A1 & A2 & A3 & A4 & A5); cbn in A3; auto.
    all: repeat split; try assumption; congruence.
Qed.

(** ** The display after a turn *)

Global Instance only_slot_preorder (i : nat) : PreOrder (only_slot i).
Proof.
  split.
  - intros w l m Hl _. exists m. auto.
  - intros w1 w2 w3 H12 H23 l m Hl Hi.
    destruct (H12 l m Hl Hi) as (m' & Hl' & A1 & A2 & A3).
    destruct (H23 l m' Hl' Hi) as (m'' & Hl'' & B1 & B2 & B3).
    exists m''. repeat split; congruence.
Qed.

Lemma alter_last {A} (f : A → A) (l : list A) (m : A) :
  alter f (length l) (l ++ [m]) = l ++ [f m].
Proof. induction l as [|x l IH]; cbn; [reflexivity|]. f_equal. exact IH. Qed.

Lemma delete_last {A} (l : list A) (m : A) :
  delete (length l) (l ++ [m]) = l.
Proof. induction l as [|x l IH]; cbn; [reflexivity|]. f_equal. exact IH. Qed.

Lemma only_slot_same (i : nat) (w w' : World) :
  chatContainer w' = chatContainer w → only_slot i w w'.
Proof. intros E l m Hl _. exists m. rewrite E. auto. Qed.

Lemma only_slot_text (i : nat) (s : string) (w : World) :
  only_slot i w (set_textContent i s w).
Proof.
  intros l m Hl <-. unfold set_textContent, update_message. cbn.
  rewrite Hl, alter_last. eexists. split; [reflexivity|]. auto.
Qed.

Global Hint Extern 1 (only_slot _ _ _) =>
  apply only_slot_same; reflexivity : frame.
Global Hint Resolve only_slot_text : frame.

Lemma executeInvokeAgent_only_slot env i a p :
  preserves (only_slot i) (executeInvokeAgent env a p).
Proof. unfold executeInvokeAgent. frame. Qed.

Lemma runProvider_only_slot env fuel p k userInput file thinking :
  preserves (only_slot thinking)
    (runProvider env fuel p k userInput file thinking).
Proof.
  apply runProvider_preserves; [typeclasses eauto|..]; try frame_leaf.
  intros a q. apply executeInvokeAgent_only_slot.
Qed.

(** The entry that reports a failure replaces the entry of the answer. *)
Lemma catch_display (pfx cls msg : string) (l : list DisplayMessage)
  (m : DisplayMessage) (w : World) :
  chatContainer w = l ++ [m] →
  chatContainer (appendText pfx cls msg (remove_message (length l) w))
  = l ++ [mkDisplayMessage pfx cls [DText msg] false].
Proof.
  intros Hl. unfold appendText, appendMessage, remove_message,
    set_textContent, update_message. cbn.
  rewrite Hl, delete_last, alter_last. reflexivity.
Qed.

Lemma finishTurn_display env p k (full : string) (l : list DisplayMessage)
  (m : DisplayMessage) (w : World) :
  chatContainer w = l ++ [m] →
  chatContainer (finishTurn env p k (length l) full w).1
  = l ++ [mkDisplayMessage (dm_prefix m) (dm_class m) [DText full] false].
Proof.
  intros Hl.
  unfold finishTurn, saveHistory, bind, modify, gets, ret, throw,
    set_thinking, set_textContent, update_message. cbn.
  destruct (bool_decide (p = gemini)); cbn;
    [destruct (geminiChat w); cbn|];
    destruct (store_error env); cbn;
    rewrite Hl, !alter_last; reflexivity.
Qed.

Lemma finishTurn_settles env p k thinking full (w : World) :
  (finishTurn env p k thinking full w).2 ≠ Pending.
Proof.
  unfold finishTurn, saveHistory, bind, modify, gets, ret, throw. cbn.
  destruct (bool_decide (p = gemini)); cbn;
    [destruct (geminiChat w); cbn|];
    destruct (store_error env); cbn; discriminate.
Qed.

Lemma tryTurn_display env fuel p k userInput file (l : list DisplayMessage)
  (m : DisplayMessage) (w : World) :
  chatContainer w = l ++ [m] →
  let r := tryTurn env fuel p k userInput file (length l) w in
  match r.2 with
  | Ok Completed =>
      ∃ answer, chatContainer r.1
                = l ++ [mkDisplayMessage (dm_prefix m) (dm_class m)
                          [DText answer] false]
  | Ok Failed =>
      ∃ e, chatContainer r.1
           = l ++ [mkDisplayMessage "SYSTEM_ERROR>" "error-message"
                     [DText ("Error: " +:+ e)] false]
  | Pending =>
      ∃ m', chatContainer r.1 = l ++ [m']
            ∧ dm_prefix m' = dm_prefix m ∧ dm_class m' = dm_class m
            ∧ dm_thinking m' = dm_thinking m
  | _ => False
  end.
Proof.
  intros Hl r. subst r.
  unfold tryTurn, finally, try_catch, bind, modify, ret.
  pose proof (runProvider_only_slot env fuel p k userInput file (length l) w
                l m Hl eq_refl) as (m' & Hl' & A1 & A2 & A3).
  destruct (runProvider _ _ _ _ _ _ _ _) as [w1 [full|e|]]; cbn in Hl' |- *.
  - pose proof (finishTurn_display env p k full l m' w1 Hl') as Hd.
    pose proof (finishTurn_settles env p k (length l) full w1) as Hs.
    destruct (finishTurn _ _ _ _ _ _) as [w2 [[]|e|]]; cbn in Hd, Hs |- *.
    + exists full. rewrite Hd, A1, A2. reflexivity.
    + exists (Js.errorMessage e).
      apply (catch_display _ _ _ l _ _ Hd).
    + destruct (Hs eq_refl).
  - exists (Js.errorMessage e). apply (catch_display _ _ _ l m' _ Hl').
  - exists m'. auto.
Qed.

(** X10. What a turn shows.  A submission that goes on to the provider
    (after the mention handling has let it pass as [u]) adds exactly two
    entries to the chat and changes none of the earlier ones: the user's
    message (the staged image, then the text) and, after it, one entry
    that is the answer under the persona's prefix when the turn completes,
    the [SYSTEM_ERROR] entry (in place of the answer's) when it fails, and
    the persona's entry still marked as thinking while the provider has not
    answered. *)
Theorem display_after_turn (env : Env) (fuel : nat) (raw u : string)
  (w : World) :
  Js.truthy (Js.trim raw) = true ∨ stagedFile w ≠ None →
  handleMention w (Js.trim raw) = Proceed u →
  ∃ m, chatContainer (submit env fuel raw w).1
       = chatContainer w ++ [user_message u (stagedFile w); m]
     ∧ match (submit env fuel raw w).2 with
       | Ok Completed =>
           ∃ answer, m = mkDisplayMessage (persona_prefix w) ""
                           [DText answer] false
       | Ok Failed =>
           ∃ e, m = mkDisplayMessage "SYSTEM_ERROR>" "error-message"
                      [DText ("Error: " +:+ e)] false
       | Pending =>
           dm_prefix m = persona_prefix w ∧ dm_class m = ""
           ∧ dm_thinking m = true
       | _ => False
       end.
Proof.
  intros Hg Hm. rewrite submit_unfold.
  rewrite (proj2 (guard_false (Js.trim raw) w) Hg).
  rewrite handleMention_input, Hm.
  assert (Js.truthy u = true ∨ stagedFile w ≠ None) as Hu.
  { pose proof (handleMention_cases w (Js.trim raw)) as Hc.
    rewrite Hm in Hc. destruct Hc as [->|H]; auto. }
  apply guard_false in Hu.
  unfold submitTurn, bind, gets, modify.
  change (stagedFile (set_chatInput_value raw w)) with (stagedFile w).
  cbv beta iota. rewrite Hu. cbv beta iota.
  destruct (Js.truthy u) eqn:Et; destruct (stagedFile w) as [staged|] eqn:Es;
    cbn.
  all: rewrite ?alter_last; cbn.
  all: match goal with
       | |- context [tryTurn ?e ?n ?p ?k ?x ?f (length ?l) ?W] =>
           assert (∃ m, chatContainer W = l ++ [m]
                        ∧ dm_prefix m = persona_prefix w ∧ dm_class m = ""
                        ∧ dm_thinking m = true) as (tm & Hl & T1 & T2 & T3);
           [cbn; rewrite alter_last; eexists; split; [reflexivity|];
            repeat split
           |pose proof (tryTurn_display e n p k x f l tm W Hl) as Hd;
            cbv zeta in Hd;
            destruct (tryTurn e n p k x f (length l) W) as [w' r]]
       end.
  all: unfold user_message; rewrite ?Et; cbn in Hd |- *.
  all: destruct r as [[]|e|]; try contradiction.
  all: try (destruct Hd as (x & Hd & A1 & A2 & A3);
            rewrite Hd, <- app_assoc; cbn;
            eexists; (split; [reflexivity|]); repeat split; congruence).
  all: destruct Hd as (x & Hd); rewrite Hd, <- app_assoc; cbn;
    eexists; (split; [reflexivity|]); eexists; rewrite ?T1, ?T2; reflexivity.
Qed.

Lemma display_after_turn_witness :
  ∃ m, chatContainer (submit Sample.env 2 "hello"
                        (Sample.world openai Lyra)).1
       = [user_message "hello" None; m]
     ∧ match (submit Sample.env 2 "hello" (Sample.world openai Lyra)).2 with
       | Ok Completed =>
           ∃ answer, m = mkDisplayMessage "LYRA>" "" [DText answer] false
       | Ok Failed =>
           ∃ e, m = mkDisplayMessage "SYSTEM_ERROR>" "error-message"
                      [DText ("Error: " +:+ e)] false
       | Pending =>
           dm_prefix m = "LYRA>" ∧ dm_class m = "" ∧ dm_thinking m = true
       | _ => False
       end.
Proof.
  apply (display_after_turn Sample.env 2 "hello" "hello"
           (Sample.world openai Lyra)).
  - left. reflexivity.
  - reflexivity.
Defined.

(** ** The loops have no round limit *)

Lemma openai_delegation_Some env (s : Stream OpenAIChunk) (a p : string) :
  openai_delegation env s = Some (a, p) →
  failure s = None
  ∧ ∃ call rest, openai_calls (chunks s) = Some (call :: rest)
                 ∧ decode_args (JSON_parse env (tc_arguments call))
                   = Some (a, p).
Proof.
  unfold openai_delegation.
  destruct (openai_calls (chunks s)) as [[|call rest]|]; try discriminate.
  destruct (failure s); [discriminate|]. eauto.
Qed.

Lemma gemini_delegation_Some (s : Stream GeminiChunk) (a p : string) :
  gemini_delegation s = Some (a, p) →
  failure s = None
  ∧ ∃ call rest, gemini_calls (chunks s) = call :: rest
                 ∧ decode_args (fc_args call) = Some (a, p).
Proof.
  unfold gemini_delegation.
  destruct (failure s); [discriminate|].
  destruct (gemini_calls (chunks s)) as [|call rest]; [discriminate|]. eauto.
Qed.

Lemma openaiLoop_unbounded env selectedPersonaName thinking tools fuel :
  openai_always_calls env →
  ∀ round w,
    (openaiLoop env selectedPersonaName thinking tools fuel round w).2
    = Pending
    ∧ length (executions
                (openaiLoop env selectedPersonaName thinking tools fuel
                   round w).1)
      = length (executions w) + fuel.
Proof.
  intros Hall. induction fuel as [|fuel IH]; intros round w.
  - split; [reflexivity|]. symmetry. apply Nat.add_0_r.
  - rewrite openaiLoop_S. unfold bind.
    destruct (Hall round) as (a & p & Hd & Hinh).
    pose proof (openaiRound_executions env selectedPersonaName thinking round
                  tools w) as He. rewrite Hd in He.
    apply openai_delegation_Some in Hd as (Hf & call & rest & Hc & Hdec).
    destruct (openaiRound_calls env selectedPersonaName thinking round tools w
                call rest Hf Hc) as (_ & _ & _ & Hres).
    specialize (Hres a p Hdec Hinh).
    destruct (openaiRound _ _ _ _ _ _) as [w1 r]. cbn in He, Hres. subst r.
    cbv beta iota. destruct (IH (S round) w1) as [-> ->].
    split; [reflexivity|]. rewrite He, List.length_app. cbn. lia.
Qed.

Lemma geminiLoop_unbounded env selectedPersonaName thinking tools fuel :
  gemini_always_calls env →
  ∀ round message w,
    is_Some (geminiChat w) →
    (geminiLoop env selectedPersonaName thinking tools fuel round message w).2
    = Pending
    ∧ length (executions
                (geminiLoop env selectedPersonaName thinking tools fuel
                   round message w).1)
      = length (executions w) + fuel.
Proof.
  intros Hall. induction fuel as [|fuel IH]; intros round message w Hchat.
  - split; [reflexivity|]. symmetry. apply Nat.add_0_r.
  - rewrite geminiLoop_S. unfold bind.
    destruct (Hall round) as (a & p & Hd & Hinh).
    pose proof (geminiRound_executions env selectedPersonaName thinking round
                  tools message w Hchat) as He. rewrite Hd in He.
    pose proof (geminiRound_keeps_chat env selectedPersonaName thinking round
                  tools message w Hchat) as Hk.
    apply gemini_delegation_Some in Hd as (Hf & call & rest & Hc & Hdec).
    destruct (geminiRound_call env selectedPersonaName thinking round tools
                message w call rest a p Hchat Hf Hc Hdec Hinh) as [next Hres].
    destruct (geminiRound _ _ _ _ _ _ _) as [w1 r]. cbn in He, Hres, Hk.
    subst r. cbv beta iota. destruct (IH (S round) next w1 Hk) as [-> ->].
    split; [reflexivity|]. rewrite He, List.length_app. cbn. lia.
Qed.

(** X11. Neither tool-call loop bounds the number of its rounds.  With a
    provider that asks for a delegation in every round, a loop that is
    given [fuel] rounds has run the executor [fuel] times and has not
    returned: whatever the number of rounds, it is not enough. *)
Theorem loops_have_no_round_limit (env : Env) (fuel : nat) (p : Provider)
  (k : PersonaKey) (userInput : string) (file : option File)
  (thinking : nat) (w : World) :
  encodable file →
  match p with
  | gemini => ai env = true ∧ is_Some (geminiChat w)
              ∧ gemini_always_calls env
  | openai => openai_client env = true ∧ is_Some (openAIMessages w)
              ∧ openai_always_calls env
  end →
  (runProvider env fuel p k userInput file thinking w).2 = Pending
  ∧ length (executions
              (runProvider env fuel p k userInput file thinking w).1)
    = length (executions w) + fuel.
Proof.
  intros Hfile Hp. destruct p.
  - destruct Hp as (Hai & Hchat & Hall).
    assert (runProvider env fuel gemini k userInput file thinking w
            = geminiLoop env (name (PERSONAS k)) thinking (getTools k) fuel 0
                (geminiContentRequest userInput (encoded file)) w) as ->.
    { unfold runProvider, bind at 1.
      rewrite (fileToBase64_encoded file w Hfile).
      rewrite bool_decide_eq_true_2 by reflexivity. rewrite Hai. cbn [andb].
      unfold bind, gets. destruct Hchat as [c ->]. reflexivity. }
    apply geminiLoop_unbounded; assumption.
  - destruct Hp as (Hcl & [msgs Hm] & Hall).
    assert (runProvider env fuel openai k userInput file thinking w
            = openaiLoop env (name (PERSONAS k)) thinking (getTools k) fuel 0
                (push_message
                   (UserMessage (openaiUserContent userInput (encoded file)))
                   w)) as ->.
    { unfold runProvider, bind at 1.
      rewrite (fileToBase64_encoded file w Hfile).
      rewrite bool_decide_eq_false_2 by discriminate.
      rewrite bool_decide_eq_true_2 by reflexivity. rewrite Hcl. cbn [andb].
      unfold bind, gets, modify. rewrite Hm. reflexivity. }
    match goal with
    | |- context [openaiLoop ?e ?n ?t ?tools fuel 0 ?W] =>
        destruct (openaiLoop_unbounded e n t tools fuel Hall 0 W) as [-> ->]
    end.
    split; reflexivity.
Qed.

Lemma loops_have_no_round_limit_witness :
  let env :=
    mkEnv true true (fun _ => Sample.gemini_script 0)
      (fun _ => Sample.openai_script 0)
      (fun h m s => h) (fun sp p => inr p) (fun sp p => inr (Some p))
      Sample.parse None Sample.provider_label in
  (runProvider env 5 openai Lyra "hello" None 1
     (Sample.world openai Lyra)).2 = Pending
  ∧ length (executions
              (runProvider env 5 openai Lyra "hello" None 1
                 (Sample.world openai Lyra)).1) = 5.
Proof.
  intros env.
  apply (loops_have_no_round_limit env 5 openai Lyra "hello" None 1
           (Sample.world openai Lyra)).
  - intros f e [=].
  - split; [reflexivity|]. split; [eexists; reflexivity|].
    intros n. exists "Kara", "check this". split; reflexivity.
Defined.

(** ** A turn without delegation *)

Lemma runProvider_openai_one_round env fuel k userInput file thinking w
  (msgs : ChatHistory) :
  1 ≤ fuel →
  openai_client env = true →
  openAIMessages w = Some msgs →
  encodable file →
  failure (openai_stream env 0) = None →
  openai_calls (chunks (openai_stream env 0)) = Some [] →
  ∃ w1,
    runProvider env fuel openai k userInput file thinking w
    = (w1, Ok (openai_text (chunks (openai_stream env 0))))
    ∧ openAIMessages w1
      = Some (msgs
              ++ [OpenAIMsg (UserMessage
                    (openaiUserContent userInput (encoded file)));
                  OpenAIMsg (AssistantMessage
                    (Some (openai_text (chunks (openai_stream env 0))))
                    None)])
    ∧ executions w1 = executions w.
Proof.
  intros Hfuel Hclient Hmsgs Hfile Hf0 Hc0.
  destruct fuel as [|fuel]; [lia|].
  unfold runProvider, bind at 1. rewrite (fileToBase64_encoded file w Hfile).
  rewrite bool_decide_eq_false_2 by discriminate.
  rewrite bool_decide_eq_true_2 by reflexivity. rewrite Hclient.
  cbn [andb]. unfold bind, gets, modify. rewrite Hmsgs. cbv beta iota.
  rewrite openaiLoop_S. unfold bind.
  match goal with
  | |- context [openaiRound env ?n ?t 0 ?tools ?v] =>
      destruct (openaiRound_text env n t 0 tools v Hf0 Hc0) as [Hres Hm];
      pose proof (openaiRound_executions env n t 0 tools v) as He;
      destruct (openaiRound env n t 0 tools v) as [w1 r]
  end.
  cbn in Hres, Hm, He. subst r.
  unfold openai_delegation in He. rewrite Hc0 in He. cbn in He.
  rewrite app_nil_r in He.
  exists w1. split; [reflexivity|]. split; [|exact He].
  rewrite Hm. cbn. rewrite Hmsgs. cbn. rewrite <- app_assoc. reflexivity.
Qed.

Lemma runProvider_gemini_one_round env fuel k userInput file thinking w :
  1 ≤ fuel →
  ai env = true →
  is_Some (geminiChat w) →
  encodable file →
  failure (gemini_stream env 0) = None →
  gemini_calls (chunks (gemini_stream env 0)) = [] →
  ∃ w1,
    runProvider env fuel gemini k userInput file thinking w
    = (w1, Ok (gemini_text (chunks (gemini_stream env 0))))
    ∧ is_Some (geminiChat w1)
    ∧ executions w1 = executions w.
Proof.
  intros Hfuel Hai Hchat Hfile Hf0 Hc0.
  destruct fuel as [|fuel]; [lia|].
  unfold runProvider, bind at 1. rewrite (fileToBase64_encoded file w Hfile).
  rewrite bool_decide_eq_true_2 by reflexivity. rewrite Hai.
  cbn [andb]. unfold bind, gets. destruct Hchat as [chat Hchat].
  rewrite Hchat. cbv beta iota. rewrite geminiLoop_S. unfold bind.
  assert (is_Some (geminiChat w)) as Hsome by (rewrite Hchat; eauto).
  match goal with
  | |- context [geminiRound env ?n ?t 0 ?tools ?m w] =>
      pose proof (geminiRound_text env n t 0 tools m w Hsome Hf0 Hc0)
        as Hres;
      pose proof (geminiRound_executions env n t 0 tools m w Hsome) as He;
      pose proof (geminiRound_keeps_chat env n t 0 tools m w Hsome) as Hk;
      destruct (geminiRound env n t 0 tools m w) as [w1 r]
  end.
  cbn in Hres, He, Hk. subst r.
  unfold gemini_delegation in He. rewrite Hf0, Hc0 in He. cbn in He.
  rewrite app_nil_r in He.
  exists w1. split; [reflexivity|]. split; [exact Hk|exact He].
Qed.

(** X12. The plain turn.  When the provider's first round ends well and
    asks for no tool, a turn on a working store, given at least one round,
    completes: the executor is not entered, the answer displayed in the
    turn's slot is the text of that round, and with OpenAI the record saved
    under the session key is the transcript as it was, followed by the
    user's message and the assistant's answer. *)
Theorem plain_turn (env : Env) (fuel : nat) (userInput : string)
  (w : World) :
  1 ≤ fuel →
  store_error env = None →
  Js.truthy userInput = true ∨ is_Some (stagedFile w) →
  encodable (stagedFile w) →
  match modelSelector_value w with
  | gemini => ai env = true ∧ is_Some (geminiChat w)
              ∧ failure (gemini_stream env 0) = None
              ∧ gemini_calls (chunks (gemini_stream env 0)) = []
  | openai => openai_client env = true ∧ is_Some (openAIMessages w)
              ∧ failure (openai_stream env 0) = None
              ∧ openai_calls (chunks (openai_stream env 0)) = Some []
  end →
  (submitTurn env fuel userInput w).2 = Ok Completed
  ∧ executions (submitTurn env fuel userInput w).1 = executions w
  ∧ chatContainer (submitTurn env fuel userInput w).1 !! thinking_slot w
    = Some (mkDisplayMessage (persona_prefix w) ""
              [DText (round_text env (modelSelector_value w) 0)] false)
  ∧ (modelSelector_value w = openai →
     stored (submitTurn env fuel userInput w).1
       (sessionKey openai (personaSelector_value w))
     = Some (default [] (openAIMessages w)
             ++ [OpenAIMsg (UserMessage
                   (openaiUserContent userInput (encoded (stagedFile w))));
                 OpenAIMsg (AssistantMessage
                   (Some (round_text env openai 0)) None)])).
Proof.
  intros Hfuel Hok Hguard Hfile Hscript.
  destruct (submitTurn_start env fuel userInput w Hguard)
    as (W0 & -> & Hstore & Hputs & Hex & Hmsgs & Hchat & Hsel & Hslot).
  pose proof (runProvider_keeps_slot env (thinking_slot w) fuel
                (modelSelector_value w) (personaSelector_value w) userInput
                (stagedFile w) (thinking_slot w) W0) as Hkeep.
  destruct Hslot as (m & Hm & Hp & Hc).
  destruct (modelSelector_value w) eqn:Hprov.
  - destruct Hscript as (Hai & Hsome & Hf0 & Hc0).
    rewrite <- Hchat in Hsome.
    destruct (runProvider_gemini_one_round env fuel (personaSelector_value w)
                userInput (stagedFile w) (thinking_slot w) W0
                Hfuel Hai Hsome Hfile Hf0 Hc0)
      as (w1 & Hrun & Hsome1 & Hex1).
    rewrite Hrun in Hkeep. cbn in Hkeep.
    destruct (Hkeep m Hm) as (m' & Hm' & Hp' & Hc').
    destruct (tryTurn_completes env fuel gemini (personaSelector_value w)
                userInput (stagedFile w) (thinking_slot w) W0 w1 _
                (persona_prefix w) "" Hrun Hok (fun _ => Hsome1))
      as (w' & -> & Hex' & _ & _ & Hshow).
    { exists m'. repeat split; congruence. }
    cbn. repeat split; [congruence|exact Hshow|discriminate].
  - destruct Hscript as (Hcl & [msgs Hsome] & Hf0 & Hc0).
    pose proof Hsome as Hsome0. rewrite <- Hmsgs in Hsome.
    destruct (runProvider_openai_one_round env fuel (personaSelector_value w)
                userInput (stagedFile w) (thinking_slot w) W0 msgs
                Hfuel Hcl Hsome Hfile Hf0 Hc0)
      as (w1 & Hrun & Hm1 & Hex1).
    rewrite Hrun in Hkeep. cbn in Hkeep.
    destruct (Hkeep m Hm) as (m' & Hm' & Hp' & Hc').
    destruct (tryTurn_completes env fuel openai (personaSelector_value w)
                userInput (stagedFile w) (thinking_slot w) W0 w1 _
                (persona_prefix w) "" Hrun Hok ltac:(discriminate))
      as (w' & -> & Hex' & _ & Hsaved & Hshow).
    { exists m'. repeat split; congruence. }
    cbn. repeat split; [congruence|exact Hshow|].
    intros _. rewrite Hsaved, Hm1, Hsome0. reflexivity.
Qed.

Lemma plain_turn_witness :
  let env :=
    mkEnv true true (fun _ => Sample.gemini_script 1)
      (fun _ => Sample.openai_script 1)
      (fun h m s => h) (fun sp p => inr p) (fun sp p => inr (Some p))
      Sample.parse None Sample.provider_label in
  let w := Sample.world openai Lyra in
  (submitTurn env 1 "hello" w).2 = Ok Completed
  ∧ executions (submitTurn env 1 "hello" w).1 = []
  ∧ chatContainer (submitTurn env 1 "hello" w).1 !! 1
    = Some (mkDisplayMessage "LYRA>" "" [DText "Done."] false)
  ∧ stored (submitTurn env 1 "hello" w).1 "openai-Lyra"
    = Some [OpenAIMsg (SystemMessage (generateSystemPrompt Lyra));
            OpenAIMsg (UserMessage (ContentString "hello"));
            OpenAIMsg (AssistantMessage (Some "Done.") None)].
Proof.
  intros env w.
  destruct (plain_turn env 1 "hello" w) as (H1 & H2 & H3 & H4).
  - lia.
  - reflexivity.
  - left. reflexivity.
  - intros f e [=].
  - repeat split. eexists. reflexivity.
  - split; [exact H1|]. split; [exact H2|]. split; [exact H3|].
    exact (H4 eq_refl).
Defined.

(** ** When the save fails *)

Lemma tryTurn_save_fails env fuel p k userInput file thinking W0 w1
  (full : string) (e : Thrown) :
  runProvider env fuel p k userInput file thinking W0 = (w1, Ok full) →
  store_error env = Some e →
  (p = gemini → is_Some (geminiChat w1)) →
  ∃ w',
    tryTurn env fuel p k userInput file thinking W0 = (w', Ok Failed)
    ∧ store w' = store w1
    ∧ openAIMessages w' = openAIMessages w1
    ∧ geminiChat w' = geminiChat w1
    ∧ last (orchestrationLog w')
      = Some (log_error, "SYSTEM ERROR: " +:+ Js.errorMessage e).
Proof.
  intros Hrun Herr Hchat.
  unfold tryTurn, finally, try_catch, bind. rewrite Hrun.
  unfold finishTurn, bind, modify, gets, ret, saveHistory. cbn. rewrite Herr.
  destruct p.
  - rewrite bool_decide_eq_true_2 by reflexivity. cbn.
    destruct (Hchat eq_refl) as [c Hc]. rewrite Hc. cbn.
    eexists. split; [reflexivity|]. cbn. rewrite last_snoc. rewrite Hc. auto.
  - rewrite bool_decide_eq_false_2 by discriminate. cbn.
    eexists. split; [reflexivity|]. cbn. rewrite last_snoc. auto.
Qed.

(** X13. A failing save turns an answered turn into a failed one.  Let the
    provider's first round end well without a tool call, and let the store
    reject the request with [e].  Then the turn ends in the [catch] block:
    the store is what it was, the last log line reports [e], and yet the
    live context has the exchange; with OpenAI the transcript in memory is
    the former one followed by the user's message and the assistant's
    answer, which no stored record holds. *)
Theorem failed_save_fails_turn (env : Env) (fuel : nat) (userInput : string)
  (w : World) (e : Thrown) :
  1 ≤ fuel →
  store_error env = Some e →
  Js.truthy userInput = true ∨ is_Some (stagedFile w) →
  encodable (stagedFile w) →
  match modelSelector_value w with
  | gemini => ai env = true ∧ is_Some (geminiChat w)
              ∧ failure (gemini_stream env 0) = None
              ∧ gemini_calls (chunks (gemini_stream env 0)) = []
  | openai => openai_client env = true ∧ is_Some (openAIMessages w)
              ∧ failure (openai_stream env 0) = None
              ∧ openai_calls (chunks (openai_stream env 0)) = Some []
  end →
  (submitTurn env fuel userInput w).2 = Ok Failed
  ∧ store (submitTurn env fuel userInput w).1 = store w
  ∧ last (orchestrationLog (submitTurn env fuel userInput w).1)
    = Some (log_error, "SYSTEM ERROR: " +:+ Js.errorMessage e)
  ∧ (modelSelector_value w = openai →
     openAIMessages (submitTurn env fuel userInput w).1
     = Some (default [] (openAIMessages w)
             ++ [OpenAIMsg (UserMessage
                   (openaiUserContent userInput (encoded (stagedFile w))));
                 OpenAIMsg (AssistantMessage
                   (Some (round_text env openai 0)) None)])).
Proof.
  intros Hfuel Herr Hguard Hfile Hscript.
  destruct (submitTurn_start env fuel userInput w Hguard)
    as (W0 & -> & Hstore & Hputs & Hex & Hmsgs & Hchat & Hsel & Hslot).
  pose proof (runProvider_keeps_store env false fuel
                (modelSelector_value w) (personaSelector_value w) userInput
                (stagedFile w) (thinking_slot w) W0) as [Hkeep _].
  destruct (modelSelector_value w) eqn:Hprov.
  - destruct Hscript as (Hai & Hsome & Hf0 & Hc0).
    rewrite <- Hchat in Hsome.
    destruct (runProvider_gemini_one_round env fuel (personaSelector_value w)
                userInput (stagedFile w) (thinking_slot w) W0
                Hfuel Hai Hsome Hfile Hf0 Hc0)
      as (w1 & Hrun & Hsome1 & Hex1).
    rewrite Hrun in Hkeep. cbn in Hkeep.
    destruct (tryTurn_save_fails env fuel gemini (personaSelector_value w)
                userInput (stagedFile w) (thinking_slot w) W0 w1 _ e
                Hrun Herr (fun _ => Hsome1))
      as (w' & -> & Hs & _ & _ & Hlog).
    cbn. split; [reflexivity|]. split; [congruence|].
    split; [exact Hlog|discriminate].
  - destruct Hscript as (Hcl & [msgs Hsome] & Hf0 & Hc0).
    pose proof Hsome as Hsome0. rewrite <- Hmsgs in Hsome.
    destruct (runProvider_openai_one_round env fuel (personaSelector_value w)
                userInput (stagedFile w) (thinking_slot w) W0 msgs
                Hfuel Hcl Hsome Hfile Hf0 Hc0)
      as (w1 & Hrun & Hm1 & Hex1).
    rewrite Hrun in Hkeep. cbn in Hkeep.
    destruct (tryTurn_save_fails env fuel openai (personaSelector_value w)
                userInput (stagedFile w) (thinking_slot w) W0 w1 _ e
                Hrun Herr ltac:(discriminate))
      as (w' & -> & Hs & Hm' & _ & Hlog).
    cbn. split; [reflexivity|]. split; [congruence|].
    split; [exact Hlog|]. intros _. rewrite Hm', Hm1, Hsome0. reflexivity.
Qed.

Lemma failed_save_fails_turn_witness :
  let env :=
    mkEnv true true (fun _ => Sample.gemini_script 1)
      (fun _ => Sample.openai_script 1)
      (fun h m s => h) (fun sp p => inr p) (fun sp p => inr (Some p))
      Sample.parse (Some (ThrownError "QuotaExceededError"))
      Sample.provider_label in
  let w := Sample.world openai Lyra in
  (submitTurn env 1 "hello" w).2 = Ok Failed
  ∧ store (submitTurn env 1 "hello" w).1 = store w
  ∧ openAIMessages (submitTurn env 1 "hello" w).1
    = Some [OpenAIMsg (SystemMessage (generateSystemPrompt Lyra));
            OpenAIMsg (UserMessage (ContentString "hello"));
            OpenAIMsg (AssistantMessage (Some "Done.") None)].
Proof.
  intros env w.
  destruct (failed_save_fails_turn env 1 "hello" w
              (ThrownError "QuotaExceededError")) as (H1 & H2 & _ & H4).
  - lia.
  - reflexivity.
  - left. reflexivity.
  - intros f e [=].
  - repeat split. eexists. reflexivity.
  - split; [exact H1|]. split; [exact H2|]. exact (H4 eq_refl).
Defined.

(** ** Reassembling streamed tool calls *)

(** X14. How a streamed tool call is put together.  A delta whose index is
    the number of calls seen so far opens a new call with that delta's id
    and name; the deltas that follow with the same index only add to its
    arguments, whatever id or name they carry: the arguments of the call
    are the fragments of all these deltas joined in emission order, and the
    calls seen before are untouched. *)
Theorem tool_call_fragments_are_joined (tcs : list ToolCall)
  (d : ToolCallDelta) (ds : list ToolCallDelta) :
  d_index d = length tcs →
  Forall (fun d' => d_index d' = length tcs) ds →
  applyDeltas tcs (d :: ds)
  = Some (tcs ++ [mkToolCall (d_id d) (d_name d)
                    (concat_strings
                       (map (fun d' => default "" (d_arguments d'))
                          (d :: ds)))]).
Proof.
  intros Hd Hds. cbn [applyDeltas map].
  assert (applyDelta tcs d
          = Some (tcs ++ [mkToolCall (d_id d) (d_name d)
                            (default "" (d_arguments d))])) as ->.
  { unfold applyDelta. rewrite Hd, Nat.eqb_refl.
    destruct (d_arguments d) as [a|]; cbn [default]; [|reflexivity].
    destruct a as [|x a]; cbn [Js.truthy]; [reflexivity|].
    rewrite lookup_snoc_length, insert_snoc_length. reflexivity. }
  rewrite (applyDeltas_fragments tcs ds Hds). reflexivity.
Qed.

Lemma tool_call_fragments_are_joined_witness :
  applyDeltas []
    [mkToolCallDelta 0 (Some "call_a") (Some "invokeAgent") (Some "{");
     mkToolCallDelta 0 None None (Some "x");
     mkToolCallDelta 0 None None None;
     mkToolCallDelta 0 (Some "other") None (Some "}")]
  = Some [mkToolCall (Some "call_a") (Some "invokeAgent") "{x}"].
Proof.
  apply (tool_call_fragments_are_joined []
           (mkToolCallDelta 0 (Some "call_a") (Some "invokeAgent") (Some "{"))).
  - reflexivity.
  - repeat constructor.
Defined.

(** X15. When reading a delta raises.  Reading a delta fails (a
    [TypeError], which ends the turn in the [catch] block) exactly when it
    carries a non-empty piece of arguments for an index beyond the next new
    call; a delta for such an index without arguments is skipped silently,
    and every other delta keeps the calls seen so far, only ever adding to
    their arguments. *)
Theorem stray_fragment_raises (tcs : list ToolCall) (d : ToolCallDelta) :
  (applyDelta tcs d = None
   ↔ length tcs < d_index d
     ∧ ∃ a, d_arguments d = Some a ∧ a ≠ "")
  ∧ (∀ tcs', applyDelta tcs d = Some tcs' →
       ∀ j c, tcs !! j = Some c →
         ∃ c', tcs' !! j = Some c' ∧ tc_id c' = tc_id c
               ∧ tc_name c' = tc_name c
               ∧ ∃ s, tc_arguments c' = tc_arguments c +:+ s).
Proof.
  unfold applyDelta. split.
  - destruct (Nat.eqb_spec (d_index d) (length tcs)) as [E|E].
    + split; [|intros [Hlt _]; lia].
      destruct (d_arguments d) as [a|]; [|discriminate].
      destruct (Js.truthy a); [|discriminate].
      rewrite E, lookup_snoc_length. discriminate.
    + destruct (d_arguments d) as [a|].
      * destruct a as [|x a]; cbn [Js.truthy].
        -- split; [discriminate|]. intros (_ & a & [= <-] & Ha). congruence.
        -- destruct (tcs !! d_index d) as [c|] eqn:El.
           ++ split; [discriminate|]. intros [Hlt _].
              apply lookup_lt_Some in El. lia.
           ++ apply lookup_ge_None in El. split; [|reflexivity].
              intros _. split; [lia|]. eexists. split; [reflexivity|].
              discriminate.
      * split; [discriminate|]. intros (_ & a & [=] & _).
  - intros tcs' Hd j c Hj.
    assert (∀ l : list ToolCall, l !! j = Some c →
              ∃ c', l !! j = Some c' ∧ tc_id c' = tc_id c
                    ∧ tc_name c' = tc_name c
                    ∧ ∃ s, tc_arguments c' = tc_arguments c +:+ s) as Hsame.
    { intros l Hl. exists c. repeat split; [exact Hl|].
      exists "". symmetry. apply string_app_nil_r. }
    set (l := if (d_index d =? length tcs)%nat
              then tcs ++ [mkToolCall (d_id d) (d_name d) ""] else tcs) in Hd.
    assert (l !! j = Some c) as Hl.
    { subst l. destruct (d_index d =? length tcs)%nat; [|exact Hj].
      apply lookup_app_l_Some, Hj. }
    destruct (d_arguments d) as [a|]; [|injection Hd as <-; auto].
    destruct (Js.truthy a); [|injection Hd as <-; auto].
    destruct (l !! d_index d) as [c0|] eqn:E0; [|discriminate].
    injection Hd as <-.
    clearbody l.
    destruct (decide (d_index d = j)) as [Hi|Hne].
    + rewrite Hi in E0 |- *. rewrite Hl in E0. injection E0 as ->.
      eexists. rewrite list_lookup_insert_eq by (eapply lookup_lt_Some, Hl).
      split; [reflexivity|]. cbn. eauto.
    + rewrite list_lookup_insert_ne by exact Hne. auto.
Qed.

Lemma stray_fragment_raises_witness :
  applyDelta [] (mkToolCallDelta 1 (Some "call_b") None (Some "x")) = None.
Proof.
  apply (proj1 (stray_fragment_raises []
                  (mkToolCallDelta 1 (Some "call_b") None (Some "x")))).
  split; [cbn; lia|]. eexists. split; [reflexivity|discriminate].
Defined.

(** ** Clearing a session *)

Arguments handleSessionSwitch : simpl never.

(** Comparisons of two given providers are decided. *)
Ltac decide_providers :=
  repeat match goal with
         | |- context [bool_decide (?a = ?b)] =>
             first [ rewrite (bool_decide_eq_true_2 (a = b)) by reflexivity
                   | rewrite (bool_decide_eq_false_2 (a = b)) by discriminate ]
         end.

Lemma handleSessionSwitch_fresh (env : Env) (w : World) :
  store_error env = None →
  store w !! sessionKey (modelSelector_value w) (personaSelector_value w)
  = None →
  ∃ w',
    handleSessionSwitch env w = (w', Ok tt)
    ∧ store w' = store w
    ∧ chatContainer w'
      = [mkDisplayMessage (persona_prefix w) "system-message"
           [DText ("New session started for "
                   +:+ name (PERSONAS (personaSelector_value w)) +:+ " via "
                   +:+ provider_text env (modelSelector_value w)
                   +:+ ". Awaiting your input.")] false]
    ∧ orchestrationLog w'
      = [(log_info,
          "Initializing session for "
          +:+ name (PERSONAS (personaSelector_value w)) +:+ " via "
          +:+ provider_text env (modelSelector_value w) +:+ ".");
         (log_info, "No history found. New session created.")]
    ∧ match modelSelector_value w with
      | gemini =>
          ai env = true →
          geminiChat w'
          = Some (mkChat (generateSystemPrompt (personaSelector_value w)) [])
      | openai =>
          openai_client env = true →
          openAIMessages w'
          = Some [OpenAIMsg (SystemMessage
                    (generateSystemPrompt (personaSelector_value w)))]
      end.
Proof.
  intros Herr Hnone.
  unfold handleSessionSwitch, getHistory, bind, gets, modify. cbn.
  rewrite Herr. cbn. rewrite Hnone. cbn.
  eexists. split; [reflexivity|]. cbn.
  unfold resetChatState, persona_prefix.
  destruct (modelSelector_value w); decide_providers; cbn.
  - destruct (ai env); cbn; repeat split; (reflexivity || discriminate).
  - destruct (openai_client env); cbn; repeat split;
      (reflexivity || discriminate).
Qed.

(** X16. Clearing the history.  When the user confirms and the store
    works, the record of the selected provider and persona is removed and
    no other record is touched; the chat shows the single line of a new
    session, the log is the two lines of the switch and the line of the
    clearing, and the selected provider, if configured, has a fresh context
    that holds nothing but the persona's system prompt.  When the user
    declines, nothing happens. *)
Theorem clearing_starts_afresh (env : Env) (w : World) :
  store_error env = None →
  let key := sessionKey (modelSelector_value w) (personaSelector_value w) in
  let w' := (handleClearHistory env true w).1 in
  (handleClearHistory env true w).2 = Ok tt
  ∧ store w' = delete key (store w)
  ∧ chatContainer w'
    = [mkDisplayMessage (persona_prefix w) "system-message"
         [DText ("New session started for "
                 +:+ name (PERSONAS (personaSelector_value w)) +:+ " via "
                 +:+ provider_text env (modelSelector_value w)
                 +:+ ". Awaiting your input.")] false]
  ∧ last (orchestrationLog w')
    = Some (log_info, "Chat history and logs cleared by user.")
  ∧ length (orchestrationLog w') = 3
  ∧ match modelSelector_value w with
    | gemini =>
        ai env = true →
        geminiChat w'
        = Some (mkChat (generateSystemPrompt (personaSelector_value w)) [])
    | openai =>
        openai_client env = true →
        openAIMessages w'
        = Some [OpenAIMsg (SystemMessage
                  (generateSystemPrompt (personaSelector_value w)))]
    end
  ∧ handleClearHistory env false w = (w, Ok tt).
Proof.
  intros Herr key w'. subst w'.
  set (w0 := set_store (delete key (store w))
               (record_call (CallDbDelete key) w)).
  destruct (handleSessionSwitch_fresh env w0 Herr)
    as (w1 & Hrun & Hstore & Hchat & Hlog & Hctx).
  { subst w0. cbn. apply lookup_delete_eq. }
  assert (handleClearHistory env true w
          = (logOrchestrationEvent "Chat history and logs cleared by user."
               log_info w1, Ok tt)) as ->.
  { unfold handleClearHistory, bind, gets, modify, clearHistory.
    cbv beta iota zeta. rewrite Herr. cbv beta iota.
    match goal with
    | |- context [handleSessionSwitch env ?x] =>
        change (handleSessionSwitch env x) with (handleSessionSwitch env w0)
    end.
    rewrite Hrun. reflexivity. }
  cbn.
  split; [reflexivity|]. split; [exact Hstore|].
  split; [exact Hchat|].
  split; [apply last_snoc|].
  split; [rewrite List.length_app, Hlog; reflexivity|].
  split; [exact Hctx|reflexivity].
Qed.

Lemma clearing_starts_afresh_witness :
  let w' := (handleClearHistory Sample.env true
               (Sample.world openai Lyra)).1 in
  store w' !! "openai-Lyra" = None
  ∧ store w' !! "openai-Kara" = Some Sample.stale_session
  ∧ openAIMessages w'
    = Some [OpenAIMsg (SystemMessage (generateSystemPrompt Lyra))].
Proof.
  intros w'. subst w'.
  destruct (clearing_starts_afresh Sample.env (Sample.world openai Lyra)
              eq_refl) as (_ & Hs & _ & _ & _ & Hctx & _).
  rewrite Hs. split; [reflexivity|]. split; [reflexivity|].
  exact (Hctx eq_refl).
Defined.

(** X17. A session switch on a failing store.  When the store rejects the
    load, the switch rejects with the store's error after it has emptied the
    chat and the log (of which only the line of the initialization is left):
    no session line is shown, and the conversation contexts are not reset,
    so the context of the session shown before stays live. *)
Theorem switch_on_failing_store (env : Env) (w : World) (e : Thrown) :
  store_error env = Some e →
  (handleSessionSwitch env w).2 = Throw e
  ∧ chatContainer (handleSessionSwitch env w).1 = []
  ∧ length (orchestrationLog (handleSessionSwitch env w).1) = 1
  ∧ geminiChat (handleSessionSwitch env w).1 = geminiChat w
  ∧ openAIMessages (handleSessionSwitch env w).1 = openAIMessages w
  ∧ store (handleSessionSwitch env w).1 = store w.
Proof.
  intros Herr.
  unfold handleSessionSwitch, getHistory, bind, gets, modify. cbn.
  rewrite Herr. cbn. repeat split.
Qed.

Lemma switch_on_failing_store_witness :
  let env :=
    mkEnv true true Sample.gemini_script Sample.openai_script
      (fun h m s => h) (fun sp p => inr p) (fun sp p => inr (Some p))
      Sample.parse (Some (ThrownError "InvalidStateError"))
      Sample.provider_label in
  (handleSessionSwitch env (Sample.world openai Lyra)).2
  = Throw (ThrownError "InvalidStateError")
  ∧ chatContainer (handleSessionSwitch env (Sample.world openai Lyra)).1 = []
  ∧ openAIMessages (handleSessionSwitch env (Sample.world openai Lyra)).1
    = Some [OpenAIMsg (SystemMessage (generateSystemPrompt Lyra))].
Proof.
  intros env.
  destruct (switch_on_failing_store env (Sample.world openai Lyra)
              (ThrownError "InvalidStateError") eq_refl)
    as (H1 & H2 & _ & _ & H5 & _).
  split; [exact H1|]. split; [exact H2|exact H5].
Defined.

(** ** Reading the attachment *)

Lemma split_char_lacks (sep : ascii) (s : string) :
  lacks sep s = true → split_char sep s = [s].
Proof.
  induction s as [|c r IH]; cbn [lacks split_char]; [reflexivity|].
  intros H. apply andb_prop in H as [Hc Hr].
  apply negb_true_iff in Hc. rewrite Hc, (IH Hr). reflexivity.
Qed.

Lemma split_char_app (sep : ascii) (a b : string) :
  lacks sep a = true →
  split_char sep (a +:+ String sep b) = a :: split_char sep b.
Proof.
  induction a as [|c r IH]; cbn [lacks].
  - intros _. change ("" +:+ String sep b) with (String sep b).
    cbn [split_char]. rewrite Ascii.eqb_refl. reflexivity.
  - intros H. apply andb_prop in H as [Hc Hr].
    apply negb_true_iff in Hc.
    change (String c r +:+ String sep b) with (String c (r +:+ String sep b)).
    cbn [split_char]. rewrite Hc, (IH Hr). reflexivity.
Qed.

(** X18. Reading a data URL.  The reader gives back what a data URL was
    made of: for a MIME type without comma, colon or semicolon and a
    non-empty payload without comma, the URL [data:<type>;base64,<payload>]
    is read as that type and that payload.  A result without a comma is
    rejected as an invalid file format. *)
Theorem data_url_round_trip (d : InlineData) (result : string) :
  (lacks "," (mimeType d) = true → lacks ":" (mimeType d) = true →
   lacks ";" (mimeType d) = true →
   data d ≠ "" → lacks "," (data d) = true →
   readDataURL (dataUrl d) = Ok d)
  ∧ (lacks "," result = true →
     readDataURL result = Throw (ThrownError "Invalid file format.")).
Proof.
  split.
  - intros Hm1 Hm2 Hm3 Hd1 Hd2. destruct d as [m b]. cbn in *.
    unfold readDataURL, dataUrl. cbn [mimeType data].
    assert ("data:" +:+ m +:+ ";base64," +:+ b
            = ("data:" +:+ m +:+ ";base64") +:+ String "," b) as ->.
    { rewrite !string_app_assoc. reflexivity. }
    assert (lacks "," ("data:" +:+ m +:+ ";base64") = true) as Hh.
    { change ("data:" +:+ m +:+ ";base64")
        with (String "d" (String "a" (String "t" (String "a" (String ":"
                (m +:+ ";base64")))))).
      cbn [lacks]. cbn [Ascii.eqb Bool.eqb negb andb].
      clear -Hm1. induction m as [|c r IH]; [reflexivity|].
      cbn [lacks] in Hm1. apply andb_prop in Hm1 as [Hc Hr].
      change (String c r +:+ ";base64") with (String c (r +:+ ";base64")).
      cbn [lacks]. rewrite Hc. exact (IH Hr). }
    rewrite (split_char_app "," _ b Hh), (split_char_lacks "," b Hd2).
    cbn [take lookup list_lookup].
    change (Js.truthy ("data:" +:+ m +:+ ";base64")) with true.
    rewrite (truthy_true b Hd1). cbn [andb].
    change ("data:" +:+ m +:+ ";base64")
      with ("data" +:+ String ":" (m +:+ ";base64")).
    rewrite (split_char_app ":" "data" _ eq_refl).
    assert (split_char ":" (m +:+ ";base64") = [m +:+ ";base64"]) as ->.
    { apply split_char_lacks. clear -Hm2.
      induction m as [|c r IH]; [reflexivity|].
      cbn [lacks] in Hm2. apply andb_prop in Hm2 as [Hc Hr].
      change (String c r +:+ ";base64") with (String c (r +:+ ";base64")).
      cbn [lacks]. rewrite Hc. exact (IH Hr). }
    cbn [lookup list_lookup].
    change (m +:+ ";base64") with (m +:+ String ";" "base64").
    rewrite (split_char_app ";" m _ Hm3). reflexivity.
  - intros H. unfold readDataURL. rewrite (split_char_lacks "," result H).
    reflexivity.
Qed.

Lemma data_url_round_trip_witness :
  readDataURL "data:image/png;base64,iVBORw0KGgo="
  = Ok (mkInlineData "image/png" "iVBORw0KGgo=")
  ∧ readDataURL "not a data url"
    = Throw (ThrownError "Invalid file format.").
Proof.
  destruct (data_url_round_trip (mkInlineData "image/png" "iVBORw0KGgo=")
              "not a data url") as [H1 H2].
  split.
  - apply H1; (reflexivity || discriminate).
  - apply H2. reflexivity.
Defined.

(** ** The window *)

Section Window.
Context {N : Type} `{NumberOrder N}.

Lemma nle_refl (a : N) : nle a a = true.
Proof. destruct (nle_total a a); assumption. Qed.

Lemma clamp_bounds (v hi : N) :
  nle nzero (Math_max nzero (Math_min v hi)) = true
  ∧ (nle nzero hi = true →
     nle (Math_max nzero (Math_min v hi)) hi = true).
Proof.
  unfold Math_max, Math_min.
  destruct (nle v hi) eqn:E1.
  - destruct (nle nzero v) eqn:E2; [auto|]. split; [apply nle_refl|auto].
  - destruct (nle nzero hi) eqn:E2.
    + split; [exact E2|]. intros _. apply nle_refl.
    + split; [apply nle_refl|discriminate].
Qed.

Lemma pinned (v hi : N) :
  nle nzero hi = false → Math_max nzero (Math_min v hi) = nzero.
Proof.
  intros E. unfold Math_max, Math_min. destruct (nle v hi) eqn:E1.
  - destruct (nle nzero v) eqn:E2; [|reflexivity].
    rewrite (nle_trans _ _ _ E2 E1) in E. discriminate E.
  - rewrite E. reflexivity.
Qed.

(** X19. Dragging keeps the window on screen.  While a drag is on, every
    mouse move puts the window at a pixel position that is not negative
    and, when the window is not larger than the viewport, not beyond the
    viewport's width and height less the window's; the pointer's offset
    a window larger than the viewport is pinned at zero.  A move outside a
    drag changes nothing. *)
Theorem drag_stays_on_screen (clientX clientY innerWidth innerHeight
  offsetWidth offsetHeight : N) (d : Desktop N) :
  (isDragging d = true →
   ∃ x y,
     window_left (onDrag clientX clientY innerWidth innerHeight offsetWidth
                    offsetHeight d) = css_px x
     ∧ window_top (onDrag clientX clientY innerWidth innerHeight offsetWidth
                     offsetHeight d) = css_px y
     ∧ nle nzero x = true ∧ nle nzero y = true
     ∧ (nle nzero (nsub innerWidth offsetWidth) = true →
        nle x (nsub innerWidth offsetWidth) = true)
     ∧ (nle nzero (nsub innerHeight offsetHeight) = true →
        nle y (nsub innerHeight offsetHeight) = true)
     ∧ (nle nzero (nsub innerWidth offsetWidth) = false → x = nzero)
     ∧ (nle nzero (nsub innerHeight offsetHeight) = false → y = nzero))
  ∧ (isDragging d = false →
     onDrag clientX clientY innerWidth innerHeight offsetWidth offsetHeight d
     = d).
Proof.
  unfold onDrag. split; intros Hd; rewrite Hd; cbn [negb]; [|reflexivity].
  cbv zeta. cbn [window_left window_top].
  destruct (clamp_bounds (nsub clientX (dragOffsetX d))
              (nsub innerWidth offsetWidth)) as [Hx0 Hx1].
  destruct (clamp_bounds (nsub clientY (dragOffsetY d))
              (nsub innerHeight offsetHeight)) as [Hy0 Hy1].
  eexists _, _. split; [reflexivity|]. split; [reflexivity|].
  repeat split; try assumption; intros E; apply pinned; exact E.
Qed.

(** X20. Maximizing and restoring.  Maximizing a window that is not
    maximized and restoring it puts it back where it was; and while the
    window is maximized, pressing the title bar starts no drag, so that
    outside a drag neither the press nor a mouse move changes anything. *)
Theorem maximize_then_restore (d : Desktop N) :
  window_maximized d = false →
  window_top (handleToggleMaximize (handleToggleMaximize d)) = window_top d
  ∧ window_left (handleToggleMaximize (handleToggleMaximize d))
    = window_left d
  ∧ window_maximized (handleToggleMaximize (handleToggleMaximize d)) = false
  ∧ window_top (handleToggleMaximize d) = css_empty
  ∧ window_left (handleToggleMaximize d) = css_empty
  ∧ (∀ onControls clientX clientY rectLeft rectTop,
       titleBar_mousedown onControls clientX clientY rectLeft rectTop
         (handleToggleMaximize d) = handleToggleMaximize d)
  ∧ (isDragging d = false →
     ∀ clientX clientY innerWidth innerHeight offsetWidth offsetHeight,
       onDrag clientX clientY innerWidth innerHeight offsetWidth offsetHeight
         (handleToggleMaximize d) = handleToggleMaximize d).
Proof.
  intros Hm. unfold handleToggleMaximize at 2 4 6 7 8 9 10 11 12.
  rewrite Hm. cbn [negb]. cbv zeta.
  unfold handleToggleMaximize. cbn. repeat split.
  - intros []; reflexivity.
  - intros Hd ?. intros. unfold onDrag. cbn. rewrite Hd. reflexivity.
Qed.
End Window.

Global Instance Z_NumberOrder : NumberOrder Z.
Proof.
  split.
  - intros a b. cbn. destruct (Z.leb_spec a b); [auto|].
    right. apply Z.leb_le. lia.
  - intros a b c. cbn. rewrite !Z.leb_le. lia.
Qed.

Lemma drag_stays_on_screen_witness :
  let d := mkDesktop true 10%Z 10%Z css_empty css_empty false
             (css_px 0%Z) (css_px 0%Z) true "grabbing" "none" true "" "" in
  ∃ x y : Z,
    window_left (onDrag 5000%Z (-20)%Z 1024%Z 768%Z 600%Z 400%Z d) = css_px x
    ∧ window_top (onDrag 5000%Z (-20)%Z 1024%Z 768%Z 600%Z 400%Z d)
      = css_px y
    ∧ (0 <=? x)%Z = true ∧ (0 <=? y)%Z = true
    ∧ (x <=? 424)%Z = true ∧ (y <=? 368)%Z = true.
Proof.
  intros d.
  destruct (proj1 (drag_stays_on_screen 5000%Z (-20)%Z 1024%Z 768%Z 600%Z
                     400%Z d) eq_refl)
    as (x & y & Hx & Hy & Hx0 & Hy0 & Hx1 & Hy1 & _).
  exists x, y. repeat split; try assumption.
  - exact (Hx1 eq_refl).
  - exact (Hy1 eq_refl).
Defined.

Lemma maximize_then_restore_witness :
  let d := mkDesktop false 0%Z 0%Z css_empty css_empty false
             (css_px 40%Z) (css_px 60%Z) true "grab" "" false
             "&#x25A1;" "Maximize Window" in
  window_top (handleToggleMaximize (handleToggleMaximize d)) = css_px 40%Z
  ∧ window_left (handleToggleMaximize (handleToggleMaximize d))
    = css_px 60%Z.
Proof.
  intros d.
  destruct (maximize_then_restore d eq_refl) as (H1 & H2 & _).
  split; [exact H1|exact H2].
Defined.

(** ** Start-up: the selected provider *)

Lemma first_enabled_Some (opts : list (Provider * bool)) (i : nat) :
  first_enabled opts = Some i → ∃ p, opts !! i = Some (p, false).
Proof.
  revert i. induction opts as [|[p b] r IH]; intros i; cbn; [discriminate|].
  destruct b.
  - destruct (first_enabled r) as [j|]; [|discriminate].
    intros [= <-]. cbn. apply IH. reflexivity.
  - intros [= <-]. exists p. reflexivity.
Qed.

Lemma first_enabled_None (opts : list (Provider * bool)) :
  first_enabled opts = None →
  ∀ i p b, opts !! i = Some (p, b) → b = true.
Proof.
  induction opts as [|[q c] r IH]; cbn; [intros _ i p b; discriminate|].
  destruct c; [|discriminate].
  destruct (first_enabled r) as [j|]; [discriminate|].
  intros _ [|i] p b; cbn; [intros [= _ <-]; reflexivity|].
  apply IH. reflexivity.
Qed.

Lemma disable_option_spec (p : Provider) (opts opts' : list (Provider * bool)) :
  disable_option p opts = Some opts' →
  length opts' = length opts
  ∧ ∀ i q, opts' !! i = Some (q, false) → opts !! i = Some (q, false).
Proof.
  revert opts'. induction opts as [|[q c] r IH]; intros opts'; cbn;
    [discriminate|].
  destruct (bool_decide (q = p)) eqn:E.
  - intros [= <-]. split; [reflexivity|].
    intros [|i] q'; cbn; [discriminate|auto].
  - destruct (disable_option p r) as [r'|]; [|discriminate].
    intros [= <-]. destruct (IH r' eq_refl) as [Hlen Hopt].
    split; [cbn; congruence|].
    intros [|i] q'; cbn; [auto|apply Hopt].
Qed.

(** X21. The provider selected at start-up.  When start-up goes through,
    an option is enabled afterwards only if it was enabled before, none is
    added or removed, and the selected option is an enabled one whenever
    there is an enabled one at all; if every option is disabled the
    selection stays where it was. *)
Theorem startup_selects_enabled_provider (geminiApiKey openAIApiKey : bool)
  (s s' : Selector) :
  initializeApp geminiApiKey openAIApiKey s = Some s' →
  length (options s') = length (options s)
  ∧ (∀ i q, options s' !! i = Some (q, false) →
            options s !! i = Some (q, false))
  ∧ ((∃ i q, options s' !! i = Some (q, false)) →
     ∃ q, options s' !! selectedIndex s' = Some (q, false))
  ∧ ((∀ i q b, options s' !! i = Some (q, b) → b = true) →
     selectedIndex s' = selectedIndex s).
Proof.
  unfold initializeApp. intros Hinit.
  destruct (if geminiApiKey then Some (options s)
            else disable_option gemini (options s)) as [o1|] eqn:E1;
    [|discriminate]. cbn in Hinit.
  destruct (if openAIApiKey then Some o1 else disable_option openai o1)
    as [o2|] eqn:E2; [|discriminate]. cbn in Hinit.
  assert (length o1 = length (options s)
          ∧ ∀ i q, o1 !! i = Some (q, false) →
                   options s !! i = Some (q, false)) as [L1 K1].
  { destruct geminiApiKey; [injection E1 as <-; auto|].
    apply (disable_option_spec _ _ _ E1). }
  assert (length o2 = length o1
          ∧ ∀ i q, o2 !! i = Some (q, false) → o1 !! i = Some (q, false))
    as [L2 K2].
  { destruct openAIApiKey; [injection E2 as <-; auto|].
    apply (disable_option_spec _ _ _ E2). }
  destruct (o2 !! selectedIndex s) as [[q [|]]|] eqn:Es; [| |discriminate].
  - destruct (first_enabled o2) as [i|] eqn:Ef; injection Hinit as <-;
      cbn [options selectedIndex].
    + split; [congruence|]. split; [auto|].
      split; [intros _; apply first_enabled_Some, Ef|].
      intros Hall. destruct (first_enabled_Some _ _ Ef) as [p Hp].
      specialize (Hall _ _ _ Hp). discriminate Hall.
    + split; [congruence|]. split; [auto|]. split; [|reflexivity].
      intros (i & p & Hp).
      pose proof (first_enabled_None _ Ef _ _ _ Hp) as Hb. discriminate Hb.
  - injection Hinit as <-. cbn [options selectedIndex].
    split; [congruence|]. split; [auto|]. split; [eauto|reflexivity].
Qed.

Lemma startup_selects_enabled_provider_witness :
  ∃ s', initializeApp false true
          (mkSelector [(gemini, false); (openai, false)] 0) = Some s'
        ∧ options s' !! selectedIndex s' = Some (openai, false).
Proof.
  eexists. split; [reflexivity|].
  destruct (startup_selects_enabled_provider false true
              (mkSelector [(gemini, false); (openai, false)] 0) _ eq_refl)
    as (_ & _ & Hsel & _).
  destruct Hsel as [q Hq]; [exists 1, openai; reflexivity|].
  rewrite Hq. f_equal. f_equal.
  cbn in Hq. injection Hq as <-. reflexivity.
Defined.

(** ** A restored session shows what the turn showed *)

Lemma renderHistory_app (h1 h2 : ChatHistory) (w : World) :
  chatContainer (renderHistory (h1 ++ h2) w)
  = chatContainer (renderHistory h1 w) ++ chatContainer (renderHistory h2 w).
Proof.
  unfold renderHistory, set_chatContainer, ChatHistory in *.
  cbn [chatContainer].
  rewrite (list.filter_app (fun m => rendered m = true) h1 h2), map_app.
  reflexivity.
Qed.

(** X22. Restoring shows the text turn as it was shown live.  For a turn
    of plain text with OpenAI, the two messages that the turn appends to
    the transcript (the user's text and the assistant's answer) are
    rendered, when the saved transcript is restored, as the same two
    entries that the turn displayed: the user's message and the answer
    under the persona's prefix.  With an attachment the user's entry is not
    the same: restored, the text comes before the image; live, after it. *)
Theorem restored_display_is_live_display (msgs : ChatHistory)
  (userInput answer : string) (w : World) :
  Js.truthy userInput = true →
  chatContainer
    (renderHistory
       (msgs ++ [OpenAIMsg (UserMessage (openaiUserContent userInput None));
                 OpenAIMsg (AssistantMessage (Some answer) None)]) w)
  = chatContainer (renderHistory msgs w)
    ++ [user_message userInput None;
        mkDisplayMessage (persona_prefix w) "" [DText answer] false]
  ∧ ∀ (f : File) (d : InlineData),
      chatContainer
        (renderHistory
           [OpenAIMsg (UserMessage (openaiUserContent userInput (Some d)))] w)
      = [mkDisplayMessage "USER>" "user-message"
           [DText userInput; DImage (dataUrl d) "Uploaded image"] false]
      ∧ user_message userInput (Some f)
        = mkDisplayMessage "USER>" "user-message"
            [DBlobImage (file_name f); DText userInput] false.
Proof.
  intros Hu. split.
  - rewrite renderHistory_app. f_equal.
    unfold renderHistory, user_message, openaiUserContent, persona_prefix.
    rewrite Hu. reflexivity.
  - intros f d.
    unfold renderHistory, user_message, openaiUserContent.
    rewrite Hu. split; reflexivity.
Qed.

Lemma restored_display_is_live_display_witness :
  chatContainer
    (renderHistory
       [OpenAIMsg (SystemMessage "sys");
        OpenAIMsg (UserMessage (ContentString "hello"));
        OpenAIMsg (AssistantMessage (Some "Done.") None)]
       (Sample.world openai Lyra))
  = [mkDisplayMessage "USER>" "user-message" [DText "hello"] false;
     mkDisplayMessage "LYRA>" "" [DText "Done."] false].
Proof.
  apply (restored_display_is_live_display [OpenAIMsg (SystemMessage "sys")]
           "hello" "Done." (Sample.world openai Lyra) eq_refl).
Defined.

(** ** What a one-off delegation shows *)

Lemma mention_name_not_inherited (a : string) (k : PersonaKey) :
  Js.toLowerCase a = Js.toLowerCase (name (PERSONAS k)) →
  Js.inherited a = false.
Proof.
  intros Hl. destruct (Js.inherited a) eqn:E; [|reflexivity].
  unfold Js.inherited in E. apply existsb_exists in E as (n & Hin & Heq).
  apply String.eqb_eq in Heq. subst n. exfalso.
  unfold Js.Object_prototype in Hin. cbn [In] in Hin.
  repeat (destruct Hin as [<-|Hin];
          [destruct k; vm_compute in Hl; discriminate Hl|]).
  exact Hin.
Qed.

Lemma mention_in_other_case (a : string) (k : PersonaKey) :
  Js.toLowerCase a = Js.toLowerCase (name (PERSONAS k)) →
  a ≠ name (PERSONAS k) →
  Js.get PERSONA_NAME_TO_KEY_MAP a = Undefined.
Proof.
  intros Hl Hne. unfold Js.get.
  rewrite (mention_name_not_inherited a k Hl).
  rewrite own_persona_map_None; [reflexivity|].
  intros k' ->. apply Hne.
  destruct k, k'; try reflexivity; vm_compute in Hl; discriminate Hl.
Qed.

(** X23. What a one-off delegation shows.  A mention of another persona
    adds two entries to the chat, the whole input as the user's message and
    one entry under the prefix of the mentioned persona with the executor's
    result, and changes no earlier entry.  The executor is given the name
    as it was typed: when the typed name differs from the display name in
    letter case only, the entry under the persona's prefix reads that the
    agent was not found, and no provider is asked. *)
Theorem one_off_delegation_display (env : Env) (fuel : nat) (raw : string)
  (w : World) (agentName rest : string) (target : PersonaKey) :
  stagedFile w = None →
  mentionMatch (Js.trim raw) = Some (agentName, rest) →
  Js.toLowerCase agentName = Js.toLowerCase (name (PERSONAS target)) →
  target ≠ personaSelector_value w →
  Js.trim rest ≠ "" →
  ∃ result,
    chatContainer (submit env fuel raw w).1
    = chatContainer w
      ++ [mkDisplayMessage "USER>" "user-message" [DText (Js.trim raw)] false;
          mkDisplayMessage (Js.toUpperCase (key_name target) +:+ ">") ""
            [DText result] false]
    ∧ (agentName ≠ name (PERSONAS target) →
       result = "Error: Agent '" +:+ agentName +:+ "' not found."
       ∧ calls (submit env fuel raw w).1
         = calls w ++ [CallExecute agentName (Js.trim rest)]).
Proof.
  intros Hs Hm Hl Ht Hr.
  assert (submit env fuel raw w
          = delegateOnce env (Js.trim raw) agentName (Js.trim rest) target
              (set_chatInput_value raw w)) as ->.
  { unfold submit, handleChatSubmit, bind, gets. cbn.
    rewrite (mentionMatch_nonempty _ _ _ Hm). cbn.
    rewrite (handleMention_other _ _ agentName rest target); auto. }
  pose proof (mention_name_not_inherited _ _ Hl) as Hinh.
  unfold delegateOnce, bind, modify, gets, finally, try_catch, ret. cbn.
  rewrite !alter_last.
  set (um := mkDisplayMessage "USER>" "user-message" [DText (Js.trim raw)]
               false).
  match goal with
  | |- context [executeInvokeAgent env agentName ?p ?W] =>
      assert (∃ m, chatContainer W = (chatContainer w ++ [um]) ++ [m]
                   ∧ dm_prefix m = Js.toUpperCase (key_name target) +:+ ">"
                   ∧ dm_class m = "") as (tm & HW & T1 & T2);
      [|pose proof (executeInvokeAgent_only_slot env
                      (length (chatContainer w ++ [um])) agentName p W
                      _ _ HW eq_refl) as (m' & Hm' & A1 & A2 & _);
        destruct (executeInvokeAgent_returns env agentName p W Hinh)
          as [result Hres];
        assert (agentName ≠ name (PERSONAS target) →
                executeInvokeAgent env agentName p W
                = (record_call (CallExecute agentName p) W,
                   Ok ("Error: Agent '" +:+ agentName +:+ "' not found.")))
          as Hmiss;
        [|destruct (executeInvokeAgent env agentName p W) as [w1 r]]]
  end.
  - cbn. rewrite alter_last. eexists. split; [reflexivity|]. auto.
  - intros Hne. unfold executeInvokeAgent, bind, modify, ret.
    rewrite (mention_in_other_case _ _ Hl Hne). reflexivity.
  - cbn in Hres, Hm'. subst r. cbn. exists result.
    rewrite Hm', !alter_last, <- app_assoc. cbn. rewrite A1, A2, T1, T2.
    split; [reflexivity|].
    intros Hne. specialize (Hmiss Hne). injection Hmiss as -> ->.
    split; [reflexivity|]. reflexivity.
Qed.

Lemma one_off_delegation_display_witness :
  ∃ result,
    chatContainer
      (submit Sample.env 3 "  @kara check this " (Sample.world openai Lyra)).1
    = [mkDisplayMessage "USER>" "user-message" [DText "@kara check this"]
         false;
       mkDisplayMessage "KARA>" "" [DText result] false]
    ∧ result = "Error: Agent 'kara' not found.".
Proof.
  destruct (one_off_delegation_display Sample.env 3 "  @kara check this "
              (Sample.world openai Lyra) "kara" "check this" Kara)
    as (result & Hc & Hmiss);
    [reflexivity | reflexivity | reflexivity | discriminate | discriminate |].
  exists result. split; [exact Hc|].
  apply Hmiss. discriminate.
Defined.

(** ** A failed turn keeps the question *)

Lemma runProvider_openai_first_round_fails env fuel k userInput file thinking
  w (msgs : ChatHistory) :
  1 ≤ fuel →
  openai_client env = true →
  openAIMessages w = Some msgs →
  encodable file →
  failure (openai_stream env 0) ≠ None
  ∨ openai_calls (chunks (openai_stream env 0)) = None →
  ∃ w1 e,
    runProvider env fuel openai k userInput file thinking w = (w1, Throw e)
    ∧ openAIMessages w1
      = Some (msgs ++ [OpenAIMsg (UserMessage
                         (openaiUserContent userInput (encoded file)))]).
Proof.
  intros Hfuel Hclient Hmsgs Hfile Hfail.
  destruct fuel as [|fuel]; [lia|].
  unfold runProvider, bind at 1. rewrite (fileToBase64_encoded file w Hfile).
  decide_providers. rewrite Hclient.
  cbn [andb]. unfold bind at 1 2, gets, modify. rewrite Hmsgs. cbv beta iota.
  rewrite openaiLoop_S. unfold openaiRound, bind.
  match goal with
  | |- context [openaiSend env ?t 0 ?tools ?W] =>
      pose proof (openaiSend_result env t 0 tools W) as Hres;
      pose proof (openaiSend_keeps_messages env t 0 tools W) as Hkeep;
      destruct (openaiSend env t 0 tools W) as [w1 r]
  end.
  cbn in Hres, Hkeep. unfold keeps_messages in Hkeep. cbn in Hkeep.
  rewrite Hmsgs in Hkeep. cbn in Hkeep.
  assert (∃ e, r = Throw e) as [e ->].
  { subst r. destruct (openai_calls _) as [tcs|]; [|eauto].
    destruct (failure (openai_stream env 0)) as [e|]; [eauto|].
    destruct Hfail as [Hf|Hf]; [destruct (Hf eq_refl)|discriminate Hf]. }
  exists w1, e. split; [reflexivity|exact Hkeep].
Qed.

Lemma tryTurn_fails env fuel p k userInput file thinking W0 w1 (e : Thrown) :
  runProvider env fuel p k userInput file thinking W0 = (w1, Throw e) →
  ∃ w',
    tryTurn env fuel p k userInput file thinking W0 = (w', Ok Failed)
    ∧ store w' = store w1
    ∧ openAIMessages w' = openAIMessages w1
    ∧ geminiChat w' = geminiChat w1.
Proof.
  intros Hrun. unfold tryTurn, finally, try_catch, bind. rewrite Hrun.
  unfold modify, ret. cbn. eexists. split; [reflexivity|]. auto.
Qed.

(** X24. A failed turn keeps the question.  When the first request of an
    OpenAI turn fails (the stream ends with an error, or a delta cannot be
    read), the turn ends in the [catch] block and the store is unchanged,
    but the user's message, which was appended before the request, stays
    in the transcript in memory. *)
Theorem failed_turn_keeps_the_question (env : Env) (fuel : nat)
  (userInput : string) (w : World) (msgs : ChatHistory) :
  1 ≤ fuel →
  Js.truthy userInput = true ∨ is_Some (stagedFile w) →
  encodable (stagedFile w) →
  modelSelector_value w = openai →
  openai_client env = true →
  openAIMessages w = Some msgs →
  failure (openai_stream env 0) ≠ None
  ∨ openai_calls (chunks (openai_stream env 0)) = None →
  (submitTurn env fuel userInput w).2 = Ok Failed
  ∧ openAIMessages (submitTurn env fuel userInput w).1
    = Some (msgs ++ [OpenAIMsg (UserMessage
                       (openaiUserContent userInput
                          (encoded (stagedFile w))))])
  ∧ store (submitTurn env fuel userInput w).1 = store w.
Proof.
  intros Hfuel Hguard Hfile Hprov Hclient Hmsgs Hfail.
  destruct (submitTurn_start env fuel userInput w Hguard)
    as (W0 & -> & Hstore & _ & _ & Hm0 & _ & _ & _).
  rewrite Hprov. rewrite <- Hm0 in Hmsgs.
  destruct (runProvider_openai_first_round_fails env fuel
              (personaSelector_value w) userInput (stagedFile w)
              (thinking_slot w) W0 msgs Hfuel Hclient Hmsgs Hfile Hfail)
    as (w1 & e & Hrun & Hm1).
  pose proof (runProvider_keeps_store env false fuel openai
                (personaSelector_value w) userInput (stagedFile w)
                (thinking_slot w) W0) as [Hkeep _].
  rewrite Hrun in Hkeep. cbn in Hkeep.
  destruct (tryTurn_fails env fuel openai (personaSelector_value w) userInput
              (stagedFile w) (thinking_slot w) W0 w1 e Hrun)
    as (w' & -> & Hs & Hm' & _).
  cbn. split; [reflexivity|]. split; congruence.
Qed.

Lemma failed_turn_keeps_the_question_witness :
  let w := Sample.world openai Lyra in
  (submitTurn Sample.failing_env 1 "hello" w).2 = Ok Failed
  ∧ openAIMessages (submitTurn Sample.failing_env 1 "hello" w).1
    = Some [OpenAIMsg (SystemMessage (generateSystemPrompt Lyra));
            OpenAIMsg (UserMessage (ContentString "hello"))]
  ∧ store (submitTurn Sample.failing_env 1 "hello" w).1 = store w.
Proof.
  intros w.
  apply (failed_turn_keeps_the_question Sample.failing_env 1 "hello" w
           [OpenAIMsg (SystemMessage (generateSystemPrompt Lyra))]).
  - lia.
  - left. reflexivity.
  - intros f e [=].
  - reflexivity.
  - reflexivity.
  - reflexivity.
  - left. discriminate.
Defined.
